(** * vanilla-smart-select: the results/query pipeline and the selection state

    A shallow embedding of the item store (DataAdapter), the remote source
    (AjaxAdapter), the text search (SearchManager), the keyboard navigation
    (KeyboardManager) and the query coordinator (ResultsAdapter), followed by
    the properties of the specification that were settled against it.

    Conventions of the embedding.
    - A JavaScript string is a [string] of 8-bit code units (U+0000..U+00FF);
      [trim] and [toLowerCase] are written out for exactly that range.
    - A JavaScript number is an integer [Z]; fractions, NaN and the
      exponent rendering of numbers beyond 1e21 are outside the model.
    - A property that is absent reads as [Undefined], as in JavaScript.
    - Event emission appends to a log; listeners are run only in the model
      of the EventEmitter itself.
    - The host element is what the store reads from it and assigns to it;
      the rules by which the DOM derives the selectedness of the options
      of a [<select>] from the assignments are not modelled. *)

From Stdlib Require Import ZArith Ascii String DecimalString Bool Lia.
From stdpp Require Import gmap strings list.

Local Open Scope Z_scope.

(** ** JavaScript values *)

Module Js.

Inductive Value : Type :=
| Undefined
| Null
| Bool (b : bool)
| Num (n : Z)
| Str (s : string)
| Obj (r : nat).

(** ToBoolean. *)
Definition truthy (v : Value) : bool :=
  match v with
  | Undefined | Null => false
  | Bool b => b
  | Num n => negb (n =? 0)
  | Str s => negb (String.eqb s "")
  | Obj _ => true
  end.

(** [a || b] *)
Definition or_else (a b : Value) : Value := if truthy a then a else b.

(** [a === b]; objects compare by reference. *)
Definition strict_eq (a b : Value) : bool :=
  match a, b with
  | Undefined, Undefined => true
  | Null, Null => true
  | Bool x, Bool y => Bool.eqb x y
  | Num x, Num y => x =? y
  | Str x, Str y => String.eqb x y
  | Obj x, Obj y => Nat.eqb x y
  | _, _ => false
  end.

Definition string_of_Z (n : Z) : string := NilZero.string_of_int (Z.to_int n).

(** [String(v)] *)
Definition String_ (v : Value) : string :=
  match v with
  | Undefined => "undefined"
  | Null => "null"
  | Bool true => "true"
  | Bool false => "false"
  | Num n => string_of_Z n
  | Str s => s
  | Obj _ => "[object Object]"
  end.

(** White space and line terminators among the code units below 256. *)
Definition is_white_space (c : ascii) : bool :=
  let n := nat_of_ascii c in
  ((9 <=? n)%nat && (n <=? 13)%nat) || (n =? 32)%nat || (n =? 160)%nat.

Fixpoint trimStart (s : string) : string :=
  match s with
  | EmptyString => EmptyString
  | String c rest => if is_white_space c then trimStart rest else s
  end.

Fixpoint trimEnd (s : string) : string :=
  match s with
  | EmptyString => EmptyString
  | String c rest =>
      match trimEnd rest with
      | EmptyString => if is_white_space c then EmptyString else String c EmptyString
      | t => String c t
      end
  end.

(** [s.trim()] *)
Definition trim (s : string) : string := trimEnd (trimStart s).

Definition lower_char (c : ascii) : ascii :=
  let n := nat_of_ascii c in
  if ((65 <=? n)%nat && (n <=? 90)%nat)
     || ((192 <=? n)%nat && (n <=? 222)%nat && negb (n =? 215)%nat)
  then ascii_of_nat (n + 32) else c.

(** [s.toLowerCase()] *)
Fixpoint toLowerCase (s : string) : string :=
  match s with
  | EmptyString => EmptyString
  | String c rest => String (lower_char c) (toLowerCase rest)
  end.

(** [!term || term.trim() === ""] for a string [term]. *)
Definition blank (term : string) : bool :=
  negb (truthy (Str term)) || String.eqb (trim term) "".

End Js.

(** ** Items and groups *)

Module Items.
Import Js.

(** What reading [item.children] gives: an array of items, or a value
    that is not an array ([Undefined] when the property is absent). *)
Inductive Children (A : Type) : Type :=
| NotArray (v : Value)
| IsArray (l : list A).
Arguments NotArray {A} v.
Arguments IsArray {A} l.

(** An item object.  [extra] holds the caller's own properties, which the
    code copies with the spread operator and never reads. *)
#[warnings="-register-all"]
Inductive Item : Type :=
  MkItem {
    id : Value;
    text : Value;
    disabled : Value;
    selected : Value;
    children : Children Item;
    element : Value;
    _isTag : Value;
    extra : list (string * Value)
  }.

Definition set_children (c : Children Item) (it : Item) : Item :=
  MkItem (id it) (text it) (disabled it) (selected it) c
         (element it) (_isTag it) (extra it).

Definition set_element (e : Value) (it : Item) : Item :=
  MkItem (id it) (text it) (disabled it) (selected it) (children it)
         e (_isTag it) (extra it).

Definition set_isTag (v : Value) (it : Item) : Item :=
  MkItem (id it) (text it) (disabled it) (selected it) (children it)
         (element it) v (extra it).

(** [{ id: i, text: t }] *)
Definition plain (i t : Value) : Item :=
  MkItem i t Undefined Undefined (NotArray Undefined) Undefined Undefined [].

(** [{}] *)
Definition empty_object : Item := plain Undefined Undefined.

(** [{ text: t, children: l }] *)
Definition group (t : Value) (l : list Item) : Item :=
  MkItem Undefined t Undefined Undefined (IsArray l) Undefined Undefined [].

(** [item.children && Array.isArray(item.children)] *)
Definition is_group (it : Item) : bool :=
  match children it with IsArray _ => true | NotArray _ => false end.

(** The id or the text is defined, here and in every child. *)
Fixpoint identified (it : Item) : bool :=
  (negb (strict_eq (id it) Undefined) || negb (strict_eq (text it) Undefined))
  && match children it with
     | IsArray l => forallb identified l
     | NotArray _ => true
     end.

End Items.

(** ** Events

    [emit] goes to the instance's listeners, [trigger] dispatches a DOM
    event on the host element; both are recorded in one log, oldest first. *)

Module Events.
Import Js Items.

Definition SELECT : string := "vs:select".
Definition UNSELECT : string := "vs:unselect".
Definition CHANGE : string := "vs:change".
Definition SELECTION_LIMIT_REACHED : string := "vs:selectionLimitReached".
Definition RESULTS : string := "vs:results".
Definition DATA_LOADED : string := "vs:dataLoaded".
Definition AJAX_LOADING : string := "vs:ajaxLoading".
Definition AJAX_SUCCESS : string := "vs:ajaxSuccess".
Definition AJAX_ERROR : string := "vs:ajaxError".

(** What [getValue()] returns. *)
Inductive SelValue : Type :=
| Ids (ids : list Value)
| Single (v : Value).

(** The parameter object of a remote query, as the coordinator writes it
    at the one place where [AjaxAdapter.query] is called: the object
    literal [{ term, page }], whose own properties are [term] and [page]
    in this order.  A property that is missing or [undefined] is [None].
    Objects with other properties, or with these in another order, are
    outside the model. *)
Record Params : Type := MkParams { term : option string; page : option Z }.

(** What a throw or a promise rejection carries: [undefined] or [null],
    or a value whose [name] property can be read. *)
Inductive Reason : Type :=
| Nullish (is_null : bool)
| Thing (name : Value) (ident : nat).

(** [{ results, pagination: { more } }] *)
Record Page : Type := MkPage { results : list Item; more : Value }.

Inductive Payload : Type :=
| PData (data : Item)
| PValue (value : SelValue)
| PLimit (maximum : Z) (message : string)
| PDataLoaded (data : list Item)
| PResults (shown : list Item)
| PLoading (params : Params)
| PSuccess (response : Page) (params : Params)
| PError (error : Reason) (params : Params).

Inductive Event : Type :=
| Emit (eventName : string) (payload : Payload)
| Trigger (eventName : string) (payload : Payload)
| NativeChange.

End Events.

(** ** DataAdapter: the item store *)

Module DataAdapter.
Import Js Items Events.

(** An [<option>] of the host [<select>].  [o_selected] is the value that
    the store last assigned to [option.selected] (at first, what the
    caller gives).  The selectedness that the DOM derives from these
    assignments -- a host without [multiple] keeps exactly one option
    selected -- is the environment's and is not modelled; the store never
    reads it back on this path. *)
Record HostOption : Type :=
  MkHostOption { o_value : string; o_text : string; o_selected : bool }.

(** The options the store reads.  [maximumSelected] is
    [language.maximumSelected] when that is a function. *)
Record Options : Type :=
  MkOptions {
    multiple : bool;
    maximumSelectionLength : Z;
    maximumSelected : option (Z -> string)
  }.

Record State : Type :=
  MkState {
    data : list Item;
    selection : list Item;
    host : list HostOption;
    log : list Event
  }.

(** The constructor: [this.data = []; this.selection = []]. *)
Definition create (h : list HostOption) : State := MkState [] [] h [].

Fixpoint _normalizeItem (item : Item) : Item :=
  let normalized :=
    MkItem (if negb (strict_eq (id item) Undefined) then id item else text item)
           (or_else (text item) (Str ""))
           (or_else (disabled item) (Bool false))
           (or_else (selected item) (Bool false))
           (children item) (element item) (_isTag item) (extra item) in
  let normalized :=
    match children item with
    | IsArray l => set_children (IsArray (map _normalizeItem l)) normalized
    | NotArray _ => normalized
    end in
  if truthy (element item) then set_element (element item) normalized
  else normalized.

Definition do_emit (name : string) (p : Payload) (st : State) : State :=
  MkState (data st) (selection st) (host st) (log st ++ [Emit name p]).

Definition do_trigger (name : string) (p : Payload) (st : State) : State :=
  MkState (data st) (selection st) (host st) (log st ++ [Trigger name p]).

Definition setData (d : list Item) (st : State) : State :=
  let st := MkState (map _normalizeItem d) (selection st) (host st) (log st) in
  do_emit DATA_LOADED (PDataLoaded (data st)) st.

Definition query (st : State) : list Item := data st.

Definition current (st : State) : list Item := selection st.

Definition getValue (o : Options) (st : State) : SelValue :=
  if multiple o then Ids (map id (selection st))
  else match selection st with
       | it :: _ => Single (id it)
       | [] => Single Null
       end.

(** [option.value || option.text] *)
Definition option_key (h : HostOption) : string :=
  if negb (String.eqb (o_value h) "") then o_value h else o_text h.

(** [_updateElement()]: the assignments to [option.selected], option by
    option, and the native change event. *)
Definition _updateElement (st : State) : State :=
  let selectedIds := map id (selection st) in
  let sync h :=
    MkHostOption (o_value h) (o_text h)
                 (existsb (fun i => strict_eq i (Str (option_key h))) selectedIds) in
  MkState (data st) (selection st) (map sync (host st)) (log st ++ [NativeChange]).

Definition limit_message (o : Options) : string :=
  match maximumSelected o with
  | Some f => f (maximumSelectionLength o)
  | None =>
      ("You can only select " ++ string_of_Z (maximumSelectionLength o) ++ " items")%string
  end.

Definition announce_select (o : Options) (d : Item) (st : State) : State :=
  let st := _updateElement st in
  let st := do_emit SELECT (PData d) st in
  let st := do_emit CHANGE (PValue (getValue o st)) st in
  let st := do_trigger SELECT (PData d) st in
  do_trigger CHANGE (PValue (getValue o st)) st.

Definition select (o : Options) (d : Item) (st : State) : bool * State :=
  if negb (multiple o) then
    (true, announce_select o d (MkState (data st) [d] (host st) (log st)))
  else
    let exists_ := existsb (fun item => strict_eq (id item) (id d)) (selection st) in
    if negb exists_ then
      if (0 <? maximumSelectionLength o)
         && (maximumSelectionLength o <=? Z.of_nat (length (selection st)))
      then
        let p := PLimit (maximumSelectionLength o) (limit_message o) in
        (false, do_trigger SELECTION_LIMIT_REACHED p
                  (do_emit SELECTION_LIMIT_REACHED p st))
      else
        (true, announce_select o d
                 (MkState (data st) (selection st ++ [d]) (host st) (log st)))
    else (false, st).

Definition unselect (o : Options) (d : Item) (st : State) : State :=
  let kept := List.filter (fun item => negb (strict_eq (id item) (id d))) (selection st) in
  let st := MkState (data st) kept (host st) (log st) in
  let st := _updateElement st in
  let st := do_emit UNSELECT (PData d) st in
  let st := do_emit CHANGE (PValue (getValue o st)) st in
  let st := do_trigger UNSELECT (PData d) st in
  do_trigger CHANGE (PValue (getValue o st)) st.

Definition clear (st : State) : State :=
  _updateElement (MkState (data st) [] (host st) (log st)).

(** A call made on the store. *)
Inductive Call : Type :=
| CallSelect (d : Item)
| CallUnselect (d : Item).

Definition step (o : Options) (st : State) (c : Call) : State :=
  match c with
  | CallSelect d => snd (select o d st)
  | CallUnselect d => unselect o d st
  end.

Definition run (o : Options) (calls : list Call) (st : State) : State :=
  fold_left (step o) calls st.

End DataAdapter.

(** ** SearchManager: local filtering *)

Module SearchManager.
Import Js Items.

(** [this.matcher]: the caller's matcher or the default one, a predicate
    on a term and an item. *)
Definition Matcher : Type := string -> Item -> bool.

(** One turn of the [forEach] of [search]. *)
Definition visit (matcher : Matcher) (term : string)
    (results : list Item) (item : Item) : list Item :=
  match children item with
  | IsArray kids =>
      let filteredChildren := List.filter (matcher term) kids in
      if (0 <? length filteredChildren)%nat
      then results ++ [set_children (IsArray filteredChildren) item]
      else results
  | NotArray _ =>
      if matcher term item then results ++ [item] else results
  end.

Definition search (matcher : Matcher) (items : list Item) (term : string)
    : list Item :=
  if blank term then items
  else fold_left (visit matcher term) items [].

End SearchManager.

(** ** ResultsList: the rendered list and its highlight *)

Module ResultsList.
Import Js Items.

Record State : Type :=
  MkState {
    results : list Item;
    flatResults : list Item;
    highlightedIndex : Z
  }.

Definition create : State := MkState [] [] (-1).

(** The entries that get a [.vs-result] element, in document order. *)
Definition flatten (rs : list Item) : list Item :=
  fold_left
    (fun flat item =>
       match children item with
       | IsArray kids => flat ++ kids
       | NotArray _ => flat ++ [item]
       end) rs [].

(** [update(results)], on a rendered container. *)
Definition update (rs : list Item) (st : State) : State :=
  MkState rs (flatten rs) (-1).

(** [highlight(index)]: out of range is ignored; the container holds one
    [.vs-result] element per entry of [flatResults]. *)
Definition highlight (index : Z) (st : State) : State :=
  let totalItems := Z.of_nat (length (flatResults st)) in
  if (index <? 0) || (totalItems <=? index) then st
  else MkState (results st) (flatResults st) index.

Definition getHighlighted (st : State) : option Item :=
  if (0 <=? highlightedIndex st)
     && (highlightedIndex st <? Z.of_nat (length (flatResults st)))
  then nth_error (flatResults st) (Z.to_nat (highlightedIndex st))
  else None.

End ResultsList.

(** ** KeyboardManager: moving the highlight *)

Module KeyboardManager.
Import Js Items.

Definition _countTotalItems (items : list Item) : Z :=
  fold_left
    (fun count item =>
       match children item with
       | IsArray kids => count + Z.of_nat (length kids)
       | NotArray _ => count + 1
       end) items 0.

Definition _getFlatRenderedItems (items : list Item) : list Item :=
  fold_left
    (fun flat item =>
       match children item with
       | IsArray kids => flat ++ kids
       | NotArray _ => flat ++ [item]
       end) items [].

(** [renderedItems[i]?.disabled], as a condition. *)
Definition disabled_at (renderedItems : list Item) (i : Z) : bool :=
  if i <? 0 then false
  else match nth_error renderedItems (Z.to_nat i) with
       | Some it => truthy (disabled it)
       | None => false
       end.

(** The wrap-around written twice in [_navigate]. *)
Definition wrap (totalResults newIndex : Z) : Z :=
  if newIndex <? 0 then totalResults - 1
  else if totalResults <=? newIndex then 0
  else newIndex.

(** How the [while] loop of [_navigate] ends. *)
Inductive LoopEnd : Type :=
| Returned
| Exited (newIndex : Z).

(** The [while] loop; [fuel] bounds the number of times its condition is
    evaluated, and [None] means that the bound was not enough. *)
Fixpoint skip_disabled (fuel : nat) (renderedItems : list Item)
    (totalResults direction currentIndex newIndex : Z) : option LoopEnd :=
  match fuel with
  | O => None
  | S fuel' =>
      if disabled_at renderedItems newIndex then
        let newIndex := wrap totalResults (newIndex + direction) in
        if newIndex =? currentIndex then Some Returned
        else skip_disabled fuel' renderedItems totalResults direction
                           currentIndex newIndex
      else Some (Exited newIndex)
  end.

Definition _navigate (fuel : nat) (direction : Z) (rl : ResultsList.State)
    : option ResultsList.State :=
  let currentIndex := ResultsList.highlightedIndex rl in
  let totalResults := _countTotalItems (ResultsList.results rl) in
  if totalResults =? 0 then Some rl
  else
    let newIndex := wrap totalResults (currentIndex + direction) in
    let renderedItems := _getFlatRenderedItems (ResultsList.results rl) in
    match skip_disabled fuel renderedItems totalResults direction
                        currentIndex newIndex with
    | None => None
    | Some Returned => Some rl
    | Some (Exited newIndex) => Some (ResultsList.highlight newIndex rl)
    end.

End KeyboardManager.

(** ** AjaxAdapter: the remote source

    The transport is the environment: [query] hands it a request and keeps
    the handle; the way the transport's promise settles is an input of
    [settle], which runs the [then] and [catch] handlers of [query]. *)

Module AjaxAdapter.
Import Js Items Events.

(** What [processResults] returns: [undefined]/[null], or an object whose
    [results] is an array or not, and whose [pagination] is an object
    with a [more] property or is falsy. *)
Inductive Processed : Type :=
| ProcessedNullish
| ProcessedObject (results : option (list Item)) (pagination : option Value).

(** A key of the cache: the text that [JSON.stringify] returns. *)
Definition CacheKey : Type := string.

(** The promise that the transport returned: its handle, and whether it
    has an [abort] method (the default transport adds one; a caller's
    transport may not). *)
Record Request : Type := MkRequest { handle : nat; has_abort : bool }.

Record State : Type :=
  MkState {
    currentRequest : option Request;
    cache : gmap CacheKey Page;
    nextRequest : nat;
    aborted : list nat;
    log : list Event
  }.

Definition create : State := MkState None ∅ 0 [] [].

Fixpoint _normalizeItem (item : Item) : Item :=
  let normalized :=
    MkItem (if negb (strict_eq (id item) Undefined) then id item else text item)
           (or_else (text item) (Str ""))
           (or_else (disabled item) (Bool false))
           (or_else (selected item) (Bool false))
           (children item) (element item) (_isTag item) (extra item) in
  match children item with
  | IsArray l => set_children (IsArray (map _normalizeItem l)) normalized
  | NotArray _ => normalized
  end.

Definition quotation_mark : ascii := ascii_of_nat 34.
Definition reverse_solidus : ascii := ascii_of_nat 92.

(** A hexadecimal digit, in lower case. *)
Definition hex_digit (n : nat) : ascii :=
  ascii_of_nat (if (n <? 10)%nat then 48 + n else 87 + n).

(** The code units that [JSON.stringify] writes for one code unit of a
    string (QuoteJSONString, for code units up to U+00FF). *)
Definition json_code_unit (c : ascii) : string :=
  let n := nat_of_ascii c in
  if (n =? 34)%nat then String reverse_solidus (String quotation_mark "")
  else if (n =? 92)%nat then String reverse_solidus (String reverse_solidus "")
  else if (n =? 8)%nat then String reverse_solidus "b"
  else if (n =? 12)%nat then String reverse_solidus "f"
  else if (n =? 10)%nat then String reverse_solidus "n"
  else if (n =? 13)%nat then String reverse_solidus "r"
  else if (n =? 9)%nat then String reverse_solidus "t"
  else if (n <? 32)%nat
       then String reverse_solidus
              ("u00" ++ String (hex_digit (n / 16))
                          (String (hex_digit (n mod 16)) ""))
       else String c "".

Fixpoint json_code_units (s : string) : string :=
  match s with
  | EmptyString => EmptyString
  | String c rest => (json_code_unit c ++ json_code_units rest)%string
  end.

(** [JSON.stringify(s)] for a string [s]. *)
Definition json_string (s : string) : string :=
  String quotation_mark (json_code_units s ++ String quotation_mark "").

(** [JSON.stringify(params)]: the properties that are defined, in the
    order of the object, a string quoted and a number in decimal. *)
Definition JSON_stringify (params : Params) : string :=
  let members :=
    match term params with
    | Some t => [(json_string "term" ++ ":" ++ json_string t)%string]
    | None => []
    end
    ++ match page params with
       | Some p => [(json_string "page" ++ ":" ++ string_of_Z p)%string]
       | None => []
       end in
  ("{" ++ String.concat "," members ++ "}")%string.

Definition _getCacheKey (params : Params) : CacheKey := JSON_stringify params.

Definition set_currentRequest (r : option Request) (st : State) : State :=
  MkState r (cache st) (nextRequest st) (aborted st) (log st).

Definition announce (name : string) (p : Payload) (st : State) : State :=
  MkState (currentRequest st) (cache st) (nextRequest st) (aborted st)
          (log st ++ [Emit name p; Trigger name p]).

(** [{ results: [], pagination: { more: false } }] *)
Definition empty_page : Page := MkPage [] (Bool false).

(** The TypeError of reading a property of [undefined] or [null]. *)
Definition type_error : Reason := Thing (Str "TypeError") 0.

Section WithTransport.

(** [Raw] is what the transport resolves with, [Req] what it is given. *)
Context {Raw Req : Type}.

(** The [ajax] option after the defaults have been filled in. *)
Record Config : Type :=
  MkConfig {
    cache_enabled : bool;
    data : string -> Z -> Req;
    processResults : Raw -> Params -> Reason + Processed
  }.

(** What [query] does straight away: it returns a promise that is
    resolved from the cache, or the promise of a request handed to the
    transport, or it throws. *)
Inductive Started : Type :=
| FromCache (p : Page)
| InFlight (request : nat) (sent : Req)
| Threw (r : Reason).

(** The call up to [return request.then(...)]; [abortable] says whether
    the promise that the transport returns for this call has an [abort]
    method.  Calling [abort] on a pending promise that has none throws. *)
Definition query (cfg : Config) (params : Params) (abortable : bool)
    (st : State) : Started * State :=
  let term := default ""%string (Events.term params) in
  let page := default 1 (Events.page params) in
  let cacheKey := _getCacheKey params in
  match (if cache_enabled cfg then cache st !! cacheKey else None) with
  | Some hit => (FromCache hit, st)
  | None =>
      match currentRequest st with
      | Some (MkRequest _ false) => (Threw type_error, st)
      | previous =>
          let st :=
            match previous with
            | Some r => MkState (currentRequest st) (cache st) (nextRequest st)
                                (aborted st ++ [handle r]) (log st)
            | None => st
            end in
          let st := announce AJAX_LOADING (PLoading params) st in
          let requestParams := data cfg term page in
          let request := nextRequest st in
          (InFlight request requestParams,
           MkState (Some (MkRequest request abortable)) (cache st) (S request)
                   (aborted st) (log st))
      end
  end.

(** The [then] handler: a page, or what it threw. *)
Definition on_fulfilled (cfg : Config) (params : Params) (response : Raw)
    (st : State) : State * (Reason + Page) :=
  let st := set_currentRequest None st in
  match processResults cfg response params with
  | inl thrown => (st, inl thrown)
  | inr ProcessedNullish => (st, inl type_error)
  | inr (ProcessedObject rs pagination) =>
      let normalizedResults :=
        MkPage (match rs with
                | Some l => map _normalizeItem l
                | None => []
                end)
               (match pagination with
                | Some m => m
                | None => Bool false
                end) in
      let st :=
        if cache_enabled cfg
        then MkState (currentRequest st)
                     (<[_getCacheKey params := normalizedResults]> (cache st))
                     (nextRequest st) (aborted st) (log st)
        else st in
      (announce AJAX_SUCCESS (PSuccess normalizedResults params) st,
       inr normalizedResults)
  end.

(** The [catch] handler: reading [error.name] throws when the error is
    [undefined] or [null]. *)
Definition on_rejected (params : Params) (error : Reason) (st : State)
    : State * (Reason + Page) :=
  let st := set_currentRequest None st in
  match error with
  | Nullish _ => (st, inl type_error)
  | Thing name _ =>
      let st :=
        if negb (strict_eq name (Str "AbortError"))
        then announce AJAX_ERROR (PError error params) st
        else st in
      (st, inr empty_page)
  end.

(** How the promise returned by [query] settles. *)
Inductive Settled : Type :=
| Resolved (p : Page)
| RejectedWith (r : Reason).

Definition settled_of (r : Reason + Page) : Settled :=
  match r with
  | inl e => RejectedWith e
  | inr p => Resolved p
  end.

(** [request.then(...).catch(...)] once the transport has settled. *)
Definition settle (cfg : Config) (params : Params) (outcome : Raw + Reason)
    (st : State) : State * Settled :=
  match outcome with
  | inl response =>
      match on_fulfilled cfg params response st with
      | (st, inr p) => (st, Resolved p)
      | (st, inl thrown) =>
          let '(st, r) := on_rejected params thrown st in (st, settled_of r)
      end
  | inr error =>
      let '(st, r) := on_rejected params error st in (st, settled_of r)
  end.

End WithTransport.

Arguments Config : clear implicits.

End AjaxAdapter.

(** ** ResultsAdapter: the query coordinator, remote mode

    The remote path creates item objects and never writes to one
    afterwards, so arrays hold items by value.  [ajaxAdapter.query] is the
    environment: every call is recorded in [queries], and the settlement
    of its promise is the input of [on_resolved] and [on_rejected], the
    [then] and [catch] handlers, which run with the closure of the call
    that installed them. *)

Module ResultsAdapter.
Import Js Items Events.

Record State : Type :=
  MkState {
    currentSearchTerm : string;
    currentPage : Z;
    hasMore : bool;
    isLoadingMore : bool;
    accumulatedResults : list Item;
    currentSearchToken : option nat;
    _loadMoreTimeout : option nat;
    symbols : nat;
    timers : nat;
    queries : list Params;
    results : ResultsList.State;
    dataAdapter : DataAdapter.State
  }.

(** The constructor, bound to a store. *)
Definition create (da : DataAdapter.State) : State :=
  MkState "" 1 false false [] None None 0%nat 1%nat [] ResultsList.create da.

(** What the handlers of one [_updateWithAjax] call captured. *)
Record Closure : Type := MkClosure { searchToken : nat; append : bool }.

(** The store's data, the part of the store the coordinator writes. *)
Definition backing_data (st : State) : list Item :=
  DataAdapter.data (dataAdapter st).

(** The increment that [_getFlatIndexForGroupChild] applies for an entry;
    [None] stands for NaN. *)
Definition width (it : Item) : option Z :=
  match children it with
  | IsArray l => Some (Z.of_nat (length l))
  | NotArray v =>
      if truthy v then
        match v with
        | Str s => Some (Z.of_nat (String.length s))
        | _ => None
        end
      else Some 1
  end.

Fixpoint _getFlatIndexForGroupChild (rs : list Item) (groupIndex : nat)
    (childIndex : Z) : option Z :=
  match groupIndex, rs with
  | S g, it :: rest =>
      match width it, _getFlatIndexForGroupChild rest g childIndex with
      | Some w, Some f => Some (w + f)
      | _, _ => None
      end
  | _, _ => Some childIndex
  end.

Fixpoint first_enabled (kids : list Item) (j : Z) : option Z :=
  match kids with
  | [] => None
  | k :: rest =>
      if negb (truthy (disabled k)) then Some j else first_enabled rest (j + 1)
  end.

Fixpoint autoHighlight_from (all rest : list Item) (i : nat)
    (rl : ResultsList.State) : ResultsList.State :=
  match rest with
  | [] => rl
  | item :: rest' =>
      match children item with
      | IsArray kids =>
          match first_enabled kids 0 with
          | Some j =>
              match _getFlatIndexForGroupChild all i j with
              | Some flatIndex => ResultsList.highlight flatIndex rl
              | None => rl
              end
          | None => autoHighlight_from all rest' (S i) rl
          end
      | NotArray _ =>
          if negb (truthy (disabled item))
          then ResultsList.highlight (Z.of_nat i) rl
          else autoHighlight_from all rest' (S i) rl
      end
  end.

Definition _autoHighlightFirst (rs : list Item) (rl : ResultsList.State)
    : ResultsList.State :=
  autoHighlight_from rs rs 0 rl.

(** [_updateWithAjax(term, append)] up to the call of [ajaxAdapter.query]:
    the new state and the closure of the handlers. *)
Definition _updateWithAjax (term : string) (append : bool) (st : State)
    : State * Closure :=
  let changed := negb (String.eqb term (currentSearchTerm st)) in
  let currentPage := if changed then 1 else currentPage st in
  let accumulatedResults := if changed then [] else accumulatedResults st in
  let append := if changed then false else append in
  let searchToken := symbols st in
  (MkState term currentPage (hasMore st) (isLoadingMore st) accumulatedResults
           (Some searchToken) (_loadMoreTimeout st) (S (symbols st)) (timers st)
           (queries st ++ [MkParams (Some term) (Some currentPage)])
           (results st) (dataAdapter st),
   MkClosure searchToken append).

(** [this.currentSearchToken !== searchToken] *)
Definition superseded (k : Closure) (st : State) : bool :=
  match currentSearchToken st with
  | Some token => negb (Nat.eqb token (searchToken k))
  | None => true
  end.

(** The [then] handler. *)
Definition on_resolved (k : Closure) (response : Page) (st : State) : State :=
  if superseded k st then st
  else
    let hasMore := truthy (more response) in
    let accumulatedResults :=
      if append k && (1 <? currentPage st)
      then accumulatedResults st ++ Events.results response
      else Events.results response in
    let da := DataAdapter.setData accumulatedResults (dataAdapter st) in
    let rl := ResultsList.update accumulatedResults (results st) in
    let rl :=
      if (0 <? length accumulatedResults)%nat && negb (append k)
      then _autoHighlightFirst accumulatedResults rl
      else rl in
    let da := DataAdapter.do_emit RESULTS (PResults accumulatedResults) da in
    MkState (currentSearchTerm st) (currentPage st) hasMore (isLoadingMore st)
            accumulatedResults (currentSearchToken st) (_loadMoreTimeout st)
            (symbols st) (timers st) (queries st) rl da.

(** The [catch] handler. *)
Definition on_rejected (k : Closure) (st : State) : State :=
  if superseded k st then st
  else
    MkState (currentSearchTerm st) (currentPage st) (hasMore st)
            (isLoadingMore st) (accumulatedResults st) (currentSearchToken st)
            (_loadMoreTimeout st) (symbols st) (timers st) (queries st)
            (ResultsList.update [] (results st))
            (DataAdapter.do_emit RESULTS (PResults []) (dataAdapter st)).

(** [update(term)] with a remote source configured. *)
Definition update (term : string) (st : State) : State * Closure :=
  _updateWithAjax term false st.

(** [loadMore()]; [None] when the guard returns early. *)
Definition loadMore (st : State) : State * option Closure :=
  if negb (hasMore st) || isLoadingMore st then (st, None)
  else
    let st :=
      MkState (currentSearchTerm st) (currentPage st + 1) (hasMore st) true
              (accumulatedResults st) (currentSearchToken st)
              (_loadMoreTimeout st) (symbols st) (timers st) (queries st)
              (results st) (dataAdapter st) in
    let '(st, k) := _updateWithAjax (currentSearchTerm st) true st in
    (MkState (currentSearchTerm st) (currentPage st) (hasMore st)
             (isLoadingMore st) (accumulatedResults st) (currentSearchToken st)
             (Some (timers st)) (symbols st) (S (timers st)) (queries st)
             (results st) (dataAdapter st),
     Some k).

(** The callback of the 500 ms timer of [loadMore]; a timer that was
    cleared does not fire. *)
Definition loadMoreTimeout_fires (timer : nat) (st : State) : State :=
  if decide (_loadMoreTimeout st = Some timer) then
    MkState (currentSearchTerm st) (currentPage st) (hasMore st) false
            (accumulatedResults st) (currentSearchToken st) None
            (symbols st) (timers st) (queries st) (results st) (dataAdapter st)
  else st.

(** [_handleScroll()] with the geometry of the results container. *)
Definition _handleScroll (scrollTop scrollHeight clientHeight : Z) (st : State)
    : State * option Closure :=
  if negb (hasMore st) || isLoadingMore st then (st, None)
  else
    let threshold := 50 in
    if scrollHeight - threshold <=? scrollTop + clientHeight
    then loadMore st
    else (st, None).

End ResultsAdapter.

(** ** ResultsAdapter: the query coordinator, local mode

    [_updateWithLocalData] writes [tag._isTag] after it has handed the tag
    to the caller's [insertTag], so here objects live in a store and
    arrays hold references.  A reference that the store does not hold
    reads as [{}]. *)

Module ResultsAdapterLocal.
Import Js Items Events.

Definition deref (σ : gmap nat Item) (r : nat) : Item :=
  default empty_object (σ !! r).

(** [new_object σ it]: a fresh reference and the store that holds [it]
    there. *)
Definition new_object (σ : gmap nat Item) (it : Item) : nat * gmap nat Item :=
  let r := fresh (dom σ) in (r, <[r := it]> σ).

(** The options read on this path.  [createTag] gets the [term] of its
    parameter object; both callbacks may read and write the store, and
    [insertTag] returns what the array it was given holds afterwards. *)
Record Options : Type :=
  MkOptions {
    tags : bool;
    matcher : SearchManager.Matcher;
    createTag : string -> gmap nat Item -> option nat * gmap nat Item;
    insertTag : list nat -> nat -> gmap nat Item -> list nat * gmap nat Item
  }.

(** [DEFAULTS.createTag] *)
Definition default_createTag (term : string) (σ : gmap nat Item)
    : option nat * gmap nat Item :=
  let term := trim term in
  if negb (truthy (Str term)) then (None, σ)
  else let '(r, σ) := new_object σ (plain (Str term) (Str term)) in (Some r, σ).

(** [DEFAULTS.insertTag]: [data.unshift(tag)] *)
Definition default_insertTag (data : list nat) (tag : nat) (σ : gmap nat Item)
    : list nat * gmap nat Item :=
  (tag :: data, σ).

Record State : Type :=
  MkState {
    store : gmap nat Item;
    data : list nat;
    currentSearchTerm : string;
    shown : list nat;
    results : ResultsList.State;
    log : list Event
  }.

(** One turn of the [forEach] of [SearchManager.search], on references:
    an item that matches is pushed as it is, a group is pushed as a new
    object. *)
Definition visit (matcher : SearchManager.Matcher) (term : string)
    (acc : list nat * gmap nat Item) (r : nat) : list nat * gmap nat Item :=
  let '(found, σ) := acc in
  let item := deref σ r in
  match children item with
  | IsArray kids =>
      let filteredChildren := List.filter (matcher term) kids in
      if (0 <? length filteredChildren)%nat then
        let '(g, σ) := new_object σ (set_children (IsArray filteredChildren) item) in
        (found ++ [g], σ)
      else (found, σ)
  | NotArray _ =>
      if matcher term item then (found ++ [r], σ) else (found, σ)
  end.

Definition search (matcher : SearchManager.Matcher) (σ : gmap nat Item)
    (items : list nat) (term : string) : list nat * gmap nat Item :=
  if blank term then (items, σ)
  else fold_left (visit matcher term) items ([], σ).

(** [String(item.id).toLowerCase() === String(tag.id).toLowerCase()] *)
Definition same_id (a b : Item) : bool :=
  String.eqb (toLowerCase (String_ (id a))) (toLowerCase (String_ (id b))).

Definition tagExists (σ : gmap nat Item) (filteredResults : list nat) (tag : nat)
    : bool :=
  existsb (fun r => same_id (deref σ r) (deref σ tag)) filteredResults.

(** The tagging step of [_updateWithLocalData]. *)
Definition add_tag (o : Options) (term : string)
    (filteredResults : list nat) (σ : gmap nat Item)
    : list nat * gmap nat Item :=
  if tags o && truthy (Str term) && truthy (Str (trim term)) then
    match createTag o (trim term) σ with
    | (Some tag, σ) =>
        if negb (tagExists σ filteredResults tag) then
          let '(filteredResults, σ) := insertTag o filteredResults tag σ in
          (filteredResults, <[tag := set_isTag (Bool true) (deref σ tag)]> σ)
        else (filteredResults, σ)
    | (None, σ) => (filteredResults, σ)
    end
  else (filteredResults, σ).

Definition _updateWithLocalData (o : Options) (term : string) (st : State)
    : State :=
  let allData := data st in
  let '(filteredResults, σ) := search (matcher o) (store st) allData term in
  let '(filteredResults, σ) := add_tag o term filteredResults σ in
  let view := map (deref σ) filteredResults in
  let rl := ResultsList.update view (results st) in
  let rl :=
    if (0 <? length view)%nat
    then ResultsAdapter._autoHighlightFirst view rl
    else rl in
  MkState σ (data st) term filteredResults rl
          (log st ++ [Emit RESULTS (PResults view)]).

(** What the list presenter was given: the entries of [shown], read from
    the store. *)
Definition displayed (st : State) : list Item :=
  map (deref (store st)) (shown st).

End ResultsAdapterLocal.

(** ** DataAdapter: loading from the host element

    The children of the host [<select>] in document order: options, and
    optgroups with their options.  [opt_value] and [opt_text] are what
    the DOM gives for [option.value] and [option.text], both strings. *)

Module HostElement.
Import Js Items Events.

Record OptionElement : Type :=
  MkOption {
    opt_value : string;
    opt_text : string;
    opt_disabled : bool;
    opt_selected : bool;
    opt_ident : nat
  }.

Inductive Node : Type :=
| Standalone (o : OptionElement)
| Optgroup (label : string) (options : list OptionElement).

(** [querySelectorAll("optgroup")], each with its options. *)
Definition optgroups (nodes : list Node) : list (string * list OptionElement) :=
  flat_map (fun n => match n with
                     | Optgroup label os => [(label, os)]
                     | Standalone _ => []
                     end) nodes.

(** The options whose parent is not an optgroup. *)
Definition standalone (nodes : list Node) : list OptionElement :=
  flat_map (fun n => match n with
                     | Standalone o => [o]
                     | Optgroup _ _ => []
                     end) nodes.

(** [querySelectorAll("option")] *)
Definition all_options (nodes : list Node) : list OptionElement :=
  flat_map (fun n => match n with
                     | Standalone o => [o]
                     | Optgroup _ os => os
                     end) nodes.

(** [item[key]] for a property kept in [extra]. *)
Definition prop (key : string) (it : Item) : Value :=
  match List.find (fun kv => String.eqb (fst kv) key) (extra it) with
  | Some kv => snd kv
  | None => Undefined
  end.

Definition _normalizeOption (option : OptionElement) : Item :=
  let value := opt_value option in
  let id :=
    if negb (String.eqb value "") then Str value
    else if String.eqb value "" then Str ""
    else Str (opt_text option) in
  MkItem id (Str (opt_text option)) (Bool (opt_disabled option))
         (Bool (opt_selected option)) (NotArray Undefined)
         (Obj (opt_ident option)) Undefined
         [("_isEmptyValue"%string, Bool (String.eqb value ""))].

Definition _isPlaceholder (item : Item) : bool :=
  strict_eq (prop "_isEmptyValue" item) (Bool true)
  || strict_eq (id item) Undefined
  || strict_eq (id item) Null
  || strict_eq (id item) (Str "").

(** The options of a list that are kept, normalized. *)
Definition kept (options : list OptionElement) : list Item :=
  List.filter (fun it => negb (_isPlaceholder it)) (map _normalizeOption options).

(** One turn of [optgroups.forEach]: the next index and the data. *)
Definition load_group (acc : nat * list Item)
    (g : string * list OptionElement) : nat * list Item :=
  let '(index, data) := acc in
  let '(label, options) := g in
  let group :=
    MkItem (Str ("group-" ++ string_of_Z (Z.of_nat index) ++ "-" ++ label))
           (Str label) Undefined Undefined (IsArray (kept options))
           Undefined Undefined [] in
  (S index, if (0 <? length (kept options))%nat then data ++ [group] else data).

Definition loadFromElement (nodes : list Node) (st : DataAdapter.State)
    : DataAdapter.State :=
  let data := snd (fold_left load_group (optgroups nodes) (0%nat, [])) in
  let data := data ++ kept (standalone nodes) in
  DataAdapter.MkState data (DataAdapter.selection st) (DataAdapter.host st)
                      (DataAdapter.log st).

(** [querySelectorAll("option:checked")], normalized. *)
Definition loadInitialSelection (nodes : list Node) (st : DataAdapter.State)
    : DataAdapter.State :=
  let selectedOptions := List.filter opt_selected (all_options nodes) in
  DataAdapter.MkState (DataAdapter.data st)
                      (map _normalizeOption selectedOptions)
                      (DataAdapter.host st) (DataAdapter.log st).

(** [init()]; [optionsData] is the [data] option when it is an array. *)
Definition init (optionsData : option (list Item)) (nodes : list Node)
    (st : DataAdapter.State) : DataAdapter.State :=
  let st :=
    match optionsData with
    | Some d => DataAdapter.setData d st
    | None => loadFromElement nodes st
    end in
  loadInitialSelection nodes st.

End HostElement.

(** ** Finding an item by its id, and the programmatic API

    [_findItemById] is written twice, in ResultsAdapter and in
    VanillaSmartSelect, with the same body. *)

Module ItemLookup.
Import Js Items Events.

(** The first result that [f] gives along a list. *)
Definition find_first {A B : Type} (f : A -> option B) : list A -> option B :=
  fix go (l : list A) : option B :=
    match l with
    | [] => None
    | a :: rest =>
        match f a with
        | Some found => Some found
        | None => go rest
        end
    end.

(** One turn of the loop of [_findItemById]. *)
Fixpoint find_in (idv : Value) (item : Item) : option Item :=
  if String.eqb (String_ (id item)) (String_ idv) then Some item
  else
    match children item with
    | IsArray kids => find_first (find_in idv) kids
    | NotArray _ => None
    end.

Definition _findItemById (items : list Item) (idv : Value) : option Item :=
  find_first (find_in idv) items.

(** An item and, when it is a group, what is below it, top down. *)
Fixpoint nodes_of (item : Item) : list Item :=
  item :: match children item with
          | IsArray kids => flat_map nodes_of kids
          | NotArray _ => []
          end.

Definition nodes (items : list Item) : list Item := flat_map nodes_of items.

(** [String(item.id) === String(id)] *)
Definition has_id (idv : Value) (item : Item) : bool :=
  String.eqb (String_ (id item)) (String_ idv).

End ItemLookup.

(** VanillaSmartSelect: [select(id)], [unselect(id)] and the getter
    [val()], on the store. *)

Module Api.
Import Js Items Events.

Definition select (o : DataAdapter.Options) (idv : Value)
    (st : DataAdapter.State) : DataAdapter.State :=
  let allData := DataAdapter.query st in
  match ItemLookup._findItemById allData idv with
  | Some item =>
      if negb (truthy (disabled item)) then snd (DataAdapter.select o item st)
      else st
  | None => st
  end.

Definition unselect (o : DataAdapter.Options) (idv : Value)
    (st : DataAdapter.State) : DataAdapter.State :=
  if negb (DataAdapter.multiple o) then st
  else
    match List.find (fun i => strict_eq (id i) idv) (DataAdapter.current st) with
    | Some item => DataAdapter.unselect o item st
    | None => st
    end.

Definition val (o : DataAdapter.Options) (st : DataAdapter.State) : SelValue :=
  let current := DataAdapter.current st in
  if DataAdapter.multiple o then Ids (map id current)
  else match current with
       | it :: _ => Single (id it)
       | [] => Single Null
       end.

End Api.

(** ** KeyboardManager: Home and End *)

Module KeyboardManagerEnds.
Import Js Items KeyboardManager.

(** [for (let i = start; i < totalResults; i++)], [n] turns left: the
    first index whose entry is not disabled. *)
Fixpoint scan_up (renderedItems : list Item) (n : nat) (i : Z) : option Z :=
  match n with
  | O => None
  | S n' =>
      if negb (disabled_at renderedItems i) then Some i
      else scan_up renderedItems n' (i + 1)
  end.

(** [for (let i = start; i >= 0; i--)], [n] turns left. *)
Fixpoint scan_down (renderedItems : list Item) (n : nat) (i : Z) : option Z :=
  match n with
  | O => None
  | S n' =>
      if negb (disabled_at renderedItems i) then Some i
      else scan_down renderedItems n' (i - 1)
  end.

Definition _navigateToFirst (rl : ResultsList.State) : ResultsList.State :=
  let renderedItems := _getFlatRenderedItems (ResultsList.results rl) in
  let totalResults := length renderedItems in
  match scan_up renderedItems totalResults 0 with
  | Some i => ResultsList.highlight i rl
  | None => rl
  end.

Definition _navigateToLast (rl : ResultsList.State) : ResultsList.State :=
  let renderedItems := _getFlatRenderedItems (ResultsList.results rl) in
  let totalResults := length renderedItems in
  match scan_down renderedItems totalResults (Z.of_nat totalResults - 1) with
  | Some i => ResultsList.highlight i rl
  | None => rl
  end.

End KeyboardManagerEnds.

(** ** Choosing an entry: the click handler and the Enter key

    The click handler of ResultsAdapter reads the id of the clicked
    element ([data-id], the id of the entry as a string), refuses an
    element rendered as disabled, and selects the item that
    [_findItemById] finds in the store.  Enter selects the entry that
    [getHighlighted] returns; hovering highlights the entry under the
    pointer.  [selectItem] is taken up to its call of
    [dataAdapter.select]. *)

Module Interaction.
Import Js Items Events.

Definition click (o : DataAdapter.Options) (entry : Item)
    (st : DataAdapter.State) : DataAdapter.State :=
  let id := Str (String_ (id entry)) in
  if truthy (disabled entry) then st
  else
    let allResults := DataAdapter.query st in
    match ItemLookup._findItemById allResults id with
    | Some item => snd (DataAdapter.select o item st)
    | None => st
    end.

(** [_selectHighlighted()] *)
Definition enter (o : DataAdapter.Options) (rl : ResultsList.State)
    (st : DataAdapter.State) : DataAdapter.State :=
  match ResultsList.getHighlighted rl with
  | Some highlighted => snd (DataAdapter.select o highlighted st)
  | None => st
  end.

(** The mouseover handler. *)
Definition hover (index : Z) (rl : ResultsList.State) : ResultsList.State :=
  ResultsList.highlight index rl.

End Interaction.

(** ** SearchManager: the default matcher

    [removeDiacritics] replaces every code unit above U+007E by its entry
    in the table of utils/diacritics.js, when it has one; the table is a
    parameter here.  [_defaultMatcher] reads [item.text.toLowerCase()];
    when the text is not a string that call throws, which is [None]. *)

Module DefaultMatcher.
Import Js Items.

Section Table.

(** [diacritics[char]], when it is a non-empty string. *)
Variable diacritics : ascii -> option string.

Fixpoint removeDiacritics (str : string) : string :=
  match str with
  | EmptyString => EmptyString
  | String c rest =>
      let replaced :=
        if (126 <? nat_of_ascii c)%nat then
          match diacritics c with
          | Some plain => plain
          | None => String c EmptyString
          end
        else String c EmptyString in
      (replaced ++ removeDiacritics rest)%string
  end.

(** [text.includes(part)] *)
Fixpoint includes (text part : string) : bool :=
  String.prefix part text
  || match text with
     | EmptyString => false
     | String _ rest => includes rest part
     end.

(** [matchStrategy] is the option, or "contains" when it is falsy. *)
Definition _defaultMatcher (matchStrategy : string) (term : string)
    (item : Item) : option bool :=
  if blank term then Some true
  else if truthy (disabled item) then Some false
  else
    match text item with
    | Str text =>
        let normalizedTerm := removeDiacritics (toLowerCase term) in
        let normalizedText := removeDiacritics (toLowerCase text) in
        let matchStrategy :=
          if negb (String.eqb matchStrategy "") then matchStrategy
          else "contains"%string in
        if String.eqb matchStrategy "startsWith"
        then Some (String.prefix normalizedTerm normalizedText)
        else if String.eqb matchStrategy "exact"
        then Some (String.eqb normalizedText normalizedTerm)
        else Some (includes normalizedText normalizedTerm)
    | _ => None
    end.

End Table.

End DefaultMatcher.

(** ** utils/debounce.js: the wrapper of the search box's query handler

    [setTimeout] gives a new positive timer id and keeps the [later]
    closure, here the arguments it captured, until the timer fires or is
    cleared; [clearTimeout] of a value that is no pending timer does
    nothing.  The wrapped function records the arguments of each call. *)

Module Debounce.

Section Wrapped.

(** The arguments of one call of the debounced function. *)
Variable Args : Type.

(** [immediate] *)
Variable immediate : bool.

Record State : Type :=
  MkState {
    timeout : option nat;            (* [None]: undefined or null *)
    next_timer : nat;
    timers : list (nat * Args);      (* pending [later] closures *)
    calls : list Args                (* the calls of [func] *)
  }.

Definition create : State := MkState None 1 [] [].

Definition clearTimeout (t : option nat) (pending : list (nat * Args))
    : list (nat * Args) :=
  match t with
  | Some id => List.filter (fun p => negb (fst p =? id)%nat) pending
  | None => pending
  end.

(** [debounced(...args)] *)
Definition debounced (args : Args) (st : State) : State :=
  let callNow := immediate && negb (bool_decide (is_Some (timeout st))) in
  let pending := clearTimeout (timeout st) (timers st) in
  let id := next_timer st in
  MkState (Some id) (S id) (pending ++ [(id, args)])
          (if callNow then calls st ++ [args] else calls st).

(** The timer [id] fires: its [later] runs, if it is still pending. *)
Definition fire (id : nat) (st : State) : State :=
  match List.find (fun p => (fst p =? id)%nat) (timers st) with
  | Some (_, args) =>
      MkState None (next_timer st)
              (List.filter (fun p => negb (fst p =? id)%nat) (timers st))
              (if immediate then calls st else calls st ++ [args])
  | None => st
  end.

(** [debounced.cancel()] *)
Definition cancel (st : State) : State :=
  MkState None (next_timer st) (clearTimeout (timeout st) (timers st))
          (calls st).

Inductive Event : Type :=
| Invoke (args : Args)
| Cancel
| Fire (id : nat).

Definition step (st : State) (e : Event) : State :=
  match e with
  | Invoke args => debounced args st
  | Cancel => cancel st
  | Fire id => fire id st
  end.

Definition run (events : list Event) (st : State) : State :=
  fold_left step events st.

(** Calls in a row, with no timer firing in between. *)
Definition invoke_all (burst : list Args) (st : State) : State :=
  fold_left (fun s args => debounced args s) burst st.

(** The wait passes with no further call: every pending timer fires. *)
Definition elapse (st : State) : State :=
  fold_left (fun s p => fire (fst p) s) (timers st) st.

End Wrapped.

Arguments MkState {Args}.
Arguments timeout {Args}.
Arguments next_timer {Args}.
Arguments timers {Args}.
Arguments calls {Args}.
Arguments create {Args}.
Arguments Invoke {Args}.
Arguments Cancel {Args}.
Arguments Fire {Args}.
Arguments debounced {Args}.
Arguments fire {Args}.
Arguments cancel {Args}.
Arguments step {Args}.
Arguments run {Args}.
Arguments invoke_all {Args}.
Arguments elapse {Args}.

End Debounce.

(** ** EventEmitter: the listeners of the internal events

    A handler is a function of the caller, which here records the data
    it is called with and then returns or throws, or the wrapper that
    [once] creates.  Functions are compared by identity: a function of
    the caller by its name, a wrapper by the number of the [once] call
    that created it. *)

Module EventEmitter.
Import Js.

Record Fn : Type := MkFn { fn_name : nat; fn_throws : bool }.

Inductive Handler : Type :=
| User (f : Fn)
| OnceWrapper (closure : nat) (eventName : string) (handler : option Fn).

#[global] Instance Fn_eq_dec : EqDecision Fn.
Proof. solve_decision. Defined.

#[global] Instance Handler_eq_dec : EqDecision Handler.
Proof. solve_decision. Defined.

Record Emitter : Type :=
  MkEmitter {
    _events : gmap string (list Handler);
    closures : nat;                       (* [once] calls so far *)
    called : list (nat * Value);          (* calls of the caller's functions *)
    console : list string                 (* console.error, by event name *)
  }.

Definition create : Emitter := MkEmitter ∅ 0 [] [].

Definition set_events (m : gmap string (list Handler)) (e : Emitter)
    : Emitter :=
  MkEmitter m (closures e) (called e) (console e).

(** [this._events.get(eventName)], or no handlers. *)
Definition handlers_of (eventName : string) (e : Emitter) : list Handler :=
  default [] (_events e !! eventName).

(** [on(eventName, handler)] with a function. *)
Definition register (eventName : string) (h : Handler) (e : Emitter)
    : Emitter :=
  set_events (<[eventName := handlers_of eventName e ++ [h]]> (_events e)) e.

(** [on(eventName, handler)]; a handler that is not a function is [None]
    here, and the TypeError is the result [None]. *)
Definition on (eventName : string) (handler : option Handler) (e : Emitter)
    : option Emitter :=
  match handler with
  | None => None
  | Some h => Some (register eventName h e)
  end.

(** [handlers.indexOf(handler)] and [handlers.splice(index, 1)] *)
Fixpoint remove_first (h : Handler) (handlers : list Handler)
    : list Handler :=
  match handlers with
  | [] => []
  | x :: rest => if decide (x = h) then rest else x :: remove_first h rest
  end.

(** [off(eventName, handler)]; [None] is a falsy handler. *)
Definition off (eventName : string) (handler : option Handler) (e : Emitter)
    : Emitter :=
  match _events e !! eventName with
  | None => e
  | Some handlers =>
      match handler with
      | None => set_events (delete eventName (_events e)) e
      | Some h =>
          let handlers := remove_first h handlers in
          if (length handlers =? 0)%nat
          then set_events (delete eventName (_events e)) e
          else set_events (<[eventName := handlers]> (_events e)) e
      end
  end.

(** [once(eventName, handler)] *)
Definition once (eventName : string) (handler : option Fn) (e : Emitter)
    : Emitter :=
  let onceWrapper := OnceWrapper (closures e) eventName handler in
  register eventName onceWrapper
           (MkEmitter (_events e) (S (closures e)) (called e) (console e)).

Definition invoke (f : Fn) (data : Value) (e : Emitter) : Emitter :=
  MkEmitter (_events e) (closures e) (called e ++ [(fn_name f, data)])
            (console e).

Definition console_error (eventName : string) (e : Emitter) : Emitter :=
  MkEmitter (_events e) (closures e) (called e) (console e ++ [eventName]).

(** One handler called by [emit], inside its try and catch. *)
Definition call (emitted : string) (h : Handler) (data : Value) (e : Emitter)
    : Emitter :=
  match h with
  | User f =>
      let e := invoke f data e in
      if fn_throws f then console_error emitted e else e
  | OnceWrapper _ _ None => console_error emitted e
  | OnceWrapper _ eventName (Some f) =>
      let e := invoke f data e in
      if fn_throws f then console_error emitted e
      else off eventName (Some h) e
  end.

(** [emit(eventName, data)] *)
Definition emit (eventName : string) (data : Value) (e : Emitter)
    : Emitter * bool :=
  match _events e !! eventName with
  | None => (e, false)
  | Some handlers =>
      (fold_left (fun e h => call eventName h data e) handlers e, true)
  end.

Definition removeAllListeners (e : Emitter) : Emitter := set_events ∅ e.

Definition listenerCount (eventName : string) (e : Emitter) : nat :=
  match _events e !! eventName with
  | None => 0
  | Some handlers => length handlers
  end.

(** The calls a program makes on an emitter. *)
Inductive Op : Type :=
| On (eventName : string) (handler : option Fn)
| Once (eventName : string) (handler : option Fn)
| Off (eventName : string) (handler : option Fn)
| Emit (eventName : string) (data : Value)
| RemoveAllListeners.

(** A TypeError of [on] leaves the emitter as it is. *)
Definition exec (e : Emitter) (op : Op) : Emitter :=
  match op with
  | On n h => default e (on n (User <$> h) e)
  | Once n h => once n h e
  | Off n h => off n (User <$> h) e
  | Emit n d => fst (emit n d e)
  | RemoveAllListeners => removeAllListeners e
  end.

Definition run (ops : list Op) (e : Emitter) : Emitter :=
  fold_left exec ops e.

End EventEmitter.

(** ** SearchManager: marking the match in a text *)

Module Highlight.
Import Js DefaultMatcher.

Section Table.
Variable diacritics : ascii -> option string.

(** [text.substring(from)] *)
Definition substring_from (from : nat) (text : string) : string :=
  substring from (String.length text - from) text.

(** [highlight(text, term)], for a text that is a string. *)
Definition highlight (text term : string) : string :=
  if blank term then text
  else
    let normalizedTerm := removeDiacritics diacritics (toLowerCase term) in
    let normalizedText := removeDiacritics diacritics (toLowerCase text) in
    match String.index 0 normalizedTerm normalizedText with
    | None => text
    | Some index =>
        let before := substring 0 index text in
        let matched := substring index (String.length term) text in
        let after := substring_from (index + String.length term) text in
        (before ++ "<mark>" ++ matched ++ "</mark>" ++ after)%string
    end.

End Table.

End Highlight.

(** * Properties *)

(** ** Item normalization *)

Module Normalization.
Import Js Items Events.

(** Induction on an item that reaches the children of a group. *)
Lemma Item_nested_ind (P : Item -> Prop)
    (Hleaf : forall i t d s v e g x, P (MkItem i t d s (NotArray v) e g x))
    (Hgroup : forall i t d s l e g x,
        Forall P l -> P (MkItem i t d s (IsArray l) e g x)) :
  forall it, P it.
Proof.
  fix IH 1. intros [i t d s [v | l] e g x].
  - apply Hleaf.
  - apply Hgroup. induction l as [| a l IHl]; constructor.
    + apply IH.
    + exact IHl.
Qed.

Lemma or_else_twice (a b : Value) : or_else (or_else a b) b = or_else a b.
Proof.
  unfold or_else. destruct (truthy a) eqn:Ha.
  - now rewrite Ha.
  - now destruct (truthy b).
Qed.

(** The two copies of [_normalizeItem] compute the same item: the extra
    [element] step of the store's copy rewrites a property with its own
    value. *)
Lemma normalizeItem_agree (it : Item) :
  DataAdapter._normalizeItem it = AjaxAdapter._normalizeItem it.
Proof.
  induction it using Item_nested_ind; cbn.
  - now destruct (truthy e).
  - assert (Hmap : map DataAdapter._normalizeItem l
                   = map AjaxAdapter._normalizeItem l).
    { induction H as [| a l Ha _ IHl]; cbn; [reflexivity |].
      now rewrite Ha, IHl. }
    rewrite Hmap. now destruct (truthy e).
Qed.

(** The id that normalization computes, when it is applied twice. *)
Lemma id_twice (i t : Value) :
  negb (strict_eq i Undefined) || negb (strict_eq t Undefined) = true ->
  let i' := if negb (strict_eq i Undefined) then i else t in
  (if negb (strict_eq i' Undefined) then i' else or_else t (Str "")) = i'.
Proof.
  intros H. cbn zeta.
  destruct (negb (strict_eq i Undefined)) eqn:Hi.
  - now rewrite Hi.
  - cbn in H. now rewrite H.
Qed.

Lemma normalize_idempotent_if (it : Item) :
  identified it = true ->
  AjaxAdapter._normalizeItem (AjaxAdapter._normalizeItem it)
  = AjaxAdapter._normalizeItem it.
Proof.
  induction it using Item_nested_ind; cbn; intros Hid;
    apply andb_prop in Hid as [Hid Hkids].
  - f_equal; try apply or_else_twice. now apply id_twice.
  - unfold set_children; cbn. f_equal; try apply or_else_twice.
    + now apply id_twice.
    + f_equal. induction H as [| a l Ha _ IHl]; cbn; [reflexivity |].
      cbn in Hkids. apply andb_prop in Hkids as [Hka Hkl].
      now rewrite Ha, IHl.
Qed.

Lemma normalize_idempotent_only_if (it : Item) :
  AjaxAdapter._normalizeItem (AjaxAdapter._normalizeItem it)
  = AjaxAdapter._normalizeItem it ->
  identified it = true.
Proof.
  induction it using Item_nested_ind; cbn; intros Heq.
  - rewrite andb_true_r.
    injection Heq as Hi _ _ _.
    destruct i; cbn in *; try reflexivity.
    destruct t; cbn in *; try reflexivity. discriminate.
  - unfold set_children in Heq; cbn in Heq.
    injection Heq as Hi _ _ _ Hl.
    apply andb_true_intro; split.
    + destruct i; cbn in *; try reflexivity.
      destruct t; cbn in *; try reflexivity. discriminate.
    + induction H as [| a l Ha _ IHl]; cbn in *; [reflexivity |].
      injection Hl as Hla Hll.
      apply andb_true_intro; split; auto.
Qed.

(** C10, as the code has it: normalizing a normalized item changes
    nothing when the id or the text of the item, and of every child of a
    group at every depth, is defined.  This holds for each of the two
    copies of the function and for the store's copy applied after the
    remote source's, so [setData] stores the pages of the remote source
    unchanged. *)
Theorem normalize_idempotent (it : Item) (H : identified it = true) :
  AjaxAdapter._normalizeItem (AjaxAdapter._normalizeItem it)
  = AjaxAdapter._normalizeItem it
  /\ DataAdapter._normalizeItem (DataAdapter._normalizeItem it)
     = DataAdapter._normalizeItem it
  /\ DataAdapter._normalizeItem (AjaxAdapter._normalizeItem it)
     = AjaxAdapter._normalizeItem it
  /\ forall st,
       DataAdapter.data
         (DataAdapter.setData [AjaxAdapter._normalizeItem it] st)
       = [AjaxAdapter._normalizeItem it].
Proof.
  pose proof (normalize_idempotent_if it H) as Hidem.
  repeat split.
  - exact Hidem.
  - now rewrite !normalizeItem_agree.
  - now rewrite normalizeItem_agree.
  - intros st. cbn. now rewrite normalizeItem_agree, Hidem.
Qed.

(** A whole page of the remote source is stored as it is. *)
Lemma setData_keeps_remote_page (raw : list Item) (st : DataAdapter.State) :
  forallb identified raw = true ->
  DataAdapter.data
    (DataAdapter.setData (map AjaxAdapter._normalizeItem raw) st)
  = map AjaxAdapter._normalizeItem raw.
Proof.
  intros Hraw. cbn. rewrite map_map.
  apply map_ext_in. intros it Hin.
  rewrite forallb_forall in Hraw.
  rewrite normalizeItem_agree. apply normalize_idempotent_if. now apply Hraw.
Qed.

(** [{ id: 7, text: "x" }] in a group is a fixed point after one pass. *)
Lemma normalize_idempotent_witness :
  let it := group (Str "g") [plain (Num 7) (Str "x")] in
  AjaxAdapter._normalizeItem (AjaxAdapter._normalizeItem it)
  = AjaxAdapter._normalizeItem it
  /\ DataAdapter._normalizeItem (DataAdapter._normalizeItem it)
     = DataAdapter._normalizeItem it
  /\ DataAdapter._normalizeItem (AjaxAdapter._normalizeItem it)
     = AjaxAdapter._normalizeItem it
  /\ forall st,
       DataAdapter.data
         (DataAdapter.setData [AjaxAdapter._normalizeItem it] st)
       = [AjaxAdapter._normalizeItem it].
Proof.
  exact (normalize_idempotent (group (Str "g") [plain (Num 7) (Str "x")])
                              eq_refl).
Defined.

(** C10 as stated fails on [{}]: the first pass leaves the id undefined
    and sets the text to the empty string, the second pass takes the id
    from that text. *)
Lemma normalize_twice_differs :
  id (AjaxAdapter._normalizeItem empty_object) = Undefined
  /\ id (DataAdapter._normalizeItem (AjaxAdapter._normalizeItem empty_object))
     = Str ""
  /\ DataAdapter._normalizeItem (AjaxAdapter._normalizeItem empty_object)
     <> AjaxAdapter._normalizeItem empty_object.
Proof.
  repeat split. discriminate.
Qed.

End Normalization.

(** ** The item store: selection *)

Module Selection.
Import Js Items Events DataAdapter.

Lemma selection_announce_select o d st :
  selection (announce_select o d st) = selection st.
Proof. reflexivity. Qed.

Lemma selection_unselect o d st :
  selection (unselect o d st)
  = List.filter (fun item => negb (strict_eq (id item) (id d))) (selection st).
Proof. reflexivity. Qed.

(** [select] in single mode: the selection is the item, the call succeeds. *)
Lemma select_single o d st :
  multiple o = false ->
  fst (select o d st) = true /\ selection (snd (select o d st)) = [d].
Proof. intros H. unfold select. rewrite H. cbn. auto. Qed.

(** [select] in multiple mode, one case per path of the code. *)
Lemma select_multiple_cases o d st :
  multiple o = true ->
  let present :=
    existsb (fun item => strict_eq (id item) (id d)) (selection st) in
  let full :=
    (0 <? maximumSelectionLength o)
    && (maximumSelectionLength o <=? Z.of_nat (length (selection st))) in
  (present = true /\ select o d st = (false, st))
  \/ (present = false /\ full = true
      /\ fst (select o d st) = false
      /\ selection (snd (select o d st)) = selection st)
  \/ (present = false /\ full = false
      /\ fst (select o d st) = true
      /\ selection (snd (select o d st)) = selection st ++ [d]).
Proof.
  intros H. cbn zeta. unfold select. rewrite H. cbn [negb].
  destruct (existsb _ (selection st)); cbn [negb]; [now left | right].
  destruct (_ && _); [left | right]; auto.
Qed.

Lemma step_single o c st :
  multiple o = false ->
  (length (selection st) <= 1)%nat ->
  (length (selection (step o st c)) <= 1)%nat.
Proof.
  intros Hm Hlen. destruct c as [d | d]; cbn [step].
  - destruct (select_single o d st Hm) as [_ ->]. cbn. lia.
  - rewrite selection_unselect.
    etransitivity; [apply filter_length_le | exact Hlen].
Qed.

Lemma step_multiple o c st :
  multiple o = true ->
  0 < maximumSelectionLength o ->
  Z.of_nat (length (selection st)) <= maximumSelectionLength o ->
  Z.of_nat (length (selection (step o st c))) <= maximumSelectionLength o.
Proof.
  intros Hm Hpos Hlen. destruct c as [d | d]; cbn [step].
  - destruct (select_multiple_cases o d st Hm)
      as [[_ ->] | [(_ & _ & _ & ->) | (_ & Hfull & _ & ->)]]; cbn [snd];
      try exact Hlen.
    apply andb_false_iff in Hfull as [Hfull | Hfull].
    + apply Z.ltb_ge in Hfull. lia.
    + apply Z.leb_gt in Hfull. rewrite length_app. cbn. lia.
  - rewrite selection_unselect.
    pose proof (filter_length_le
                  (fun item => negb (strict_eq (id item) (id d)))
                  (selection st)).
    lia.
Qed.

(** C2, as the code has it.  Whatever the sequence of [select] and
    [unselect] calls, a single selection that holds at most one item
    keeps holding at most one, and a multiple selection with a limit
    N > 0 that holds at most N items keeps holding at most N.  A store is
    created with an empty selection; [init()] makes the selection the
    selected options of the host element, however many they are and
    whatever the limit.  When N items or more are selected, [select] of
    an item whose id is not [===] a selected id returns false, leaves
    the selection, the data and the host control as they were, and emits
    and then triggers [vs:selectionLimitReached] with [maximum] N and
    the message: what [language.maximumSelected] returns for N when it
    is a function, else "You can only select N items". *)
Theorem selection_cardinality (o : Options) (calls : list Call) (st : State) :
  let N := maximumSelectionLength o in
  (multiple o = false ->
   (length (current st) <= 1)%nat ->
   (length (current (run o calls st)) <= 1)%nat)
  /\ (multiple o = true ->
      0 < N ->
      Z.of_nat (length (current st)) <= N ->
      Z.of_nat (length (current (run o calls st))) <= N)
  /\ (forall h, current (create h) = [])
  /\ (forall optionsData nodes,
        length (current (HostElement.init optionsData nodes st))
        = length (List.filter HostElement.opt_selected
                              (HostElement.all_options nodes)))
  /\ (multiple o = true ->
      0 < N ->
      N <= Z.of_nat (length (current st)) ->
      forall d,
        existsb (fun item => strict_eq (id item) (id d)) (current st) = false ->
        let message :=
          match maximumSelected o with
          | Some maximumSelected => maximumSelected N
          | None =>
              ("You can only select " ++ string_of_Z N ++ " items")%string
          end in
        let notice := PLimit N message in
        select o d st
        = (false,
           MkState (data st) (selection st) (host st)
                   (log st ++ [Emit SELECTION_LIMIT_REACHED notice]
                           ++ [Trigger SELECTION_LIMIT_REACHED notice]))).
Proof.
  cbn zeta. unfold current. split; [| split; [| split; [| split]]].
  - intros Hm. revert st. induction calls as [| c calls IH]; intros st Hlen.
    + exact Hlen.
    + cbn [run fold_left]. apply IH. now apply step_single.
  - intros Hm Hpos. revert st.
    induction calls as [| c calls IH]; intros st Hlen.
    + exact Hlen.
    + cbn [run fold_left]. apply IH. now apply step_multiple.
  - reflexivity.
  - intros optionsData nodes.
    unfold HostElement.init, HostElement.loadInitialSelection.
    cbn [selection]. apply length_map.
  - intros Hm Hpos Hfull d Hnew. unfold select.
    rewrite Hm, Hnew. cbn [negb].
    replace (0 <? maximumSelectionLength o) with true
      by (symmetry; apply Z.ltb_lt; exact Hpos).
    replace (maximumSelectionLength o <=? Z.of_nat (length (selection st)))
      with true by (symmetry; apply Z.leb_le; lia).
    cbn [andb]. unfold do_trigger, do_emit, limit_message; cbn.
    now rewrite <- app_assoc.
Qed.

Definition item1 : Item := plain (Num 1) (Str "a").
Definition item2 : Item := plain (Num 2) (Str "b").
Definition item3 : Item := plain (Num 3) (Str "c").

(** [multiple: true, maximumSelectionLength: 2], English messages. *)
Definition limit2 : Options :=
  MkOptions true 2
    (Some (fun maximum =>
             ("You can only select " ++ string_of_Z maximum ++ " items")%string)).

Definition single : Options := MkOptions false 0 None.

(** The scenario of the specification: ids 1 and 2 are selected, id 3 is
    refused with the notice, which carries the limit and the English
    sentence; and a single selection stays at one item. *)
Lemma selection_cardinality_witness :
  (length (current (run single [CallSelect item1; CallSelect item2;
                                CallUnselect item3] (create []))) <= 1)%nat
  /\ Z.of_nat
       (length (current (run limit2 [CallSelect item1; CallSelect item2;
                                     CallSelect item3] (create [])))) <= 2
  /\ select limit2 item3
       (run limit2 [CallSelect item1; CallSelect item2] (create []))
     = (false,
        MkState [] [item1; item2] []
                (log (run limit2 [CallSelect item1; CallSelect item2]
                          (create []))
                 ++ [Emit SELECTION_LIMIT_REACHED
                          (PLimit 2 "You can only select 2 items")]
                 ++ [Trigger SELECTION_LIMIT_REACHED
                             (PLimit 2 "You can only select 2 items")])).
Proof.
  split; [| split].
  - apply (selection_cardinality single
             [CallSelect item1; CallSelect item2; CallUnselect item3]
             (create [])); [reflexivity | cbn; lia].
  - apply (selection_cardinality limit2
             [CallSelect item1; CallSelect item2; CallSelect item3]
             (create [])); [reflexivity | reflexivity | cbn; lia].
  - destruct (selection_cardinality limit2 []
                (run limit2 [CallSelect item1; CallSelect item2] (create [])))
      as (_ & _ & _ & _ & Hfull).
    exact (Hfull eq_refl eq_refl (Z.le_refl 2) item3 eq_refl).
Defined.

(** Three options of the host element are selected. *)
Definition three_selected : list HostElement.Node :=
  [HostElement.Standalone (HostElement.MkOption "1" "one" false true 0);
   HostElement.Standalone (HostElement.MkOption "2" "two" false true 1);
   HostElement.Standalone (HostElement.MkOption "3" "three" false true 2)].

(** C2 as stated fails for a store that [init()] has filled from a host
    element with more selected options than the limit allows: with the
    limit 2 the selection holds three items before any call, and still
    holds three after a [select], which is refused. *)
Lemma preselected_options_exceed_limit :
  let st := HostElement.init None three_selected (create []) in
  multiple limit2 = true
  /\ maximumSelectionLength limit2 = 2
  /\ map id (current st) = [Str "1"; Str "2"; Str "3"]
  /\ fst (select limit2 item1 st) = false
  /\ map id (current (run limit2 [CallSelect item1] st))
     = [Str "1"; Str "2"; Str "3"].
Proof. repeat split. Qed.

(** The scenario, evaluated: the selection after the three calls and the
    notice of the third. *)
Example limit_scenario :
  let st := run limit2 [CallSelect item1; CallSelect item2] (create []) in
  map id (current st) = [Num 1; Num 2]
  /\ fst (select limit2 item3 st) = false
  /\ map id (current (snd (select limit2 item3 st))) = [Num 1; Num 2]
  /\ last (log (snd (select limit2 item3 st)))
     = Some (Trigger SELECTION_LIMIT_REACHED
                     (PLimit 2 "You can only select 2 items")).
Proof. repeat split. Qed.

(** A duplicate under [===] is refused and nothing changes. *)
Lemma select_duplicate_strict o d st :
  multiple o = true ->
  existsb (fun item => strict_eq (id item) (id d)) (current st) = true ->
  select o d st = (false, st).
Proof. intros Hm Hdup. unfold current in Hdup. unfold select. now rewrite Hm, Hdup. Qed.

(** C4 fails in the code: the number 1 is selected, then an item whose id
    is the string "1" -- the same id once both are turned into strings --
    is selected as well: the call succeeds and the selection grows to
    two. *)
Theorem select_string_number_duplicate :
  let o := MkOptions true 0 None in
  let st := snd (select o (plain (Num 1) (Str "a")) (create [])) in
  let d := plain (Str "1") (Str "a") in
  map id (current st) = [Num 1]
  /\ String_ (id d) = String_ (Num 1)
  /\ fst (select o d st) = true
  /\ map id (current (snd (select o d st))) = [Num 1; Str "1"].
Proof. repeat split. Qed.

End Selection.

(** ** Terms made of white space *)

Module Whitespace.
Import Js.

(** Every code unit is white space; the empty string has none. *)
Fixpoint all_white (s : string) : bool :=
  match s with
  | EmptyString => true
  | String c rest => is_white_space c && all_white rest
  end.

Lemma trimEnd_keeps_start (c : ascii) (rest : string) :
  is_white_space c = false -> trimEnd (String c rest) <> EmptyString.
Proof.
  intros Hc. cbn. destruct (trimEnd rest); [now rewrite Hc | discriminate].
Qed.

Lemma trim_empty_iff (s : string) :
  String.eqb (trim s) "" = all_white s.
Proof.
  unfold trim. induction s as [| c s IH]; [reflexivity |].
  cbn [trimStart all_white]. destruct (is_white_space c) eqn:Hc; [exact IH |].
  cbn [andb]. apply String.eqb_neq. now apply trimEnd_keeps_start.
Qed.

(** [!term || term.trim() === ""] holds of the empty string and of the
    strings of white space, and of no other. *)
Lemma blank_all_white (term : string) : blank term = all_white term.
Proof.
  unfold blank. rewrite trim_empty_iff. now destruct term.
Qed.

End Whitespace.

(** ** Local search over items and groups *)

Module Search.
Import Js Items SearchManager Whitespace.

(** The same object with another [text]. *)
Definition with_text (t : Value) (it : Item) : Item :=
  MkItem (id it) t (disabled it) (selected it) (children it)
         (element it) (_isTag it) (extra it).

Lemma some_match (f : Item -> bool) (l : list Item) :
  (0 <? length (List.filter f l))%nat = existsb f l.
Proof.
  induction l as [| a l IH]; cbn; [reflexivity |].
  destruct (f a); cbn; [reflexivity | exact IH].
Qed.

(** What one entry contributes does not depend on what was found before. *)
Lemma visit_app (m : Matcher) (term : string) (acc : list Item) (item : Item) :
  visit m term acc item = acc ++ visit m term [] item.
Proof.
  unfold visit. destruct (children item) as [v | kids].
  - destruct (m term item); [reflexivity | now rewrite app_nil_r].
  - destruct (0 <? _)%nat; [reflexivity | now rewrite app_nil_r].
Qed.

Lemma fold_visit (m : Matcher) (term : string) (items acc : list Item) :
  fold_left (visit m term) items acc
  = acc ++ flat_map (visit m term []) items.
Proof.
  revert acc. induction items as [| item items IH]; intros acc; cbn.
  - now rewrite app_nil_r.
  - rewrite IH, visit_app. now rewrite <- app_assoc.
Qed.

(** A group contributes itself with its matching children, or nothing. *)
Lemma visit_group (m : Matcher) (term : string) (g : Item) (kids : list Item) :
  children g = IsArray kids ->
  visit m term [] g
  = if existsb (m term) kids
    then [set_children (IsArray (List.filter (m term) kids)) g]
    else [].
Proof.
  intros Hg. unfold visit. rewrite Hg, some_match.
  now destruct (existsb (m term) kids).
Qed.

Lemma search_flat_map (m : Matcher) (items : list Item) (term : string) :
  blank term = false ->
  search m items term = flat_map (visit m term []) items.
Proof.
  intros Hterm. unfold search. rewrite Hterm. apply fold_visit.
Qed.

(** C6, as the code has it.  [search] tells the terms apart by
    [!term || term.trim() === ""], which holds exactly of the terms all
    of whose code units are white space, the empty term among them.
    For such a term [search] returns the list as it is, groups and all.
    For every other term the result lists, in the order of the input,
    what each entry contributes; a group with a matching child is in the
    result with exactly its matching children in their order; every
    group of the result comes from a group of the input in that way and
    has a matching child; a group without one contributes nothing; and
    the label of a group changes neither whether it is included nor its
    children. *)
Theorem search_groups (m : Matcher) (items : list Item) (term : string) :
  blank term = all_white term
  /\ (all_white term = true -> search m items term = items)
  /\ (all_white term = false ->
      search m items term = flat_map (visit m term []) items
      /\ (forall g kids,
            In g items -> children g = IsArray kids ->
            existsb (m term) kids = true ->
            In (set_children (IsArray (List.filter (m term) kids)) g)
               (search m items term))
      /\ (forall r kept,
            In r (search m items term) -> children r = IsArray kept ->
            exists g kids,
              In g items /\ children g = IsArray kids
              /\ existsb (m term) kids = true
              /\ kept = List.filter (m term) kids
              /\ r = set_children (IsArray kept) g)
      /\ (forall g kids,
            children g = IsArray kids -> existsb (m term) kids = false ->
            visit m term [] g = [])
      /\ (forall g kids label,
            children g = IsArray kids ->
            visit m term [] (with_text label g)
            = map (with_text label) (visit m term [] g))).
Proof.
  split; [apply blank_all_white |]. rewrite <- blank_all_white. split.
  - intros Hblank. unfold search. now rewrite Hblank.
  - intros Hterm.
    pose proof (search_flat_map m items term Hterm) as Hflat.
    split; [exact Hflat |]. rewrite Hflat. repeat split.
    + intros g kids Hin Hg Hsome. apply in_flat_map. exists g.
      split; [exact Hin |].
      rewrite (visit_group m term g kids Hg), Hsome. now left.
    + intros r kept Hin Hr. apply in_flat_map in Hin as (g & Hin & Hvisit).
      destruct (children g) as [v | kids] eqn:Hg.
      * exfalso. unfold visit in Hvisit. rewrite Hg in Hvisit.
        destruct (m term g); [| contradiction].
        destruct Hvisit as [<- | []]. congruence.
      * rewrite (visit_group m term g kids Hg) in Hvisit.
        destruct (existsb (m term) kids) eqn:Hsome; [| contradiction].
        destruct Hvisit as [<- | []]. cbn in Hr. injection Hr as <-.
        exists g, kids. auto.
    + intros g kids Hg Hnone.
      now rewrite (visit_group m term g kids Hg), Hnone.
    + intros g kids label Hg.
      rewrite (visit_group m term (with_text label g) kids Hg).
      rewrite (visit_group m term g kids Hg).
      now destruct (existsb (m term) kids).
Qed.

(** A caller's matcher: the text of the item is the term, as typed. *)
Definition exact_text : Matcher :=
  fun term item => strict_eq (text item) (Str term).

Definition itemA : Item := plain (Num 1) (Str "A").
Definition itemB : Item := plain (Num 2) (Str "B").

(** A tab, a no-break space and a space. *)
Definition white_term : string :=
  String (ascii_of_nat 9) (String (ascii_of_nat 160) " ").

(** Group [A, B] searched for "A" keeps [A]; group [B] is absent; and a
    search for a term of white space returns both groups as they are. *)
Lemma search_groups_witness :
  search exact_text [group (Str "G") [itemA; itemB]; group (Str "H") [itemB]] "A"
  = [group (Str "G") [itemA]]
  /\ search exact_text [group (Str "G") [itemA; itemB]; group (Str "H") [itemB]]
            white_term
     = [group (Str "G") [itemA; itemB]; group (Str "H") [itemB]].
Proof.
  split.
  - destruct (search_groups exact_text
                [group (Str "G") [itemA; itemB]; group (Str "H") [itemB]] "A")
      as (_ & _ & Hfilled).
    destruct (Hfilled eq_refl) as [Heq _]. rewrite Heq. reflexivity.
  - destruct (search_groups exact_text
                [group (Str "G") [itemA; itemB]; group (Str "H") [itemB]]
                white_term)
      as (_ & Hblank & _).
    exact (Hblank eq_refl).
Defined.

(** C6 as stated fails on a term that is not empty but is white space
    only: [search] returns its input, so a group is in the result although
    the matcher accepts none of its children. *)
Lemma search_blank_term_keeps_group :
  String.eqb " " "" = false
  /\ existsb (exact_text " ") [itemA] = false
  /\ search exact_text [group (Str "G") [itemA]] " " = [group (Str "G") [itemA]].
Proof. repeat split. Qed.

End Search.

(** ** Keyboard navigation *)

Module Navigation.
Import Js Items KeyboardManager.

Lemma count_is_flat_length_from (items : list Item) (n : Z) (flat : list Item) :
  n = Z.of_nat (length flat) ->
  fold_left
    (fun count item =>
       match children item with
       | IsArray kids => count + Z.of_nat (length kids)
       | NotArray _ => count + 1
       end) items n
  = Z.of_nat
      (length
         (fold_left
            (fun flat item =>
               match children item with
               | IsArray kids => flat ++ kids
               | NotArray _ => flat ++ [item]
               end) items flat)).
Proof.
  revert n flat. induction items as [| item items IH]; intros n flat Hn; cbn.
  - exact Hn.
  - apply IH. destruct (children item); rewrite length_app; cbn; lia.
Qed.

(** [_countTotalItems] counts the entries of [_getFlatRenderedItems]. *)
Lemma count_is_flat_length (items : list Item) :
  _countTotalItems items = Z.of_nat (length (_getFlatRenderedItems items)).
Proof. now apply count_is_flat_length_from. Qed.

(** The list that [ResultsList.update] keeps in [flatResults] is the list
    that [_navigate] walks. *)
Lemma flatResults_are_rendered (rs : list Item) (rl : ResultsList.State) :
  ResultsList.flatResults (ResultsList.update rs rl)
  = _getFlatRenderedItems rs.
Proof. reflexivity. Qed.

Lemma wrap_in_range (total i : Z) :
  0 < total -> 0 <= wrap total i < total.
Proof.
  intros Hpos. unfold wrap.
  destruct (i <? 0) eqn:Hneg; [lia |].
  apply Z.ltb_ge in Hneg.
  destruct (total <=? i) eqn:Hbig; [lia |].
  apply Z.leb_gt in Hbig. lia.
Qed.

Lemma disabled_at_in_range (rendered : list Item) (i : Z) :
  Forall (fun it => truthy (disabled it) = true) rendered ->
  0 <= i < Z.of_nat (length rendered) ->
  disabled_at rendered i = true.
Proof.
  intros Hall Hi. unfold disabled_at.
  replace (i <? 0) with false by (symmetry; apply Z.ltb_ge; lia).
  destruct (nth_error rendered (Z.to_nat i)) as [it |] eqn:Hnth.
  - rewrite Forall_forall in Hall. apply Hall.
    apply list_elem_of_In. eapply nth_error_In; eauto.
  - apply nth_error_None in Hnth. lia.
Qed.

(** With every entry disabled and a current index outside the list, the
    loop finds neither an enabled entry nor the current index again. *)
Lemma skip_disabled_runs_out (fuel : nat) (rendered : list Item)
    (direction currentIndex newIndex : Z) :
  let total := Z.of_nat (length rendered) in
  Forall (fun it => truthy (disabled it) = true) rendered ->
  currentIndex < 0 \/ total <= currentIndex ->
  0 <= newIndex < total ->
  skip_disabled fuel rendered total direction currentIndex newIndex = None.
Proof.
  intros total Hall Hout. revert newIndex.
  induction fuel as [| fuel IH]; intros newIndex Hin; cbn; [reflexivity |].
  rewrite (disabled_at_in_range rendered newIndex Hall Hin).
  assert (Hw : 0 <= wrap total (newIndex + direction) < total)
    by (apply wrap_in_range; lia).
  replace (wrap total (newIndex + direction) =? currentIndex) with false
    by (symmetry; apply Z.eqb_neq; lia).
  now apply IH.
Qed.

(** When every rendered entry is disabled and nothing is highlighted
    (the index is -1, as [update] leaves it), [_navigate] does not return,
    whatever the direction. *)
Lemma navigate_runs_out (fuel : nat) (direction : Z) (rs : list Item)
    (rl : ResultsList.State) :
  Forall (fun it => truthy (disabled it) = true) (_getFlatRenderedItems rs) ->
  0 < _countTotalItems rs ->
  _navigate fuel direction (ResultsList.update rs rl) = None.
Proof.
  intros Hall Hpos. unfold _navigate. cbn [ResultsList.update
    ResultsList.highlightedIndex ResultsList.results].
  replace (_countTotalItems rs =? 0) with false
    by (symmetry; apply Z.eqb_neq; lia).
  rewrite count_is_flat_length in *.
  rewrite skip_disabled_runs_out; auto.
  - left. lia.
  - now apply wrap_in_range.
Qed.

(** *** When the move does return

    The number of steps in [direction] from [x] to [target], both in
    the list. *)
Definition steps (total direction x target : Z) : Z :=
  let t := direction * (target - x) in
  if t <? 0 then t + total else t.

(** Case analysis on every comparison of the goal, then arithmetic. *)
Ltac by_comparisons :=
  repeat match goal with
         | |- context [?a <? ?b] => destruct (Z.ltb_spec a b)
         | |- context [?a <=? ?b] => destruct (Z.leb_spec a b)
         end;
  lia.

Lemma steps_range (total direction x target : Z) :
  direction = 1 \/ direction = -1 ->
  0 <= x < total -> 0 <= target < total ->
  0 <= steps total direction x target < total.
Proof. intros [-> | ->] Hx Ht; unfold steps; cbn zeta; by_comparisons. Qed.

Lemma steps_zero (total direction x target : Z) :
  direction = 1 \/ direction = -1 ->
  0 <= x < total -> 0 <= target < total ->
  steps total direction x target = 0 -> x = target.
Proof. intros [-> | ->] Hx Ht; unfold steps; cbn zeta; by_comparisons. Qed.

Lemma steps_next (total direction x target : Z) :
  direction = 1 \/ direction = -1 ->
  0 <= x < total -> 0 <= target < total ->
  x <> target ->
  steps total direction (wrap total (x + direction)) target
  = steps total direction x target - 1.
Proof.
  intros [-> | ->] Hx Ht Hne; unfold steps, wrap; cbn zeta; by_comparisons.
Qed.

(** The loop leaves within [n + 1] turns when an enabled entry is [n]
    steps ahead. *)
Lemma skip_disabled_finds_enabled (rendered : list Item)
    (total direction currentIndex target : Z) :
  direction = 1 \/ direction = -1 ->
  0 <= target < total ->
  disabled_at rendered target = false ->
  forall (n : nat) (x : Z),
    0 <= x < total ->
    steps total direction x target <= Z.of_nat n ->
    skip_disabled (S n) rendered total direction currentIndex x <> None.
Proof.
  intros Hdir Ht Henabled. induction n as [| n IH]; intros x Hx Hsteps.
  - assert (x = target) as ->.
    { apply (steps_zero total direction); auto.
      pose proof (steps_range total direction x target Hdir Hx Ht). lia. }
    cbn. now rewrite Henabled.
  - cbn [skip_disabled]. destruct (disabled_at rendered x) eqn:Hd; [| discriminate].
    destruct (_ =? currentIndex); [discriminate |].
    apply IH.
    + apply wrap_in_range. lia.
    + rewrite steps_next; auto; [lia |]. congruence.
Qed.

(** The loop leaves within [n + 1] turns when the current index is in the
    list and [n + 1] steps ahead. *)
Lemma skip_disabled_meets_current (rendered : list Item)
    (total direction currentIndex : Z) :
  direction = 1 \/ direction = -1 ->
  0 <= currentIndex < total ->
  forall (n : nat) (x : Z),
    0 <= x < total ->
    steps total direction (wrap total (x + direction)) currentIndex
    <= Z.of_nat n ->
    skip_disabled (S n) rendered total direction currentIndex x <> None.
Proof.
  intros Hdir Hc. induction n as [| n IH]; intros x Hx Hsteps;
    assert (Hw : 0 <= wrap total (x + direction) < total)
      by (apply wrap_in_range; lia);
    pose proof (steps_range total direction _ currentIndex Hdir Hw Hc);
    cbn [skip_disabled]; (destruct (disabled_at rendered x); [| discriminate]);
    destruct (Z.eqb_spec (wrap total (x + direction)) currentIndex) as [| Hne];
    try discriminate.
  - exfalso. apply Hne. apply (steps_zero total direction); auto. lia.
  - apply IH; [exact Hw |]. rewrite steps_next; auto. lia.
Qed.

(** A move returns when the highlight is on an entry of the list or when
    some rendered entry is enabled; as many turns of the loop as the
    list has entries are enough. *)
Lemma navigate_returns (direction : Z) (rl : ResultsList.State) :
  direction = 1 \/ direction = -1 ->
  let rendered := _getFlatRenderedItems (ResultsList.results rl) in
  let total := Z.of_nat (length rendered) in
  0 <= ResultsList.highlightedIndex rl < total
  \/ (exists target, 0 <= target < total
                     /\ disabled_at rendered target = false) ->
  _navigate (length rendered) direction rl <> None.
Proof.
  intros Hdir rendered total Hcase. unfold _navigate.
  rewrite count_is_flat_length. fold rendered. fold total.
  destruct (Z.eqb_spec total 0) as [| Hne]; [discriminate |].
  assert (Hpos : 0 < total) by lia.
  assert (Hw : 0 <= wrap total (ResultsList.highlightedIndex rl + direction)
               < total) by (apply wrap_in_range; lia).
  destruct (length rendered) as [| n] eqn:Hlen; [subst total; lia |].
  assert (Hn : total = Z.of_nat n + 1) by (subst total; lia).
  enough (skip_disabled (S n) rendered total direction
            (ResultsList.highlightedIndex rl)
            (wrap total (ResultsList.highlightedIndex rl + direction))
          <> None) as Hsome.
  { destruct (skip_disabled _ _ _ _ _ _) as [[| i] |]; congruence. }
  destruct Hcase as [Hc | (target & Ht & Henabled)].
  - apply skip_disabled_meets_current; auto.
    pose proof (steps_range total direction
                  (wrap total (wrap total (ResultsList.highlightedIndex rl
                                           + direction) + direction))
                  (ResultsList.highlightedIndex rl) Hdir) as Hr.
    assert (0 <= wrap total (wrap total (ResultsList.highlightedIndex rl
                                         + direction) + direction) < total)
      by (apply wrap_in_range; lia).
    lia.
  - apply (skip_disabled_finds_enabled rendered total direction _ target); auto.
    pose proof (steps_range total direction
                  (wrap total (ResultsList.highlightedIndex rl + direction))
                  target Hdir Hw Ht). lia.
Qed.

(** The loop is left through its condition only at an entry that is not
    disabled. *)
Lemma skip_disabled_exits_enabled (fuel : nat) (rendered : list Item)
    (total direction currentIndex x i : Z) :
  skip_disabled fuel rendered total direction currentIndex x = Some (Exited i) ->
  disabled_at rendered i = false.
Proof.
  revert x. induction fuel as [| fuel IH]; intros x; cbn; [discriminate |].
  destruct (disabled_at rendered x) eqn:Hd.
  - destruct (_ =? currentIndex); [discriminate | apply IH].
  - now intros [= <-].
Qed.

(** A move that returns either changes nothing or highlights an entry
    that is not disabled. *)
Lemma navigate_skips_disabled (fuel : nat) (direction : Z)
    (rl rl' : ResultsList.State) :
  _navigate fuel direction rl = Some rl' ->
  rl' = rl
  \/ exists i,
       rl' = ResultsList.highlight i rl
       /\ disabled_at (_getFlatRenderedItems (ResultsList.results rl)) i = false.
Proof.
  unfold _navigate. destruct (_ =? 0); [intros [= <-]; now left |].
  destruct (skip_disabled _ _ _ _ _ _) as [[| i] |] eqn:Hloop;
    [intros [= <-]; now left | | discriminate].
  intros [= <-]. right. exists i. split; [reflexivity |].
  eapply skip_disabled_exits_enabled; eauto.
Qed.

(** [{ id: 1, text: "a", disabled: true }] *)
Definition disabled_item : Item :=
  MkItem (Num 1) (Str "a") (Bool true) Undefined (NotArray Undefined)
         Undefined Undefined [].

(** C9 fails in the code: the list holds one disabled entry and, as after
    every [update], no entry is highlighted (index -1).  A move down or
    up then never leaves the loop: no bound on the number of iterations
    is enough. *)
Theorem navigate_all_disabled_never_returns (fuel : nat) :
  let rl := ResultsList.update [disabled_item] ResultsList.create in
  ResultsList.highlightedIndex rl = -1
  /\ _navigate fuel 1 rl = None
  /\ _navigate fuel (-1) rl = None.
Proof.
  cbn zeta. split; [reflexivity |].
  split; apply navigate_runs_out; try reflexivity;
    repeat constructor.
Qed.

End Navigation.

(** ** The remote source: how the promise of [query] settles *)

Module Remote.
Import Js Items Events AjaxAdapter.

(** [error.name] of a value that has properties. *)
Definition name_of (error : Reason) : Value :=
  match error with
  | Thing name _ => name
  | Nullish _ => Undefined
  end.

Section Settle.
Context {Raw Req : Type}.
Variable cfg : Config Raw Req.
Variable params : Params.

(** A rejection with a value that has properties resolves with the empty
    page, and the error is announced unless its name is "AbortError". *)
Lemma settle_rejection (name : Value) (ident : nat) (st : State) :
  settle cfg params (inr (Thing name ident)) st
  = (let st := set_currentRequest None st in
     if negb (strict_eq name (Str "AbortError"))
     then announce AJAX_ERROR (PError (Thing name ident) params) st
     else st,
     Resolved empty_page).
Proof. reflexivity. Qed.

(** The same when [processResults] throws such a value, and when it
    returns [undefined] or [null], which makes the handler throw a
    TypeError. *)
Lemma settle_processing_failure (response : Raw) (st : State) :
  let failed thrown :=
    (let st := set_currentRequest None st in
     if negb (strict_eq (name_of thrown) (Str "AbortError"))
     then announce AJAX_ERROR (PError thrown params) st
     else st,
     Resolved empty_page) in
  (forall name ident,
      processResults cfg response params = inl (Thing name ident) ->
      settle cfg params (inl response) st = failed (Thing name ident))
  /\ (processResults cfg response params = inr ProcessedNullish ->
      settle cfg params (inl response) st = failed type_error).
Proof.
  cbn zeta. split.
  - intros name ident H. unfold settle, on_fulfilled. now rewrite H.
  - intros H. unfold settle, on_fulfilled. now rewrite H.
Qed.

(** The promise resolves whenever neither the transport nor
    [processResults] fails with [undefined] or [null]. *)
Lemma settle_resolves (outcome : Raw + Reason) (st : State) :
  (forall b, outcome <> inr (Nullish b)) ->
  (forall response b,
      outcome = inl response ->
      processResults cfg response params <> inl (Nullish b)) ->
  exists p, snd (settle cfg params outcome st) = Resolved p.
Proof.
  intros Hout Hproc. destruct outcome as [response | [b | name ident]].
  - specialize (Hproc response). unfold settle, on_fulfilled.
    destruct (processResults cfg response params)
      as [[b | name ident] | [| rs pagination]]; cbn.
    + now destruct (Hproc b eq_refl).
    + now exists empty_page.
    + now exists empty_page.
    + eexists. reflexivity.
  - now destruct (Hout b).
  - now exists empty_page.
Qed.

(** A transport whose promise has no [abort] method, as the one the
    README shows, makes the next [query] throw while the first request is
    pending: no promise is returned at all. *)
Lemma query_throws_without_abort (first second : Params) (st : State) :
  cache_enabled cfg = false ->
  currentRequest st = None ->
  let pending := snd (query cfg first false st) in
  query cfg second false pending = (Threw type_error, pending).
Proof.
  intros Hcache Hnone. unfold query. rewrite Hcache, Hnone. cbn.
  reflexivity.
Qed.

(** C7 fails in the code: when the transport rejects with [undefined] or
    [null], the [catch] handler throws while it reads [error.name], so
    the promise of [query] rejects (with a TypeError) instead of
    resolving with the empty page; no error event is emitted either. *)
Theorem query_rejects_on_nullish_reason (is_null : bool) (st : State) :
  settle cfg params (inr (Nullish is_null)) st
  = (set_currentRequest None st, RejectedWith type_error).
Proof. reflexivity. Qed.

End Settle.

End Remote.

(** ** The coordinator in remote mode *)

Module Coordinator.
Import Js Items Events ResultsAdapter.

(** What a change of term does reset: a query for a term other than the
    current one sets the page to 1 and empties the accumulated results,
    whatever they were, and the request that goes out asks for that term
    and page 1; the handlers of the call do not append. *)
Lemma term_change_resets_pagination (st : State) (term : string)
    (append : bool) (Hterm : term <> currentSearchTerm st) :
  let st' := fst (_updateWithAjax term append st) in
  let k := snd (_updateWithAjax term append st) in
  currentSearchTerm st' = term
  /\ currentPage st' = 1
  /\ accumulatedResults st' = []
  /\ ResultsAdapter.append k = false
  /\ queries st' = queries st ++ [MkParams (Some term) (Some 1)].
Proof.
  cbn zeta. unfold _updateWithAjax.
  apply String.eqb_neq in Hterm. rewrite Hterm. cbn. auto.
Qed.

(** A coordinator on page 3 of "a" with two accumulated results. *)
Definition on_page_3 : State :=
  MkState "a" 3 true false [plain (Num 1) (Str "x"); plain (Num 2) (Str "y")]
          (Some 4%nat) None 5%nat 1%nat [] ResultsList.create
          (DataAdapter.create []).

Lemma term_change_resets_pagination_witness :
  let st' := fst (_updateWithAjax "b" true on_page_3) in
  let k := snd (_updateWithAjax "b" true on_page_3) in
  currentSearchTerm st' = "b"
  /\ currentPage st' = 1
  /\ accumulatedResults st' = []
  /\ ResultsAdapter.append k = false
  /\ queries st' = queries on_page_3 ++ [MkParams (Some "b") (Some 1)].
Proof.
  apply (term_change_resets_pagination on_page_3 "b" true). discriminate.
Defined.

(** What a call of [_updateWithAjax] never touches, whether the term
    changes or not: [hasMore], [isLoadingMore] and the timer of
    [loadMore]. *)
Lemma term_change_keeps_flags (st : State) (term : string) (append : bool) :
  let st' := fst (_updateWithAjax term append st) in
  hasMore st' = hasMore st
  /\ isLoadingMore st' = isLoadingMore st
  /\ _loadMoreTimeout st' = _loadMoreTimeout st.
Proof. cbn. auto. Qed.

(** The handlers of a call whose token is no longer the current one leave
    the whole state as it is. *)
Lemma superseded_is_ignored (k : Closure) (response : Page) (st : State) :
  superseded k st = true ->
  on_resolved k response st = st /\ on_rejected k st = st.
Proof.
  intros H. unfold on_resolved, on_rejected. now rewrite H.
Qed.

Lemma superseded_iff (k : Closure) (st : State) :
  superseded k st = true <-> currentSearchToken st <> Some (searchToken k).
Proof.
  unfold superseded. destruct (currentSearchToken st) as [token |].
  - rewrite negb_true_iff, Nat.eqb_neq. split; congruence.
  - split; [discriminate | reflexivity].
Qed.

(** The handlers that [update] installs replace, they do not append. *)
Lemma update_replaces (term : string) (st : State) :
  append (snd (update term st)) = false.
Proof.
  unfold update, _updateWithAjax. cbn.
  now destruct (negb (String.eqb term (currentSearchTerm st))).
Qed.

Lemma results_highlight (i : Z) (rl : ResultsList.State) :
  ResultsList.results (ResultsList.highlight i rl) = ResultsList.results rl.
Proof. unfold ResultsList.highlight. now destruct (_ || _). Qed.

(** Highlighting the first enabled entry does not change the list. *)
Lemma results_autoHighlight (all rest : list Item) (i : nat)
    (rl : ResultsList.State) :
  ResultsList.results (autoHighlight_from all rest i rl)
  = ResultsList.results rl.
Proof.
  revert i. induction rest as [| item rest IH]; intros i; cbn.
  - reflexivity.
  - destruct (children item) as [v | kids].
    + destruct (negb (truthy (disabled item))); [apply results_highlight | apply IH].
    + destruct (first_enabled kids 0); [| apply IH].
      destruct (_getFlatIndexForGroupChild all i z);
        [apply results_highlight | reflexivity].
Qed.

(** A current response that does not append replaces what was there. *)
Lemma on_resolved_replaces (k : Closure) (response : Page) (st : State) :
  superseded k st = false ->
  append k = false ->
  accumulatedResults (on_resolved k response st) = Events.results response
  /\ ResultsList.results (results (on_resolved k response st))
     = Events.results response
  /\ hasMore (on_resolved k response st) = truthy (more response)
  /\ backing_data (on_resolved k response st)
     = map DataAdapter._normalizeItem (Events.results response).
Proof.
  intros Hk Happend. unfold on_resolved. rewrite Hk, Happend. cbn.
  repeat split.
  destruct (_ && _); [| reflexivity].
  unfold _autoHighlightFirst. now rewrite results_autoHighlight.
Qed.

(** C1: search A, then search B.  B's response is applied in full: the
    accumulated and the displayed results are B's, [hasMore] is B's flag
    and the store holds B's items.  A's response, whether it resolves
    after B's or between B's call and B's response, and A's rejection
    alike, leave the state exactly as it is.  In general a response whose
    token is not the current one changes nothing. *)
Theorem late_response_is_discarded (st : State) (termA termB : string)
    (responseA responseB : Page) :
  let sA := fst (update termA st) in
  let kA := snd (update termA st) in
  let sB := fst (update termB sA) in
  let kB := snd (update termB sA) in
  let shown := on_resolved kB responseB sB in
  on_resolved kA responseA shown = shown
  /\ on_rejected kA shown = shown
  /\ on_resolved kB responseB (on_resolved kA responseA sB) = shown
  /\ accumulatedResults shown = Events.results responseB
  /\ ResultsList.results (results shown) = Events.results responseB
  /\ hasMore shown = truthy (more responseB)
  /\ backing_data shown
     = map DataAdapter._normalizeItem (Events.results responseB)
  /\ (forall (k : Closure) (response : Page) (s : State),
        currentSearchToken s <> Some (searchToken k) ->
        on_resolved k response s = s
        /\ hasMore (on_resolved k response s) = hasMore s
        /\ accumulatedResults (on_resolved k response s) = accumulatedResults s
        /\ backing_data (on_resolved k response s) = backing_data s).
Proof.
  cbn zeta.
  assert (HkB : superseded (snd (update termB (fst (update termA st))))
                           (fst (update termB (fst (update termA st))))
                = false).
  { unfold superseded; cbn. now rewrite Nat.eqb_refl. }
  assert (HkA : forall s,
             currentSearchToken s = Some (S (symbols st)) ->
             superseded (snd (update termA st)) s = true).
  { intros s Hs. unfold superseded. rewrite Hs.
    unfold update, _updateWithAjax. cbn [snd searchToken].
    apply negb_true_iff, Nat.eqb_neq. lia. }
  assert (Htoken : currentSearchToken
                     (on_resolved (snd (update termB (fst (update termA st))))
                                  responseB
                                  (fst (update termB (fst (update termA st)))))
                   = Some (S (symbols st))).
  { unfold on_resolved. rewrite HkB. reflexivity. }
  split; [| split; [| split]].
  - now apply superseded_is_ignored, HkA.
  - now apply (superseded_is_ignored _ responseA), HkA.
  - f_equal. now apply superseded_is_ignored, HkA.
  - destruct (on_resolved_replaces _ responseB _ HkB (update_replaces _ _))
      as (Hacc & Hshown & Hmore & Hdata).
    split; [exact Hacc |]. split; [exact Hshown |].
    split; [exact Hmore |]. split; [exact Hdata |].
    intros k response s Hk. apply superseded_iff in Hk.
    destruct (superseded_is_ignored k response s Hk) as [-> _]. auto.
Qed.

(** Search "ab" after search "a"; the page for "a" arrives last. *)
Lemma late_response_is_discarded_witness :
  let pageA := MkPage [plain (Num 1) (Str "a1")] (Bool true) in
  let pageB := MkPage [plain (Num 2) (Str "ab")] (Bool false) in
  let st := create (DataAdapter.create []) in
  let sA := fst (update "a" st) in
  let kA := snd (update "a" st) in
  let sB := fst (update "ab" sA) in
  let kB := snd (update "ab" sA) in
  let shown := on_resolved kB pageB sB in
  on_resolved kA pageA shown = shown
  /\ accumulatedResults (on_resolved kA pageA shown)
     = [plain (Num 2) (Str "ab")]
  /\ hasMore (on_resolved kA pageA shown) = false.
Proof.
  cbn zeta.
  pose proof (late_response_is_discarded
                (create (DataAdapter.create [])) "a" "ab"
                (MkPage [plain (Num 1) (Str "a1")] (Bool true))
                (MkPage [plain (Num 2) (Str "ab")] (Bool false)))
    as (Hlate & _ & _ & _ & _ & _ & _ & Hany).
  cbn zeta in Hlate, Hany. rewrite Hlate.
  split; [reflexivity |]. split; reflexivity.
Defined.

End Coordinator.

(** ** Loading further pages *)

Module Paging.
Import Js Items Events ResultsAdapter.

(** While [isLoadingMore] is set, [loadMore] and [_handleScroll] return
    at once. *)
Lemma loading_guard (st : State) (scrollTop scrollHeight clientHeight : Z) :
  isLoadingMore st = true ->
  loadMore st = (st, None)
  /\ _handleScroll scrollTop scrollHeight clientHeight st = (st, None).
Proof.
  intros H. unfold _handleScroll, loadMore. rewrite H.
  now rewrite orb_true_r.
Qed.

(** The flag is cleared by the timer alone: once it has fired, a further
    [loadMore] goes through, whether or not the page asked for before has
    been handled. *)
Lemma timer_reopens_loadMore (st : State) (timer : nat) :
  hasMore st = true ->
  _loadMoreTimeout st = Some timer ->
  let st' := loadMoreTimeout_fires timer st in
  isLoadingMore st' = false
  /\ currentSearchToken st' = currentSearchToken st
  /\ exists k, snd (loadMore st') = Some k
               /\ currentPage (fst (loadMore st')) = currentPage st + 1
               /\ currentSearchToken (fst (loadMore st')) = Some (searchToken k)
               /\ searchToken k = symbols st.
Proof.
  intros Hmore Htimer. cbn zeta. unfold loadMoreTimeout_fires.
  rewrite decide_True by exact Htimer. cbn.
  split; [reflexivity |]. split; [reflexivity |].
  unfold loadMore; cbn. rewrite Hmore. cbn.
  rewrite String.eqb_refl. cbn. eexists. repeat split.
Qed.

Definition x : Item := plain (Num 1) (Str "x").
Definition y : Item := plain (Num 2) (Str "y").
Definition z : Item := plain (Num 3) (Str "z").

(** The first page of a search for "a" has arrived and announces more. *)
Definition first_page_shown : State :=
  let st := create (DataAdapter.create []) in
  on_resolved (snd (update "a" st)) (MkPage [x] (Bool true)) (fst (update "a" st)).

(** The scenario of the specification: the second page arrives while the
    flag is set and is appended. *)
Example pages_accumulate :
  let st := fst (loadMore first_page_shown) in
  let k := MkClosure 1 true in
  snd (loadMore first_page_shown) = Some k
  /\ accumulatedResults (on_resolved k (MkPage [y] (Bool false)) st) = [x; y]
  /\ hasMore (on_resolved k (MkPage [y] (Bool false)) st) = false.
Proof. repeat split. Qed.

(** C3 fails in the code.  [_updateWithAjax] resets the page counter and
    the accumulated results when the term changes, but not [hasMore] and
    [isLoadingMore], which the code itself calls pagination state: they
    keep the values that the previous term left.  So when the previous
    term had more results and no load was in progress, a [loadMore] (a
    scroll to the bottom) that comes before the first response of the
    new term is let through: it asks for page 2 of the new term and
    replaces the token of the request for page 1.  The response for
    page 1 is then ignored, whenever it arrives, and the response for
    page 2 is shown alone: the first page of the new term is never
    displayed. *)
Theorem load_more_after_term_change_drops_first_page
    (st : State) (term : string) (first second : Page)
    (Hterm : term <> currentSearchTerm st)
    (Hmore : hasMore st = true) (Hidle : isLoadingMore st = false) :
  let changed := fst (update term st) in
  let k1 := snd (update term st) in
  let asked := fst (loadMore changed) in
  hasMore changed = hasMore st
  /\ isLoadingMore changed = isLoadingMore st
  /\ currentPage changed = 1
  /\ accumulatedResults changed = []
  /\ exists k2,
       snd (loadMore changed) = Some k2
       /\ queries asked
          = queries st ++ [MkParams (Some term) (Some 1);
                           MkParams (Some term) (Some 2)]
       /\ on_resolved k1 first asked = asked
       /\ let shown := on_resolved k2 second asked in
          accumulatedResults shown = Events.results second
          /\ ResultsList.results (results shown) = Events.results second
          /\ backing_data shown
             = map DataAdapter._normalizeItem (Events.results second)
          /\ currentPage shown = 2
          /\ currentSearchTerm shown = term
          /\ on_resolved k1 first shown = shown.
Proof.
  cbn zeta. apply String.eqb_neq in Hterm.
  destruct st as [t p hm lm acc tok tmo sym tim qs rl da].
  cbn [currentSearchTerm hasMore isLoadingMore queries] in *. subst hm lm.
  unfold update, _updateWithAjax.
  cbn [currentSearchTerm currentPage hasMore isLoadingMore accumulatedResults
       symbols queries timers results dataAdapter _loadMoreTimeout fst snd].
  rewrite Hterm. cbn [negb fst snd].
  split; [reflexivity |]. split; [reflexivity |].
  split; [reflexivity |]. split; [reflexivity |].
  unfold loadMore, _updateWithAjax.
  cbn [currentSearchTerm currentPage hasMore isLoadingMore accumulatedResults
       symbols queries timers results dataAdapter _loadMoreTimeout fst snd
       negb orb].
  rewrite String.eqb_refl. cbn [negb fst snd].
  exists (MkClosure (S sym) true). split; [reflexivity |].
  split; [cbn [queries]; now rewrite <- app_assoc |].
  assert (Hstale : forall shown,
             currentSearchToken shown = Some (S sym) ->
             on_resolved (MkClosure sym false) first shown = shown).
  { intros shown Htoken. apply Coordinator.superseded_is_ignored.
    apply Coordinator.superseded_iff. rewrite Htoken. cbn. intros [= H]. lia. }
  split; [now apply Hstale |].
  assert (Hshown :
            on_resolved (MkClosure (S sym) true) second
              (MkState term (1 + 1) true true [] (Some (S sym)) (Some tim)
                       (S (S sym)) (S tim)
                       ((qs ++ [MkParams (Some term) (Some 1)])
                          ++ [MkParams (Some term) (Some (1 + 1))]) rl da)
            = MkState term 2 (truthy (more second)) true
                      (Events.results second) (Some (S sym)) (Some tim)
                      (S (S sym)) (S tim)
                      ((qs ++ [MkParams (Some term) (Some 1)])
                         ++ [MkParams (Some term) (Some 2)])
                      (ResultsList.update (Events.results second) rl)
                      (DataAdapter.do_emit RESULTS
                         (PResults (Events.results second))
                         (DataAdapter.setData (Events.results second) da))).
  { unfold on_resolved, superseded.
    cbn [currentSearchToken searchToken append currentPage accumulatedResults
         results dataAdapter currentSearchTerm isLoadingMore _loadMoreTimeout
         symbols timers queries].
    rewrite Nat.eqb_refl. cbn [negb andb app].
    change (1 <? 1 + 1) with true. cbn [andb negb app].
    now rewrite andb_false_r. }
  cbn [currentSearchToken]. rewrite Hshown.
  cbn [accumulatedResults results currentPage currentSearchTerm backing_data
       dataAdapter ResultsList.update ResultsList.results].
  repeat (split; [reflexivity |]).
  now apply Hstale.
Qed.

(** The first page of "a" is shown and announces more; the user types
    "b" and scrolls to the bottom before the answer for "b" arrives:
    page 1 of "b" is dropped and page 2 is all that is shown. *)
Lemma load_more_after_term_change_drops_first_page_witness :
  let changed := fst (update "b" first_page_shown) in
  let asked := fst (loadMore changed) in
  let late1 := on_resolved (MkClosure 1 false) (MkPage [y] (Bool true)) asked in
  let got2 := on_resolved (MkClosure 2 true) (MkPage [z] (Bool false)) late1 in
  queries asked
  = [MkParams (Some "a") (Some 1); MkParams (Some "b") (Some 1);
     MkParams (Some "b") (Some 2)]
  /\ late1 = asked
  /\ accumulatedResults got2 = [z]
  /\ ResultsList.results (results got2) = [z].
Proof.
  assert (Hterm : "b"%string <> currentSearchTerm first_page_shown)
    by discriminate.
  destruct (load_more_after_term_change_drops_first_page
              first_page_shown "b" (MkPage [y] (Bool true))
              (MkPage [z] (Bool false)) Hterm eq_refl eq_refl)
    as (_ & _ & _ & _ & k2 & Hk2 & Hqueries & Hlate & Hshown & Hlist & _).
  vm_compute in Hk2. injection Hk2 as <-.
  cbn zeta. change (snd (update "b" first_page_shown))
    with (MkClosure 1 false) in Hlate.
  rewrite Hlate. split; [exact Hqueries |]. split; [reflexivity |].
  split; [exact Hshown | exact Hlist].
Defined.

(** C5 fails in the code: page 2 is asked for, the 500 ms timer fires
    before its response arrives, and a further [loadMore] is let through:
    page 3 is requested while page 2 is still in flight.  Page 2's
    response then carries a token that is no longer current and is
    dropped, so the accumulated results are pages 1 and 3. *)
Theorem next_page_requested_while_previous_in_flight :
  let asked2 := fst (loadMore first_page_shown) in
  let k2 := MkClosure 1 true in
  let timed_out := loadMoreTimeout_fires 1 asked2 in
  let asked3 := fst (loadMore timed_out) in
  let k3 := MkClosure 2 true in
  let late2 := on_resolved k2 (MkPage [y] (Bool true)) asked3 in
  let got3 := on_resolved k3 (MkPage [z] (Bool false)) late2 in
  snd (loadMore first_page_shown) = Some k2
  /\ loadMore asked2 = (asked2, None)
  /\ isLoadingMore timed_out = false
  /\ snd (loadMore timed_out) = Some k3
  /\ queries asked3
     = [MkParams (Some "a") (Some 1); MkParams (Some "a") (Some 2);
        MkParams (Some "a") (Some 3)]
  /\ late2 = asked3
  /\ accumulatedResults got3 = [x; z].
Proof. repeat split. Qed.

End Paging.

(** ** Tagging in local mode *)

Module Tagging.
Import Js Items Events ResultsAdapterLocal.




(** What the list presenter gets is what [shown] holds, read from the
    store as [_updateWithLocalData] leaves it. *)
Lemma presented_is_displayed (o : Options) (term : string) (st : State) :
  ResultsList.results (results (_updateWithLocalData o term st))
  = displayed (_updateWithLocalData o term st).
Proof.
  unfold _updateWithLocalData, displayed.
  destruct (search _ _ _ _) as [found σ].
  destruct (add_tag _ _ _ _) as [found' σ']. cbn [results shown store].
  destruct (0 <? _)%nat; [| reflexivity].
  unfold ResultsAdapter._autoHighlightFirst.
  now rewrite Coordinator.results_autoHighlight.
Qed.



Definition tagging : Options :=
  MkOptions true Search.exact_text default_createTag default_insertTag.

(** The store holds [{ id: "x1", text: "new" }], which is the data. *)
Definition one_item : State :=
  MkState {[ 0%nat := plain (Str "x1") (Str "new") ]} [0%nat] "" []
          ResultsList.create [].




(** And a group keeps a tag out by its own id, although a group cannot
    be chosen: the id of a group loaded from the host element is
    "group-0-" followed by its label. *)
Example tag_kept_out_by_group :
  let child := plain (Str "1") (Str "group-0-g") in
  let st :=
    MkState {[ 0%nat := MkItem (Str "group-0-G") (Str "G") Undefined Undefined
                               (IsArray [child]) Undefined Undefined [] ]}
            [0%nat] "" [] ResultsList.create [] in
  displayed (_updateWithLocalData tagging "group-0-g" st)
  = [MkItem (Str "group-0-G") (Str "G") Undefined Undefined
            (IsArray [child]) Undefined Undefined []].
Proof. vm_compute. reflexivity. Qed.

(** *** The search on references is the search on items *)

Lemma deref_extends (σ σ' : gmap nat Item) (r : nat) :
  σ ⊆ σ' -> is_Some (σ !! r) -> deref σ' r = deref σ r.
Proof.
  intros Hsub [it Hit]. unfold deref.
  now rewrite Hit, (lookup_weaken _ _ _ _ Hit Hsub).
Qed.

Lemma new_object_extends (σ : gmap nat Item) (it : Item) :
  σ ⊆ snd (new_object σ it)
  /\ snd (new_object σ it) !! fst (new_object σ it) = Some it.
Proof.
  unfold new_object; cbn. split.
  - apply insert_subseteq, not_elem_of_dom, is_fresh.
  - apply lookup_insert_eq.
Qed.

Lemma held_extends (σ σ' : gmap nat Item) (l : list nat) :
  σ ⊆ σ' ->
  Forall (fun r => is_Some (σ !! r)) l ->
  Forall (fun r => is_Some (σ' !! r)) l
  /\ map (deref σ') l = map (deref σ) l.
Proof.
  intros Hsub Hl. induction Hl as [| r l Hr _ [IH1 IH2]]; cbn.
  - split; [constructor | reflexivity].
  - split.
    + constructor; [| exact IH1]. destruct Hr as [it Hit].
      exists it. eapply lookup_weaken; eauto.
    + now rewrite IH2, (deref_extends σ σ' r Hsub Hr).
Qed.

(** One turn on references pushes what the turn on items pushes. *)
Lemma visit_view (m : SearchManager.Matcher) (term : string)
    (σ0 σ : gmap nat Item) (found : list nat) (r : nat) :
  σ0 ⊆ σ ->
  Forall (fun x => is_Some (σ !! x)) found ->
  is_Some (σ0 !! r) ->
  let after := visit m term (found, σ) r in
  σ ⊆ snd after
  /\ Forall (fun x => is_Some (snd after !! x)) (fst after)
  /\ map (deref (snd after)) (fst after)
     = map (deref σ) found ++ SearchManager.visit m term [] (deref σ0 r).
Proof.
  intros Hsub Hfound Hr. cbn zeta. unfold visit, SearchManager.visit.
  rewrite (deref_extends σ0 σ r Hsub Hr).
  assert (Hr' : is_Some (σ !! r))
    by (destruct Hr as [it Hit]; exists it; eapply lookup_weaken; eauto).
  destruct (children (deref σ0 r)) as [v | kids] eqn:Hkids.
  - destruct (m term (deref σ0 r)); cbn.
    + split; [reflexivity |]. split.
      * apply Forall_app; split; [exact Hfound | now constructor].
      * rewrite map_app. cbn. now rewrite (deref_extends σ0 σ r Hsub Hr).
    + split; [reflexivity |]. split; [exact Hfound | now rewrite app_nil_r].
  - destruct (0 <? length (List.filter (m term) kids))%nat.
    + destruct (new_object_extends σ
                  (set_children (IsArray (List.filter (m term) kids))
                                (deref σ0 r))) as [Hext Hnew].
      destruct (new_object σ _) as [g σ'] eqn:Hobj. cbn in *.
      destruct (held_extends σ σ' found Hext Hfound) as [Hheld Hsame].
      split; [exact Hext |]. split.
      * apply Forall_app; split; [exact Hheld |]. constructor; [eauto | constructor].
      * rewrite map_app, Hsame. cbn. unfold deref at 2. now rewrite Hnew.
    + cbn. split; [reflexivity |]. split; [exact Hfound | now rewrite app_nil_r].
Qed.

Lemma fold_visit_view (m : SearchManager.Matcher) (term : string)
    (σ0 : gmap nat Item) (items : list nat) :
  Forall (fun r => is_Some (σ0 !! r)) items ->
  forall (found : list nat) (σ : gmap nat Item),
    σ0 ⊆ σ ->
    Forall (fun x => is_Some (σ !! x)) found ->
    let after := fold_left (visit m term) items (found, σ) in
    map (deref (snd after)) (fst after)
    = map (deref σ) found
        ++ flat_map (SearchManager.visit m term []) (map (deref σ0) items).
Proof.
  induction 1 as [| r items Hr _ IH]; intros found σ Hsub Hfound;
    cbn [fold_left map flat_map fst snd].
  - now rewrite app_nil_r.
  - destruct (visit_view m term σ0 σ found r Hsub Hfound Hr)
      as (Hext & Hheld & Hview).
    destruct (visit m term (found, σ) r) as [found' σ'].
    cbn [fst snd] in Hext, Hheld, Hview.
    rewrite (IH found' σ'); [| etransitivity; eauto | exact Hheld].
    now rewrite Hview, <- app_assoc.
Qed.

(** Read from the store it leaves, the list that the search on
    references returns is the list that [SearchManager.search] returns on
    the items read from the store it was given. *)
Lemma search_on_references (m : SearchManager.Matcher) (σ : gmap nat Item)
    (items : list nat) (term : string) :
  Forall (fun r => is_Some (σ !! r)) items ->
  map (deref (snd (search m σ items term))) (fst (search m σ items term))
  = SearchManager.search m (map (deref σ) items) term.
Proof.
  intros Hitems. unfold search, SearchManager.search.
  destruct (blank term); [reflexivity |].
  rewrite (fold_visit_view m term σ items Hitems [] σ); [| reflexivity | constructor].
  cbn. now rewrite Search.fold_visit.
Qed.

End Tagging.

(** * Further properties of the code *)

(** ** The item store: what select, unselect and clear keep *)

Module StoreFacts.
Import Js Items Events DataAdapter.

(** [===] on the values of the model is equality. *)
Lemma strict_eq_true (a b : Value) : strict_eq a b = true <-> a = b.
Proof.
  destruct a, b; cbn; split; try discriminate; try reflexivity; intros H.
  - f_equal. now apply Bool.eqb_prop.
  - injection H as ->. apply Bool.eqb_reflx.
  - f_equal. now apply Z.eqb_eq.
  - injection H as ->. apply Z.eqb_refl.
  - f_equal. now apply String.eqb_eq.
  - injection H as ->. apply String.eqb_refl.
  - f_equal. now apply Nat.eqb_eq.
  - injection H as ->. apply Nat.eqb_refl.
Qed.

Lemma strict_eq_refl (a : Value) : strict_eq a a = true.
Proof. now apply strict_eq_true. Qed.

(** An id is among the selected ones, as [select] tests it. *)
Lemma present_iff (d : Item) (sel : list Item) :
  existsb (fun item => strict_eq (id item) (id d)) sel = true
  <-> In (id d) (map id sel).
Proof.
  rewrite existsb_exists, in_map_iff. split.
  - intros (x & Hx & Heq). exists x. split; [| exact Hx].
    now apply strict_eq_true.
  - intros (x & Heq & Hx). exists x. split; [exact Hx |].
    now apply strict_eq_true.
Qed.

Lemma filter_keeps_all (d : Item) (sel : list Item) :
  existsb (fun item => strict_eq (id item) (id d)) sel = false ->
  List.filter (fun item => negb (strict_eq (id item) (id d))) sel = sel.
Proof.
  induction sel as [| a sel IH]; cbn; [reflexivity |].
  intros H. apply orb_false_iff in H as [Ha Hsel].
  rewrite Ha. cbn. now rewrite IH.
Qed.

(** In multiple mode, [unselect] undoes a successful [select] of an id
    that was not selected: the selection and the value are what they
    were, whatever the limit. *)
Theorem unselect_undoes_select (o : Options) (d : Item) (st : State)
    (Hm : multiple o = true)
    (Hnew : existsb (fun item => strict_eq (id item) (id d)) (current st) = false)
    (Hok : fst (select o d st) = true) :
  current (snd (select o d st)) = current st ++ [d]
  /\ current (unselect o d (snd (select o d st))) = current st
  /\ getValue o (unselect o d (snd (select o d st))) = getValue o st.
Proof.
  unfold current in *.
  destruct (Selection.select_multiple_cases o d st Hm)
    as [[Hp _] | [(_ & _ & Hfail & _) | (_ & _ & _ & Hsel)]].
  - cbn zeta in Hp. congruence.
  - congruence.
  - assert (Hback : selection (unselect o d (snd (select o d st)))
                    = selection st).
    { rewrite Selection.selection_unselect, Hsel, List.filter_app. cbn.
      rewrite strict_eq_refl. cbn.
      now rewrite app_nil_r, filter_keeps_all. }
    split; [exact Hsel |]. split; [exact Hback |].
    unfold getValue. now rewrite Hback.
Qed.

Lemma unselect_undoes_select_witness :
  let st := snd (select Selection.limit2 Selection.item1 (create [])) in
  current (snd (select Selection.limit2 Selection.item2 st))
  = current st ++ [Selection.item2]
  /\ current (unselect Selection.limit2 Selection.item2
                (snd (select Selection.limit2 Selection.item2 st)))
     = current st
  /\ getValue Selection.limit2
       (unselect Selection.limit2 Selection.item2
          (snd (select Selection.limit2 Selection.item2 st)))
     = getValue Selection.limit2 st.
Proof.
  exact (unselect_undoes_select Selection.limit2 Selection.item2
           (snd (select Selection.limit2 Selection.item1 (create [])))
           eq_refl eq_refl eq_refl).
Defined.

Lemma NoDup_map_filter {A B : Type} (f : A -> B) (p : A -> bool) (l : list A) :
  List.NoDup (map f l) -> List.NoDup (map f (List.filter p l)).
Proof.
  induction l as [| a l IH]; cbn; intros H; [constructor |].
  apply List.NoDup_cons_iff in H as [Hnotin Hnd].
  destruct (p a); cbn; [| now apply IH].
  apply List.NoDup_cons_iff. split; [| now apply IH].
  intros Hin. apply Hnotin. apply in_map_iff in Hin as (x & Hx & Hin).
  apply filter_In in Hin as [Hin _]. apply in_map_iff. eauto.
Qed.

Lemma NoDup_map_snoc {A B : Type} (f : A -> B) (l : list A) (a : A) :
  List.NoDup (map f l) -> ~ In (f a) (map f l) ->
  List.NoDup (map f (l ++ [a])).
Proof.
  induction l as [| b l IH]; cbn; intros Hnd Hnotin.
  - constructor; [intros [] | constructor].
  - apply List.NoDup_cons_iff in Hnd as [Hb Hnd].
    apply List.NoDup_cons_iff. split.
    + rewrite map_app, in_app_iff. cbn. intros [Hin | [Heq | []]]; [tauto |].
      apply Hnotin. now left.
    + apply IH; [exact Hnd | tauto].
Qed.

Lemma step_keeps_distinct (o : Options) (c : Call) (st : State) :
  List.NoDup (map id (selection st)) ->
  List.NoDup (map id (selection (step o st c))).
Proof.
  intros Hnd. destruct c as [d | d]; cbn [step].
  - destruct (multiple o) eqn:Hm.
    + destruct (Selection.select_multiple_cases o d st Hm)
        as [[_ ->] | [(_ & _ & _ & ->) | (Hnew & _ & _ & ->)]]; cbn [snd];
        try exact Hnd.
      apply NoDup_map_snoc; [exact Hnd |].
      intros Hin. apply present_iff in Hin. cbn zeta in Hnew. congruence.
    + destruct (Selection.select_single o d st Hm) as [_ ->]. cbn.
      constructor; [intros [] | constructor].
  - rewrite Selection.selection_unselect. now apply NoDup_map_filter.
Qed.

(** In either mode, no sequence of [select] and [unselect] calls makes
    two selected items have the same id (ids compared as [===] does): a
    selection without such a pair, the empty one for instance, never gets
    one. *)
Theorem selected_ids_stay_distinct (o : Options) (calls : list Call)
    (st : State) (H : List.NoDup (map id (current st))) :
  List.NoDup (map id (current (run o calls st))).
Proof.
  unfold current in *. revert st H.
  induction calls as [| c calls IH]; intros st H; cbn [run fold_left].
  - exact H.
  - apply IH. now apply step_keeps_distinct.
Qed.

Lemma selected_ids_stay_distinct_witness :
  List.NoDup (map id (current (run Selection.limit2
                                 [CallSelect Selection.item1;
                                  CallSelect Selection.item1;
                                  CallSelect Selection.item2;
                                  CallUnselect Selection.item1]
                                 (create [])))).
Proof.
  apply (selected_ids_stay_distinct Selection.limit2 _ (create [])).
  constructor.
Defined.

End StoreFacts.

(** ** Loading from the host element *)

Module HostElementFacts.
Import Js Items Events HostElement.

(** The rendered entries of a list, entry by entry. *)
Lemma flatten_flat_map (rs : list Item) :
  ResultsList.flatten rs
  = flat_map (fun it => match children it with
                        | IsArray kids => kids
                        | NotArray _ => [it]
                        end) rs.
Proof.
  unfold ResultsList.flatten.
  enough (forall acc,
             fold_left
               (fun flat item =>
                  match children item with
                  | IsArray kids => flat ++ kids
                  | NotArray _ => flat ++ [item]
                  end) rs acc
             = acc ++ flat_map (fun it => match children it with
                                          | IsArray kids => kids
                                          | NotArray _ => [it]
                                          end) rs) as H by apply (H []).
  induction rs as [| it rs IH]; intros acc; cbn.
  - now rewrite app_nil_r.
  - rewrite IH. destruct (children it); now rewrite <- app_assoc.
Qed.

(** An option is a placeholder exactly when its value is empty. *)
Lemma placeholder_iff_empty_value (o : OptionElement) :
  _isPlaceholder (_normalizeOption o) = String.eqb (opt_value o) "".
Proof.
  unfold _isPlaceholder, _normalizeOption, prop. cbn.
  destruct (String.eqb (opt_value o) "") eqn:He; cbn; [reflexivity |].
  now rewrite He.
Qed.

Lemma kept_spec (options : list OptionElement) :
  kept options
  = map _normalizeOption
        (List.filter (fun o => negb (String.eqb (opt_value o) "")) options).
Proof.
  unfold kept. induction options as [| o os IH]; cbn; [reflexivity |].
  rewrite placeholder_iff_empty_value.
  destruct (String.eqb (opt_value o) ""); cbn; now rewrite IH.
Qed.

Lemma kept_app (a b : list OptionElement) :
  kept (a ++ b) = kept a ++ kept b.
Proof. unfold kept. now rewrite map_app, List.filter_app. Qed.

Lemma kept_flat_map (gs : list (string * list OptionElement)) :
  flat_map (fun g => kept (snd g)) gs = kept (flat_map snd gs).
Proof.
  induction gs as [| [label os] gs IH]; cbn [flat_map snd]; [reflexivity |].
  now rewrite kept_app, IH.
Qed.

Lemma kept_have_ids (options : list OptionElement) :
  List.Forall (fun it => exists v, id it = Str v /\ v <> ""%string)
              (kept options).
Proof.
  rewrite kept_spec. induction options as [| o os IH]; cbn; [constructor |].
  destruct (String.eqb (opt_value o) "") eqn:He; cbn; [exact IH |].
  constructor; [| exact IH].
  exists (opt_value o). unfold _normalizeOption. rewrite He. cbn.
  split; [reflexivity |]. now apply String.eqb_neq.
Qed.

Lemma kept_are_leaves (options : list OptionElement) :
  List.Forall (fun it => children it = NotArray Undefined) (kept options).
Proof.
  rewrite kept_spec.
  induction (List.filter _ options) as [| o os IH]; cbn; constructor; auto.
Qed.

Lemma flatten_leaves (l : list Item) :
  List.Forall (fun it => children it = NotArray Undefined) l ->
  ResultsList.flatten l = l.
Proof.
  rewrite flatten_flat_map.
  induction 1 as [| it l Hit _ IH]; cbn; [reflexivity |].
  now rewrite Hit, IH.
Qed.

(** What the loop over the optgroups has pushed. *)
Lemma load_groups_spec (gs : list (string * list OptionElement))
    (index : nat) (data : list Item) :
  let loaded := snd (fold_left load_group gs (index, data)) in
  ResultsList.flatten loaded
  = ResultsList.flatten data ++ flat_map (fun g => kept (snd g)) gs
  /\ (List.Forall (fun it => forall kids, children it = IsArray kids -> kids <> [])
                  data ->
      List.Forall (fun it => forall kids, children it = IsArray kids -> kids <> [])
                  loaded).
Proof.
  cbn zeta. revert index data.
  induction gs as [| [label options] gs IH]; intros index data;
    cbn [fold_left flat_map snd].
  - now rewrite app_nil_r.
  - unfold load_group at 2 4.
    destruct (0 <? length (kept options))%nat eqn:Hlen.
    + destruct (IH (S index)
                   (data ++ [MkItem
                               (Str ("group-" ++ string_of_Z (Z.of_nat index)
                                     ++ "-" ++ label))
                               (Str label) Undefined Undefined
                               (IsArray (kept options)) Undefined Undefined []]))
        as [Hflat Hgroups].
      split.
      * rewrite Hflat, !flatten_flat_map, flat_map_app. cbn.
        now rewrite app_nil_r, <- app_assoc.
      * intros Hdata. apply Hgroups. apply Forall_app. split; [exact Hdata |].
        constructor; [| constructor]. cbn. intros kids [= <-] Hnil.
        rewrite Hnil in Hlen. discriminate.
    + destruct (IH (S index) data) as [Hflat Hgroups].
      split; [| exact Hgroups].
      rewrite Hflat. f_equal.
      destruct (kept options); [reflexivity | discriminate].
Qed.

Lemma loaded_entries (nodes : list Node) (st : DataAdapter.State) :
  ResultsList.flatten (DataAdapter.data (loadFromElement nodes st))
  = map _normalizeOption
        (List.filter (fun o => negb (String.eqb (opt_value o) ""))
                     (flat_map snd (optgroups nodes) ++ standalone nodes)).
Proof.
  unfold loadFromElement. cbn [DataAdapter.data].
  destruct (load_groups_spec (optgroups nodes) 0%nat []) as [Hflat _].
  cbn zeta in Hflat.
  rewrite flatten_flat_map, flat_map_app, <- !flatten_flat_map.
  rewrite Hflat, (flatten_leaves _ (kept_are_leaves _)). cbn.
  now rewrite <- kept_spec, kept_app, kept_flat_map.
Qed.

(** What [loadFromElement] makes of the host element: the entries to
    render are the options of the optgroups, in document order, followed
    by the options outside any optgroup -- whatever their place in the
    document -- each as [_normalizeOption] gives it; options with an empty
    value are left out, so every entry has a non-empty string id; and
    every group that is loaded has at least one child. *)
Theorem loadFromElement_entries (nodes : list Node) (st : DataAdapter.State) :
  let data := DataAdapter.data (loadFromElement nodes st) in
  ResultsList.flatten data
  = map _normalizeOption
        (List.filter (fun o => negb (String.eqb (opt_value o) ""))
                     (flat_map snd (optgroups nodes) ++ standalone nodes))
  /\ List.Forall (fun it => exists v, id it = Str v /\ v <> ""%string)
                 (ResultsList.flatten data)
  /\ List.Forall (fun it => forall kids, children it = IsArray kids -> kids <> [])
                 data
  /\ DataAdapter.selection (loadFromElement nodes st) = DataAdapter.selection st.
Proof.
  cbn zeta. pose proof (loaded_entries nodes st) as Hentries.
  split; [exact Hentries |]. split; [| split; [| reflexivity]].
  - rewrite Hentries, <- kept_spec. apply kept_have_ids.
  - unfold loadFromElement. cbn [DataAdapter.data].
    destruct (load_groups_spec (optgroups nodes) 0%nat []) as [_ Hgroups].
    cbn zeta in Hgroups.
    apply Forall_app. split; [apply Hgroups; constructor |].
    eapply List.Forall_impl; [| apply kept_are_leaves].
    intros it Hit kids Hk. congruence.
Qed.

Lemma all_options_split (nodes : list Node) (o : OptionElement) :
  In o (all_options nodes)
  <-> In o (flat_map snd (optgroups nodes) ++ standalone nodes).
Proof.
  rewrite in_app_iff. unfold all_options, optgroups, standalone.
  induction nodes as [| [o' | label os] nodes IH]; cbn.
  - tauto.
  - rewrite IH. tauto.
  - rewrite !in_app_iff, IH. tauto.
Qed.

(** [init()] without a [data] option.  The initial selection is made of
    the selected options of the host element, placeholders included:
    every selected option is in the selection, normalized, and every
    item of the selection is such an option, with the option's value, a
    string, as its id.  A selected item that is not a placeholder is one
    of the entries loaded from the element, with the same fields; an
    option with an empty value, a placeholder, is not among the loaded
    entries, so a selected placeholder is in the selection although it
    is not in the data. *)
Theorem initial_selection_is_loaded (nodes : list Node) (st : DataAdapter.State) :
  let st' := init None nodes st in
  (forall it,
      In it (DataAdapter.selection st') ->
      _isPlaceholder it = false ->
      In it (ResultsList.flatten (DataAdapter.data st')))
  /\ (forall it,
        In it (DataAdapter.selection st') ->
        exists o, In o (all_options nodes) /\ opt_selected o = true
                  /\ it = _normalizeOption o /\ id it = Str (opt_value o))
  /\ (forall o,
        In o (all_options nodes) -> opt_selected o = true ->
        In (_normalizeOption o) (DataAdapter.selection st'))
  /\ (forall o,
        opt_value o = ""%string ->
        _isPlaceholder (_normalizeOption o) = true
        /\ ~ In (_normalizeOption o)
                (ResultsList.flatten (DataAdapter.data st'))).
Proof.
  cbn zeta. unfold init, loadInitialSelection.
  cbn [DataAdapter.selection DataAdapter.data].
  assert (Hsel : forall it,
             In it (map _normalizeOption
                        (List.filter opt_selected (all_options nodes))) ->
             exists o, In o (all_options nodes) /\ opt_selected o = true
                       /\ it = _normalizeOption o /\ id it = Str (opt_value o)).
  { intros it Hin. apply in_map_iff in Hin as (o & <- & Ho).
    apply filter_In in Ho as [Ho Hs]. exists o. repeat split; auto.
    unfold _normalizeOption. cbn.
    destruct (String.eqb (opt_value o) "") eqn:He; cbn; [| reflexivity].
    apply String.eqb_eq in He. now rewrite He. }
  split; [| split; [exact Hsel | split]].
  - intros it Hin Hplace. destruct (Hsel it Hin) as (o & Ho & _ & -> & _).
    rewrite (loaded_entries nodes st).
    apply in_map. apply filter_In. split.
    + now apply all_options_split.
    + now rewrite <- placeholder_iff_empty_value, Hplace.
  - intros o Ho Hs. apply in_map. apply filter_In. auto.
  - intros o Hempty. split.
    + rewrite placeholder_iff_empty_value, Hempty. reflexivity.
    + rewrite (loaded_entries nodes st). intros Hin.
      apply in_map_iff in Hin as (o' & Heq & Ho').
      apply filter_In in Ho' as [_ Hfilled].
      assert (Hid : id (_normalizeOption o') = id (_normalizeOption o))
        by now rewrite Heq.
      unfold _normalizeOption in Hid. cbn in Hid. rewrite Hempty in Hid.
      rewrite Hfilled in Hid. cbn in Hid. injection Hid as Hid.
      rewrite Hid in Hfilled. discriminate.
Qed.

(** A selected placeholder and a selected option with a value. *)
Example selected_placeholder :
  let nodes := [Standalone (MkOption "" "Choose" false true 0);
                Standalone (MkOption "a" "A" false true 1)] in
  let st' := init None nodes (DataAdapter.create []) in
  map id (DataAdapter.selection st') = [Str ""; Str "a"]
  /\ map id (ResultsList.flatten (DataAdapter.data st')) = [Str "a"].
Proof. repeat split. Qed.

End HostElementFacts.

(** ** Finding an item by its id, and the programmatic API *)

Module LookupFacts.
Import Js Items Events ItemLookup.

Lemma find_app {A : Type} (p : A -> bool) (a b : list A) :
  List.find p (a ++ b)
  = match List.find p a with
    | Some x => Some x
    | None => List.find p b
    end.
Proof.
  induction a as [| x a IH]; cbn; [reflexivity |].
  now destruct (p x).
Qed.

Lemma find_first_nodes (idv : Value) (l : list Item) :
  List.Forall (fun it => find_in idv it = List.find (has_id idv) (nodes_of it)) l ->
  find_first (find_in idv) l = List.find (has_id idv) (flat_map nodes_of l).
Proof.
  induction 1 as [| it l Hit _ IH]; cbn; [reflexivity |].
  rewrite find_app, <- Hit. fold (find_first (find_in idv)).
  now rewrite IH.
Qed.

Lemma find_in_nodes (idv : Value) (item : Item) :
  find_in idv item = List.find (has_id idv) (nodes_of item).
Proof.
  induction item using Normalization.Item_nested_ind; cbn; unfold has_id; cbn.
  - now destruct (String.eqb _ _).
  - destruct (String.eqb _ _); [reflexivity |].
    now apply find_first_nodes.
Qed.

Lemma findItemById_find (items : list Item) (idv : Value) :
  _findItemById items idv = List.find (has_id idv) (nodes items).
Proof.
  unfold _findItemById, nodes. apply find_first_nodes.
  apply Forall_forall. intros it _. apply find_in_nodes.
Qed.

Lemma findItemById_spelling (items : list Item) (idv idv' : Value) :
  String_ idv' = String_ idv ->
  _findItemById items idv' = _findItemById items idv.
Proof.
  intros Heq. rewrite !findItemById_find. unfold has_id. now rewrite Heq.
Qed.

Lemma findItemById_sound (items : list Item) (idv : Value) (found : Item) :
  _findItemById items idv = Some found ->
  In found (nodes items) /\ String_ (id found) = String_ idv.
Proof.
  intros Hfound. rewrite findItemById_find in Hfound.
  apply find_some in Hfound as [Hin Hid]. split; [exact Hin |].
  now apply String.eqb_eq.
Qed.

Lemma findItemById_none (items : list Item) (idv : Value) :
  _findItemById items idv = None <->
  forall it, In it (nodes items) -> String_ (id it) <> String_ idv.
Proof.
  rewrite findItemById_find. split.
  - intros Hnone it Hin Heq.
    pose proof (find_none _ _ Hnone it Hin) as Hno.
    unfold has_id in Hno. apply String.eqb_neq in Hno. contradiction.
  - intros Hall. destruct (List.find _ _) as [found |] eqn:Hfound;
      [| reflexivity].
    apply find_some in Hfound as [Hin Hid].
    apply String.eqb_eq in Hid. now destruct (Hall found Hin).
Qed.

(** [_findItemById] returns the first item, in the order in which the
    list is displayed with each group before its children, whose id is
    the wanted one once both are turned into strings; so the number 1
    and the string "1" find the same item.  What it returns is in the
    list (at some depth) and has that id; it returns nothing exactly
    when no item, at any depth, has it. *)
Theorem findItemById_first_match (items : list Item) (idv : Value) :
  _findItemById items idv = List.find (has_id idv) (nodes items)
  /\ (forall idv', String_ idv' = String_ idv ->
                   _findItemById items idv' = _findItemById items idv)
  /\ (forall found, _findItemById items idv = Some found ->
                    In found (nodes items)
                    /\ String_ (id found) = String_ idv)
  /\ (_findItemById items idv = None <->
      forall it, In it (nodes items) -> String_ (id it) <> String_ idv).
Proof.
  split; [apply findItemById_find |]. split; [| split].
  - intros idv' Heq. now apply findItemById_spelling.
  - intros found Hfound. now apply findItemById_sound.
  - apply findItemById_none.
Qed.

Lemma select_keeps_data (o : DataAdapter.Options) (d : Item)
    (st : DataAdapter.State) :
  DataAdapter.data (snd (DataAdapter.select o d st)) = DataAdapter.data st.
Proof.
  unfold DataAdapter.select.
  destruct (negb (DataAdapter.multiple o)); [reflexivity |].
  destruct (negb (existsb _ _)); [| reflexivity].
  now destruct (_ && _).
Qed.

(** Selecting the same item again changes nothing in the selection. *)
Lemma select_again (o : DataAdapter.Options) (d : Item) (st : DataAdapter.State) :
  DataAdapter.selection
    (snd (DataAdapter.select o d (snd (DataAdapter.select o d st))))
  = DataAdapter.selection (snd (DataAdapter.select o d st)).
Proof.
  destruct (DataAdapter.multiple o) eqn:Hm.
  - destruct (Selection.select_multiple_cases o d st Hm)
      as [[Hp Hsame] | [(Hnew & Hfull & _ & Hsel) | (_ & _ & _ & Hsel)]];
      cbn zeta in *.
    + rewrite Hsame. cbn [snd]. now rewrite Hsame.
    + destruct (Selection.select_multiple_cases
                  o d (snd (DataAdapter.select o d st)) Hm)
        as [[_ ->] | [(_ & _ & _ & ->) | (_ & Hfull' & _ & _)]];
        try reflexivity.
      cbn zeta in Hfull'. rewrite Hsel in Hfull'. congruence.
    + destruct (Selection.select_multiple_cases
                  o d (snd (DataAdapter.select o d st)) Hm)
        as [[_ ->] | [(_ & _ & _ & ->) | (Hnew' & _ & _ & _)]];
        try reflexivity.
      cbn zeta in Hnew'. rewrite Hsel, existsb_app in Hnew'. cbn in Hnew'.
      rewrite StoreFacts.strict_eq_refl, orb_true_r in Hnew'. discriminate.
  - destruct (Selection.select_single o d st Hm) as [_ ->].
    now destruct (Selection.select_single
                    o d (snd (DataAdapter.select o d st)) Hm) as [_ ->].
Qed.

(** Through [select(id)] of the API the spelling of an id does not
    matter: two ids that are the same string select the same item, and
    selecting it a second time, under either spelling and in either
    mode, leaves the selection as the first call made it. *)
Theorem api_select_by_either_spelling (o : DataAdapter.Options) (a b : Value)
    (st : DataAdapter.State) (Hsame : String_ a = String_ b) :
  Api.select o b st = Api.select o a st
  /\ DataAdapter.current (Api.select o b (Api.select o a st))
     = DataAdapter.current (Api.select o a st).
Proof.
  pose proof (fun v => findItemById_spelling (DataAdapter.data st) a v)
    as Hspell.
  assert (Hfirst : Api.select o b st = Api.select o a st).
  { unfold Api.select, DataAdapter.query. now rewrite (Hspell b) by auto. }
  split; [exact Hfirst |].
  unfold DataAdapter.current, Api.select at 1, DataAdapter.query.
  assert (Hdata : DataAdapter.data (Api.select o a st) = DataAdapter.data st).
  { unfold Api.select.
    destruct (_findItemById _ a) as [item |]; [| reflexivity].
    destruct (negb (truthy (disabled item))); [| reflexivity].
    apply select_keeps_data. }
  rewrite Hdata.
  rewrite (Hspell b) by auto.
  unfold Api.select, DataAdapter.query.
  destruct (_findItemById (DataAdapter.data st) a) as [item |]; [| reflexivity].
  destruct (negb (truthy (disabled item))); [| reflexivity].
  apply select_again.
Qed.

(** The data holds the item with the numeric id 1; [select("1")] after
    [select(1)] finds that item again and does not add to the selection. *)
Lemma api_select_by_either_spelling_witness :
  let o := DataAdapter.MkOptions true 0 None in
  let st := DataAdapter.setData [Selection.item1] (DataAdapter.create []) in
  Api.select o (Str "1") st = Api.select o (Num 1) st
  /\ DataAdapter.current (Api.select o (Str "1") (Api.select o (Num 1) st))
     = DataAdapter.current (Api.select o (Num 1) st).
Proof.
  exact (api_select_by_either_spelling
           (DataAdapter.MkOptions true 0 None) (Num 1) (Str "1")
           (DataAdapter.setData [Selection.item1] (DataAdapter.create []))
           eq_refl).
Defined.

Lemma filter_map_id (v : Value) (sel : list Item) :
  map id (List.filter (fun item => negb (strict_eq (id item) v)) sel)
  = List.filter (fun i => negb (strict_eq i v)) (map id sel).
Proof.
  induction sel as [| a sel IH]; cbn; [reflexivity |].
  destruct (strict_eq (id a) v); cbn; now rewrite IH.
Qed.

Lemma find_none_filter (v : Value) (sel : list Item) :
  List.find (fun i => strict_eq (id i) v) sel = None ->
  List.filter (fun i => negb (strict_eq i v)) (map id sel) = map id sel.
Proof.
  induction sel as [| a sel IH]; cbn; [reflexivity |].
  destruct (strict_eq (id a) v); [discriminate |]. cbn.
  intros H. now rewrite IH.
Qed.

(** [unselect(id)] of the API, in multiple mode, removes from the value
    every id that is [===] the given one and nothing else, so an id
    given in another spelling (the string "1" for the number 1) removes
    nothing; in single mode the call does nothing. *)
Theorem api_unselect_is_strict (o : DataAdapter.Options) (idv : Value)
    (st : DataAdapter.State) :
  (DataAdapter.multiple o = true ->
   Api.val o (Api.unselect o idv st)
   = Ids (List.filter (fun i => negb (strict_eq i idv))
                      (map id (DataAdapter.current st))))
  /\ (DataAdapter.multiple o = true ->
      ~ In idv (map id (DataAdapter.current st)) ->
      Api.unselect o idv st = st)
  /\ (DataAdapter.multiple o = false -> Api.unselect o idv st = st).
Proof.
  unfold Api.val, Api.unselect, DataAdapter.current. split; [| split].
  - intros Hm. rewrite Hm. cbn [negb].
    destruct (List.find _ _) as [item |] eqn:Hfind.
    + apply find_some in Hfind as [_ Hid].
      apply StoreFacts.strict_eq_true in Hid. subst idv.
      rewrite Selection.selection_unselect. now rewrite filter_map_id.
    + now rewrite find_none_filter.
  - intros Hm Hnotin. rewrite Hm. cbn [negb].
    destruct (List.find _ _) as [item |] eqn:Hfind; [| reflexivity].
    apply find_some in Hfind as [Hin Hid].
    apply StoreFacts.strict_eq_true in Hid. subst idv.
    destruct Hnotin. now apply in_map.
  - now intros ->.
Qed.

(** The number 1 is selected; [unselect("1")] leaves it selected,
    [unselect(1)] removes it. *)
Lemma api_unselect_is_strict_witness :
  let o := DataAdapter.MkOptions true 0 None in
  let st := snd (DataAdapter.select o Selection.item1 (DataAdapter.create [])) in
  Api.unselect o (Str "1") st = st
  /\ Api.val o (Api.unselect o (Num 1) st) = Ids [].
Proof.
  cbn zeta.
  destruct (api_unselect_is_strict
              (DataAdapter.MkOptions true 0 None) (Str "1")
              (snd (DataAdapter.select (DataAdapter.MkOptions true 0 None)
                      Selection.item1 (DataAdapter.create []))))
    as (_ & Hkeep & _).
  split.
  - apply Hkeep; [reflexivity |]. cbn. intros [H | []]. discriminate H.
  - destruct (api_unselect_is_strict
                (DataAdapter.MkOptions true 0 None) (Num 1)
                (snd (DataAdapter.select (DataAdapter.MkOptions true 0 None)
                        Selection.item1 (DataAdapter.create []))))
      as (Hval & _). rewrite (Hval eq_refl). reflexivity.
Defined.

(** *** The store after [setData], entry by entry *)

Lemma flatten_normalized (rs : list Item) :
  ResultsList.flatten (map DataAdapter._normalizeItem rs)
  = map DataAdapter._normalizeItem (ResultsList.flatten rs).
Proof.
  rewrite !HostElementFacts.flatten_flat_map.
  induction rs as [| it rs IH]; cbn [map flat_map]; [reflexivity |].
  rewrite map_app, IH. f_equal.
  destruct it as [i t d s [v | kids] e g x]; cbn.
  - now destruct (truthy e).
  - now destruct (truthy e).
Qed.

Lemma normalized_id (it : Item) :
  strict_eq (id it) Undefined = false ->
  id (DataAdapter._normalizeItem it) = id it.
Proof.
  intros H. destruct it as [i t d s [v | kids] e g x]; cbn in *;
    rewrite H; cbn; now destruct (truthy e).
Qed.

Lemma in_nodes_of_flatten (rs : list Item) (it : Item) :
  In it (ResultsList.flatten rs) -> In it (nodes rs).
Proof.
  rewrite HostElementFacts.flatten_flat_map. unfold nodes.
  induction rs as [| r rs IH]; cbn [flat_map]; [tauto |].
  rewrite !in_app_iff. intros [Hin | Hin]; [left | right; auto].
  destruct r as [i t d s [v | kids] e g x]; cbn in *.
  - tauto.
  - right. induction kids as [| k kids IHk]; cbn in *; [tauto |].
    destruct Hin as [<- | Hin].
    + apply in_app_iff. left. destruct k; now left.
    + apply in_app_iff. right. auto.
Qed.

(** [setData] neither adds, drops nor reorders what is rendered: the
    entries of the stored data are the normalized entries of the data
    given, one for one, at the top level and inside groups; the
    selection is not touched.  So an entry that the list displays with
    a defined id is found again in the store by [_findItemById] under
    that id. *)
Theorem setData_keeps_entries (d : list Item) (st : DataAdapter.State) :
  let st' := DataAdapter.setData d st in
  ResultsList.flatten (DataAdapter.data st')
  = map DataAdapter._normalizeItem (ResultsList.flatten d)
  /\ length (DataAdapter.data st') = length d
  /\ DataAdapter.selection st' = DataAdapter.selection st
  /\ (forall entry,
        In entry (ResultsList.flatten d) ->
        strict_eq (id entry) Undefined = false ->
        exists found,
          _findItemById (DataAdapter.query st') (Str (String_ (id entry)))
          = Some found
          /\ String_ (id found) = String_ (id entry)).
Proof.
  cbn zeta. cbn [DataAdapter.setData DataAdapter.data DataAdapter.do_emit
                 DataAdapter.selection DataAdapter.query].
  split; [apply flatten_normalized |].
  split; [apply length_map |]. split; [reflexivity |].
  intros entry Hin Hid.
  pose proof (findItemById_sound (map DataAdapter._normalizeItem d)
                (Str (String_ (id entry)))) as Hsound.
  pose proof (findItemById_none (map DataAdapter._normalizeItem d)
                (Str (String_ (id entry)))) as Hnone.
  destruct (_findItemById _ _) as [found |] eqn:Hfound.
  - exists found. split; [reflexivity |]. now apply Hsound.
  - exfalso. destruct Hnone as [Hnone _].
    apply (Hnone eq_refl (DataAdapter._normalizeItem entry)).
    + apply in_nodes_of_flatten. rewrite flatten_normalized.
      now apply in_map.
    + now rewrite normalized_id.
Qed.

End LookupFacts.

(** ** Home, End and the arrow keys *)

Module NavigationFacts.
Import Js Items KeyboardManager KeyboardManagerEnds.

(** A list as [ResultsList.update] and [highlight] leave it. *)
Definition consistent (rl : ResultsList.State) : Prop :=
  ResultsList.flatResults rl = _getFlatRenderedItems (ResultsList.results rl).

Lemma highlight_in_range (i : Z) (rl : ResultsList.State) :
  consistent rl ->
  0 <= i < Z.of_nat (length (_getFlatRenderedItems (ResultsList.results rl))) ->
  ResultsList.highlightedIndex (ResultsList.highlight i rl) = i
  /\ ResultsList.results (ResultsList.highlight i rl) = ResultsList.results rl
  /\ consistent (ResultsList.highlight i rl).
Proof.
  intros Hc Hi. unfold ResultsList.highlight. rewrite Hc.
  replace (i <? 0) with false by (symmetry; apply Z.ltb_ge; lia).
  replace (_ <=? i) with false by (symmetry; apply Z.leb_gt; lia).
  cbn. split; [reflexivity |]. split; [reflexivity |].
  reflexivity.
Qed.

Lemma scan_up_spec (rendered : list Item) (n : nat) (i : Z) :
  match scan_up rendered n i with
  | Some k => i <= k < i + Z.of_nat n
              /\ disabled_at rendered k = false
              /\ forall j, i <= j < k -> disabled_at rendered j = true
  | None => forall j, i <= j < i + Z.of_nat n -> disabled_at rendered j = true
  end.
Proof.
  revert i. induction n as [| n IH]; intros i; cbn [scan_up].
  - intros j Hj. lia.
  - destruct (disabled_at rendered i) eqn:Hd; cbn [negb].
    + specialize (IH (i + 1)). destruct (scan_up rendered n (i + 1)) as [k |].
      * destruct IH as (Hk & Hen & Hbefore). split; [lia |]. split; [exact Hen |].
        intros j Hj. destruct (Z.eq_dec j i) as [-> | Hne]; [exact Hd |].
        apply Hbefore. lia.
      * intros j Hj. destruct (Z.eq_dec j i) as [-> | Hne]; [exact Hd |].
        apply IH. lia.
    + split; [lia |]. split; [exact Hd |]. intros j Hj. lia.
Qed.

Lemma scan_down_spec (rendered : list Item) (n : nat) (i : Z) :
  match scan_down rendered n i with
  | Some k => i - Z.of_nat n < k <= i
              /\ disabled_at rendered k = false
              /\ forall j, k < j <= i -> disabled_at rendered j = true
  | None => forall j, i - Z.of_nat n < j <= i -> disabled_at rendered j = true
  end.
Proof.
  revert i. induction n as [| n IH]; intros i; cbn [scan_down].
  - intros j Hj. lia.
  - destruct (disabled_at rendered i) eqn:Hd; cbn [negb].
    + specialize (IH (i - 1)). destruct (scan_down rendered n (i - 1)) as [k |].
      * destruct IH as (Hk & Hen & Hafter). split; [lia |]. split; [exact Hen |].
        intros j Hj. destruct (Z.eq_dec j i) as [-> | Hne]; [exact Hd |].
        apply Hafter. lia.
      * intros j Hj. destruct (Z.eq_dec j i) as [-> | Hne]; [exact Hd |].
        apply IH. lia.
    + split; [lia |]. split; [exact Hd |]. intros j Hj. lia.
Qed.

(** Home highlights the first entry that is not disabled and End the
    last one, whatever was highlighted before; when every entry is
    disabled, or the list is empty, both leave the list as it is. *)
Theorem ends_reach_enabled_entries (rl : ResultsList.State)
    (Hc : consistent rl) :
  let rendered := _getFlatRenderedItems (ResultsList.results rl) in
  let total := Z.of_nat (length rendered) in
  ((exists k, 0 <= k < total
              /\ disabled_at rendered k = false
              /\ (forall j, 0 <= j < k -> disabled_at rendered j = true)
              /\ ResultsList.highlightedIndex (_navigateToFirst rl) = k)
   \/ ((forall j, 0 <= j < total -> disabled_at rendered j = true)
       /\ _navigateToFirst rl = rl))
  /\ ((exists k, 0 <= k < total
                 /\ disabled_at rendered k = false
                 /\ (forall j, k < j < total -> disabled_at rendered j = true)
                 /\ ResultsList.highlightedIndex (_navigateToLast rl) = k)
      \/ ((forall j, 0 <= j < total -> disabled_at rendered j = true)
          /\ _navigateToLast rl = rl)).
Proof.
  cbn zeta. split.
  - unfold _navigateToFirst.
    pose proof (scan_up_spec (_getFlatRenderedItems (ResultsList.results rl))
                  (length (_getFlatRenderedItems (ResultsList.results rl))) 0)
      as Hscan.
    destruct (scan_up _ _ 0) as [k |].
    + left. destruct Hscan as (Hk & Hen & Hbefore). exists k.
      split; [lia |]. split; [exact Hen |]. split; [exact Hbefore |].
      apply highlight_in_range; [exact Hc | lia].
    + right. split; [| reflexivity]. intros j Hj. apply Hscan. lia.
  - unfold _navigateToLast.
    pose proof (scan_down_spec (_getFlatRenderedItems (ResultsList.results rl))
                  (length (_getFlatRenderedItems (ResultsList.results rl)))
                  (Z.of_nat (length (_getFlatRenderedItems
                                       (ResultsList.results rl))) - 1))
      as Hscan.
    destruct (scan_down _ _ _) as [k |].
    + left. destruct Hscan as (Hk & Hen & Hafter). exists k.
      split; [lia |]. split; [exact Hen |].
      split; [intros j Hj; apply Hafter; lia |].
      apply highlight_in_range; [exact Hc | lia].
    + right. split; [| reflexivity]. intros j Hj. apply Hscan. lia.
Qed.

(** A disabled entry, an enabled one, a disabled one. *)
Definition middle_enabled : ResultsList.State :=
  ResultsList.update
    [Navigation.disabled_item; Selection.item2; Navigation.disabled_item]
    ResultsList.create.

Lemma ends_reach_enabled_entries_witness :
  let rendered := _getFlatRenderedItems (ResultsList.results middle_enabled) in
  let total := Z.of_nat (length rendered) in
  ((exists k, 0 <= k < total
              /\ disabled_at rendered k = false
              /\ (forall j, 0 <= j < k -> disabled_at rendered j = true)
              /\ ResultsList.highlightedIndex (_navigateToFirst middle_enabled)
                 = k)
   \/ ((forall j, 0 <= j < total -> disabled_at rendered j = true)
       /\ _navigateToFirst middle_enabled = middle_enabled))
  /\ ((exists k, 0 <= k < total
                 /\ disabled_at rendered k = false
                 /\ (forall j, k < j < total -> disabled_at rendered j = true)
                 /\ ResultsList.highlightedIndex (_navigateToLast middle_enabled)
                    = k)
      \/ ((forall j, 0 <= j < total -> disabled_at rendered j = true)
          /\ _navigateToLast middle_enabled = middle_enabled)).
Proof. exact (ends_reach_enabled_entries middle_enabled eq_refl). Defined.

(** On that list Home and End both highlight index 1. *)
Example ends_on_middle_enabled :
  ResultsList.highlightedIndex (_navigateToFirst middle_enabled) = 1
  /\ ResultsList.highlightedIndex (_navigateToLast middle_enabled) = 1.
Proof. split; reflexivity. Qed.

(** *** Arrow keys *)

(** The index [m + 1] steps from [x] in [direction], around the list. *)
Definition ahead (total direction x : Z) (m : nat) : Z :=
  Nat.iter (S m) (fun y => wrap total (y + direction)) x.

Lemma ahead_shift (total direction x : Z) (m : nat) :
  ahead total direction (wrap total (x + direction)) m
  = ahead total direction x (S m).
Proof.
  unfold ahead.
  assert (H : forall k, Nat.iter k (fun y => wrap total (y + direction))
                                 (wrap total (x + direction))
                        = wrap total
                            (Nat.iter k (fun y => wrap total (y + direction)) x
                             + direction)).
  { induction k as [| k IH]; [reflexivity |].
    rewrite !Nat.iter_succ. now rewrite IH. }
  rewrite (H (S m)). now rewrite (Nat.iter_succ (S m)).
Qed.

(** How the loop of [_navigate] ends, in terms of the entries ahead of
    where it starts. *)
Lemma skip_disabled_trace (fuel : nat) (rendered : list Item)
    (total direction currentIndex x : Z) :
  match skip_disabled fuel rendered total direction currentIndex
                      (wrap total (x + direction)) with
  | Some (Exited i) =>
      exists m, i = ahead total direction x m
                /\ disabled_at rendered i = false
                /\ forall m', (m' < m)%nat ->
                              disabled_at rendered (ahead total direction x m')
                              = true
  | Some Returned =>
      exists m, ahead total direction x (S m) = currentIndex
                /\ forall m', (m' <= m)%nat ->
                              disabled_at rendered (ahead total direction x m')
                              = true
  | None => True
  end.
Proof.
  revert x. induction fuel as [| fuel IH]; intros x; cbn [skip_disabled];
    [exact I |].
  destruct (disabled_at rendered (wrap total (x + direction))) eqn:Hd.
  - destruct (Z.eqb_spec (wrap total (wrap total (x + direction) + direction))
                         currentIndex) as [Heq | Hne].
    + exists 0%nat. split; [exact Heq |].
      intros m' Hm'. replace m' with 0%nat by lia. exact Hd.
    + specialize (IH (wrap total (x + direction))).
      destruct (skip_disabled fuel _ _ _ _ _) as [[| i] |]; [| | exact I].
      * destruct IH as (m & Hback & Hall). exists (S m).
        rewrite <- ahead_shift. split; [exact Hback |].
        intros [| m'] Hm'; [exact Hd |].
        rewrite <- ahead_shift. apply Hall. lia.
      * destruct IH as (m & Hi & Hen & Hall). exists (S m).
        rewrite <- ahead_shift. split; [exact Hi |]. split; [exact Hen |].
        intros [| m'] Hm'; [exact Hd |].
        rewrite <- ahead_shift. apply Hall. lia.
  - exists 0%nat. split; [reflexivity |]. split; [exact Hd |].
    intros m' Hm'. lia.
Qed.

Lemma ahead_in_range (total direction x : Z) (m : nat) :
  0 < total -> 0 <= ahead total direction x m < total.
Proof.
  intros Hpos. unfold ahead. rewrite Nat.iter_succ.
  now apply Navigation.wrap_in_range.
Qed.

(** An arrow key moves the highlight to the nearest entry that is not
    disabled in the direction of the key, going around the ends of the
    list: every entry between the old and the new highlight is disabled.
    When the highlight is on an entry and all the others are disabled,
    the key changes nothing.  The move returns whenever the highlight is
    on an entry of the list or some entry is enabled. *)
Theorem arrow_reaches_nearest_enabled (direction : Z) (rl : ResultsList.State)
    (Hdir : direction = 1 \/ direction = -1)
    (Hc : consistent rl)
    (Hsafe :
       let rendered := _getFlatRenderedItems (ResultsList.results rl) in
       let total := Z.of_nat (length rendered) in
       0 <= ResultsList.highlightedIndex rl < total
       \/ (exists target, 0 <= target < total
                          /\ disabled_at rendered target = false)) :
  let rendered := _getFlatRenderedItems (ResultsList.results rl) in
  let total := Z.of_nat (length rendered) in
  let current := ResultsList.highlightedIndex rl in
  exists rl',
    _navigate (length rendered) direction rl = Some rl'
    /\ ((rl' = rl
         /\ exists m, ahead total direction current (S m) = current
                      /\ forall m', (m' <= m)%nat ->
                            disabled_at rendered (ahead total direction current m')
                            = true)
        \/ (exists m,
              ResultsList.highlightedIndex rl' = ahead total direction current m
              /\ ResultsList.results rl' = ResultsList.results rl
              /\ disabled_at rendered (ahead total direction current m) = false
              /\ forall m', (m' < m)%nat ->
                    disabled_at rendered (ahead total direction current m')
                    = true)).
Proof.
  cbn zeta in *.
  pose proof (Navigation.navigate_returns direction rl Hdir Hsafe) as Hret.
  destruct (_navigate _ direction rl) as [rl' |] eqn:Hnav; [| contradiction].
  exists rl'. split; [reflexivity |].
  unfold _navigate in Hnav. rewrite Navigation.count_is_flat_length in Hnav.
  destruct (Z.eqb_spec
              (Z.of_nat (length (_getFlatRenderedItems (ResultsList.results rl))))
              0) as [Hzero | Hpos].
  - exfalso. destruct Hsafe as [Hin | (t & Ht & _)]; lia.
  - pose proof (skip_disabled_trace
                  (length (_getFlatRenderedItems (ResultsList.results rl)))
                  (_getFlatRenderedItems (ResultsList.results rl))
                  (Z.of_nat (length (_getFlatRenderedItems
                                       (ResultsList.results rl))))
                  direction (ResultsList.highlightedIndex rl)
                  (ResultsList.highlightedIndex rl)) as Htrace.
    destruct (skip_disabled _ _ _ _ _ _) as [[| i] |]; [| | discriminate].
    + injection Hnav as <-. left. split; [reflexivity | exact Htrace].
    + injection Hnav as <-. right.
      destruct Htrace as (m & -> & Hen & Hall). exists m.
      destruct (highlight_in_range
                  (ahead (Z.of_nat (length (_getFlatRenderedItems
                                              (ResultsList.results rl))))
                         direction (ResultsList.highlightedIndex rl) m)
                  rl Hc) as (Hidx & Hres & _).
      { apply ahead_in_range. lia. }
      auto.
Qed.

(** Four entries, the second and third disabled, the first highlighted:
    Down goes to the fourth, Up as well (around the top). *)
Definition first_of_four : ResultsList.State :=
  ResultsList.highlight 0
    (ResultsList.update
       [Selection.item1; Navigation.disabled_item; Navigation.disabled_item;
        Selection.item3] ResultsList.create).

Lemma arrow_reaches_nearest_enabled_witness :
  let rendered := _getFlatRenderedItems (ResultsList.results first_of_four) in
  let total := Z.of_nat (length rendered) in
  let current := ResultsList.highlightedIndex first_of_four in
  exists rl',
    _navigate (length rendered) 1 first_of_four = Some rl'
    /\ ((rl' = first_of_four
         /\ exists m, ahead total 1 current (S m) = current
                      /\ forall m', (m' <= m)%nat ->
                            disabled_at rendered (ahead total 1 current m') = true)
        \/ (exists m,
              ResultsList.highlightedIndex rl' = ahead total 1 current m
              /\ ResultsList.results rl' = ResultsList.results first_of_four
              /\ disabled_at rendered (ahead total 1 current m) = false
              /\ forall m', (m' < m)%nat ->
                    disabled_at rendered (ahead total 1 current m') = true)).
Proof.
  apply (arrow_reaches_nearest_enabled 1 first_of_four).
  - now left.
  - reflexivity.
  - left. vm_compute. split; [discriminate | reflexivity].
Defined.

Example arrows_on_first_of_four :
  option_map ResultsList.highlightedIndex (_navigate 4 1 first_of_four) = Some 3
  /\ option_map ResultsList.highlightedIndex (_navigate 4 (-1) first_of_four)
     = Some 3.
Proof. split; reflexivity. Qed.

End NavigationFacts.

(** ** Choosing an entry: click and Enter *)

Module InteractionFacts.
Import Js Items Events Interaction.

Lemma getHighlighted_highlight (i : nat) (rl : ResultsList.State) (entry : Item) :
  nth_error (ResultsList.flatResults rl) i = Some entry ->
  ResultsList.getHighlighted (ResultsList.highlight (Z.of_nat i) rl)
  = Some entry.
Proof.
  intros Hnth.
  assert (Hlt : (i < length (ResultsList.flatResults rl))%nat)
    by (apply nth_error_Some; congruence).
  unfold ResultsList.highlight, ResultsList.getHighlighted.
  replace (Z.of_nat i <? 0) with false by (symmetry; apply Z.ltb_ge; lia).
  replace (_ <=? Z.of_nat i) with false by (symmetry; apply Z.leb_gt; lia).
  cbn.
  replace (0 <=? Z.of_nat i) with true by (symmetry; apply Z.leb_le; lia).
  replace (Z.of_nat i <? _) with true by (symmetry; apply Z.ltb_lt; lia).
  cbn. now rewrite Nat2Z.id.
Qed.

(** Highlighting and reading back: after [update] nothing is
    highlighted; [highlight] of an index of the list makes
    [getHighlighted] return the entry at that index, whatever was
    highlighted before; an index outside the list is ignored.  Enter
    then selects that entry without looking at its [disabled] flag,
    while a click on a disabled entry selects nothing; for an enabled
    entry that [_findItemById] finds in the store under its own id, a
    click and Enter do the same. *)
Theorem highlighted_entry_is_chosen (o : DataAdapter.Options)
    (rl : ResultsList.State) (st : DataAdapter.State) (i : nat) (entry : Item)
    (Hentry : nth_error (ResultsList.flatResults rl) i = Some entry) :
  (forall rs, ResultsList.getHighlighted (ResultsList.update rs rl) = None)
  /\ ResultsList.getHighlighted (hover (Z.of_nat i) rl) = Some entry
  /\ (forall j, j < 0 \/ Z.of_nat (length (ResultsList.flatResults rl)) <= j ->
                hover j rl = rl)
  /\ enter o (hover (Z.of_nat i) rl) st = snd (DataAdapter.select o entry st)
  /\ (truthy (disabled entry) = true -> click o entry st = st)
  /\ (truthy (disabled entry) = false ->
      ItemLookup._findItemById (DataAdapter.query st) (Str (String_ (id entry)))
      = Some entry ->
      click o entry st = enter o (hover (Z.of_nat i) rl) st).
Proof.
  pose proof (getHighlighted_highlight i rl entry Hentry) as Hget.
  split; [reflexivity |]. split; [exact Hget |]. split; [| split; [| split]].
  - intros j Hj. unfold hover, ResultsList.highlight.
    destruct Hj as [Hj | Hj].
    + now replace (j <? 0) with true by (symmetry; apply Z.ltb_lt; lia).
    + replace (_ <=? j) with true by (symmetry; apply Z.leb_le; lia).
      now rewrite orb_true_r.
  - unfold enter, hover. now rewrite Hget.
  - intros Hd. unfold click. now rewrite Hd.
  - intros Hd Hfound. unfold click, enter, hover. now rewrite Hd, Hfound, Hget.
Qed.

(** A list of two entries, the second disabled; the store holds them. *)
Lemma highlighted_entry_is_chosen_witness :
  let rl := ResultsList.update [Selection.item1; Navigation.disabled_item]
                               ResultsList.create in
  let st := DataAdapter.MkState [Selection.item2; Navigation.disabled_item]
                                [] [] [] in
  click Selection.single Navigation.disabled_item st = st
  /\ DataAdapter.current (enter Selection.single (hover 1 rl) st)
     = [Navigation.disabled_item].
Proof.
  cbn zeta.
  destruct (highlighted_entry_is_chosen Selection.single
              (ResultsList.update [Selection.item1; Navigation.disabled_item]
                                  ResultsList.create)
              (DataAdapter.MkState [Selection.item2; Navigation.disabled_item]
                                   [] [] [])
              1 Navigation.disabled_item eq_refl)
    as (_ & _ & _ & Henter & Hclick & _).
  split; [apply Hclick; reflexivity |].
  change 1 with (Z.of_nat 1). rewrite Henter. reflexivity.
Defined.

End InteractionFacts.

(** ** The coordinator over any sequence of events *)

Module CoordinatorRuns.
Import Js Items Events ResultsAdapter.

(** What can happen to a coordinator in remote mode. *)
Inductive Input : Type :=
| Search (term : string)
| LoadMore
| Scroll (scrollTop scrollHeight clientHeight : Z)
| TimerFires (timer : nat)
| Resolves (k : Closure) (response : Page)
| Rejects (k : Closure).

Definition react (st : State) (i : Input) : State :=
  match i with
  | Search term => fst (update term st)
  | LoadMore => fst (loadMore st)
  | Scroll top height client => fst (_handleScroll top height client st)
  | TimerFires timer => loadMoreTimeout_fires timer st
  | Resolves k response => on_resolved k response st
  | Rejects k => on_rejected k st
  end.

Definition run (inputs : list Input) (st : State) : State :=
  fold_left react inputs st.

(** The call that installed [k] was made before, and another one since. *)
Definition outdated (k : Closure) (st : State) : Prop :=
  superseded k st = true /\ (searchToken k < symbols st)%nat.

(** The page is at least 1. *)
Definition paged (st : State) : Prop := 1 <= currentPage st.

Lemma updateWithAjax_outdates (k : Closure) (term : string) (append : bool)
    (st : State) :
  (searchToken k < symbols st)%nat ->
  outdated k (fst (_updateWithAjax term append st)).
Proof.
  intros Hlt. unfold outdated, superseded, _updateWithAjax. cbn. split.
  - apply negb_true_iff, Nat.eqb_neq. lia.
  - lia.
Qed.

Lemma handlers_keep_tokens (k : Closure) (response : Page) (st : State) :
  currentSearchToken (on_resolved k response st) = currentSearchToken st
  /\ symbols (on_resolved k response st) = symbols st
  /\ currentPage (on_resolved k response st) = currentPage st
  /\ currentSearchToken (on_rejected k st) = currentSearchToken st
  /\ symbols (on_rejected k st) = symbols st
  /\ currentPage (on_rejected k st) = currentPage st.
Proof.
  unfold on_resolved, on_rejected. destruct (superseded k st); cbn; auto 10.
Qed.

Lemma loadMore_outdates (k : Closure) (st : State) :
  outdated k st -> outdated k (fst (loadMore st)).
Proof.
  intros [Hs Hlt]. unfold loadMore.
  destruct (negb (hasMore st) || isLoadingMore st); [now split |].
  unfold outdated, superseded, _updateWithAjax. cbn. split.
  - apply negb_true_iff, Nat.eqb_neq. lia.
  - lia.
Qed.

Lemma react_keeps_outdated (k : Closure) (st : State) (i : Input) :
  outdated k st -> outdated k (react st i).
Proof.
  intros H. pose proof H as [Hs Hlt]. destruct i; cbn [react].
  - now apply updateWithAjax_outdates.
  - now apply loadMore_outdates.
  - unfold _handleScroll.
    destruct (negb (hasMore st) || isLoadingMore st); [exact H |].
    destruct (_ <=? _); [now apply loadMore_outdates | exact H].
  - unfold loadMoreTimeout_fires. destruct (decide _); [| exact H].
    unfold outdated, superseded in *. exact H.
  - destruct (handlers_keep_tokens k0 response st) as (Ht & Hn & _).
    unfold outdated, superseded in *. now rewrite Ht, Hn.
  - destruct (handlers_keep_tokens k0 (MkPage [] Undefined) st)
      as (_ & _ & _ & Ht & Hn & _).
    unfold outdated, superseded in *. now rewrite Ht, Hn.
Qed.

Lemma react_keeps_paged (st : State) (i : Input) : paged st -> paged (react st i).
Proof.
  unfold paged. intros H. destruct i; cbn [react].
  - unfold update, _updateWithAjax. cbn. destruct (negb _); lia.
  - unfold loadMore. destruct (negb (hasMore st) || isLoadingMore st);
      [exact H |]. cbn. rewrite String.eqb_refl. cbn. lia.
  - unfold _handleScroll.
    destruct (negb (hasMore st) || isLoadingMore st) eqn:Hg; [exact H |].
    destruct (_ <=? _); [| exact H].
    unfold loadMore. rewrite Hg. cbn. rewrite String.eqb_refl. cbn. lia.
  - unfold loadMoreTimeout_fires. now destruct (decide _).
  - destruct (handlers_keep_tokens k response st) as (_ & _ & -> & _). exact H.
  - destruct (handlers_keep_tokens k (MkPage [] Undefined) st)
      as (_ & _ & _ & _ & _ & ->). exact H.
Qed.

Lemma run_keeps_paged (inputs : list Input) (st : State) :
  paged st -> paged (run inputs st).
Proof.
  revert st. induction inputs as [| i inputs IH]; intros st Hp;
    cbn [run fold_left]; [exact Hp |].
  apply IH. now apply react_keeps_paged.
Qed.

(** Last issued wins, for good: once a later search or load-more call
    has replaced the token of a call, nothing that happens afterwards --
    further searches, scrolling, timers, other responses in any order --
    makes the handlers of that call current again; whenever its response
    or its rejection arrives, the state is left as it is.  And the page
    counter of a coordinator never falls below 1. *)
Theorem outdated_response_is_never_applied (k : Closure) (inputs : list Input)
    (st : State) (Hk : outdated k st) :
  outdated k (run inputs st)
  /\ (forall response,
        on_resolved k response (run inputs st) = run inputs st)
  /\ on_rejected k (run inputs st) = run inputs st
  /\ (paged st -> paged (run inputs st)).
Proof.
  assert (Hrun : outdated k (run inputs st)).
  { revert st Hk. induction inputs as [| i inputs IH]; intros st Hk;
      cbn [run fold_left]; [exact Hk |].
    apply IH. now apply react_keeps_outdated. }
  split; [exact Hrun |]. destruct Hrun as [Hs _].
  split; [| split].
  - intros response. now apply Coordinator.superseded_is_ignored.
  - now apply (Coordinator.superseded_is_ignored k (MkPage [] Undefined)).
  - apply run_keeps_paged.
Qed.

(** The first search of a new coordinator, replaced by a second one;
    then a load-more, a timer and the late response of the first. *)
Lemma outdated_response_is_never_applied_witness :
  let st0 := create (DataAdapter.create []) in
  let k := snd (update "a" st0) in
  let st := fst (update "ab" (fst (update "a" st0))) in
  let later := run [Resolves (MkClosure 1 false)
                             (MkPage [Paging.x] (Bool true));
                    LoadMore; TimerFires 1; Scroll 0 100 90] st in
  on_resolved k (MkPage [Paging.y] (Bool false)) later = later.
Proof.
  cbn zeta.
  assert (Hk : outdated (snd (update "a" (create (DataAdapter.create []))))
                        (fst (update "ab"
                                (fst (update "a"
                                        (create (DataAdapter.create [])))))))
    by (split; [reflexivity | vm_compute; lia]).
  destruct (outdated_response_is_never_applied
              (snd (update "a" (create (DataAdapter.create []))))
              [Resolves (MkClosure 1 false) (MkPage [Paging.x] (Bool true));
               LoadMore; TimerFires 1; Scroll 0 100 90]
              (fst (update "ab"
                      (fst (update "a" (create (DataAdapter.create []))))))
              Hk) as (_ & Hignored & _).
  exact (Hignored (MkPage [Paging.y] (Bool false))).
Defined.

(** A further page, asked for with [loadMore] and answered while its
    token is current, is appended: the accumulated and the displayed
    results are the previous ones followed by the page's, the store
    holds them all, normalized, [hasMore] is the page's flag, and the
    page counter is one more.  The list is rendered anew with nothing
    highlighted. *)
Theorem next_page_is_appended (st : State) (response : Page)
    (Hmore : hasMore st = true) (Hidle : isLoadingMore st = false)
    (Hpage : paged st) :
  let asked := fst (loadMore st) in
  exists k,
    snd (loadMore st) = Some k
    /\ queries asked
       = queries st ++ [MkParams (Some (currentSearchTerm st))
                                 (Some (currentPage st + 1))]
    /\ isLoadingMore asked = true
    /\ let shown := on_resolved k response asked in
       accumulatedResults shown
       = accumulatedResults st ++ Events.results response
       /\ ResultsList.results (results shown) = accumulatedResults shown
       /\ ResultsList.highlightedIndex (results shown) = -1
       /\ backing_data shown
          = map DataAdapter._normalizeItem (accumulatedResults shown)
       /\ hasMore shown = truthy (more response)
       /\ currentPage shown = currentPage st + 1
       /\ currentSearchTerm shown = currentSearchTerm st.
Proof.
  cbn zeta. unfold paged in Hpage. unfold loadMore. rewrite Hmore, Hidle. cbn.
  rewrite String.eqb_refl. cbn. eexists. split; [reflexivity |].
  split; [reflexivity |]. split; [reflexivity |].
  unfold on_resolved, superseded. cbn. rewrite Nat.eqb_refl. cbn.
  replace (1 <? currentPage st + 1) with true
    by (symmetry; apply Z.ltb_lt; lia).
  cbn. rewrite andb_false_r. repeat split.
Qed.

Lemma next_page_is_appended_witness :
  let asked := fst (loadMore Paging.first_page_shown) in
  exists k,
    snd (loadMore Paging.first_page_shown) = Some k
    /\ queries asked
       = queries Paging.first_page_shown
           ++ [MkParams (Some (currentSearchTerm Paging.first_page_shown))
                        (Some (currentPage Paging.first_page_shown + 1))]
    /\ isLoadingMore asked = true
    /\ let shown := on_resolved k (MkPage [Paging.y] (Bool false)) asked in
       accumulatedResults shown
       = accumulatedResults Paging.first_page_shown ++ [Paging.y]
       /\ ResultsList.results (results shown) = accumulatedResults shown
       /\ ResultsList.highlightedIndex (results shown) = -1
       /\ backing_data shown
          = map DataAdapter._normalizeItem (accumulatedResults shown)
       /\ hasMore shown = truthy (Bool false)
       /\ currentPage shown = currentPage Paging.first_page_shown + 1
       /\ currentSearchTerm shown = currentSearchTerm Paging.first_page_shown.
Proof.
  apply (next_page_is_appended Paging.first_page_shown
           (MkPage [Paging.y] (Bool false))); [reflexivity | reflexivity |].
  vm_compute. discriminate.
Defined.

End CoordinatorRuns.

(** ** The remote source: the cache and the settlement of a request *)

Module RemoteFacts.
Import Js Items Events AjaxAdapter.

Section Source.
Context {Raw Req : Type}.
Variable cfg : Config Raw Req.

(** Why a request failed, if it did: the transport's rejection, what
    [processResults] threw, or the TypeError of reading [results] on
    the nothing it returned. *)
Definition failure (params : Params) (outcome : Raw + Reason) : option Reason :=
  match outcome with
  | inr error => Some error
  | inl response =>
      match processResults cfg response params with
      | inl thrown => Some thrown
      | inr ProcessedNullish => Some type_error
      | inr (ProcessedObject _ _) => None
      end
  end.

(** The page that [query] makes of what [processResults] returned. *)
Definition page_of (params : Params) (response : Raw) : Page :=
  match processResults cfg response params with
  | inr (ProcessedObject rs pagination) =>
      MkPage (match rs with Some l => map _normalizeItem l | None => [] end)
             (match pagination with Some m => m | None => Bool false end)
  | _ => empty_page
  end.

(** Unless the failure is [undefined] or [null], the promise of [query]
    resolves: with the normalized page after a success, with the empty
    page after any failure.  The pending request is forgotten either
    way.  A success is announced with [vs:ajaxSuccess]; a failure is
    announced with [vs:ajaxError], carrying the error and the
    parameters, exactly when the name of the error is not "AbortError";
    each announcement is emitted and then triggered once. *)
Theorem settle_resolves_and_announces (params : Params) (outcome : Raw + Reason)
    (st : State)
    (Hvalue : forall b, failure params outcome <> Some (Nullish b)) :
  let st' := fst (settle cfg params outcome st) in
  currentRequest st' = None
  /\ match failure params outcome with
     | None =>
         exists response,
           outcome = inl response
           /\ snd (settle cfg params outcome st)
              = Resolved (page_of params response)
           /\ log st'
              = log st
                  ++ [Emit AJAX_SUCCESS (PSuccess (page_of params response) params);
                      Trigger AJAX_SUCCESS
                              (PSuccess (page_of params response) params)]
     | Some error =>
         snd (settle cfg params outcome st) = Resolved empty_page
         /\ cache st' = cache st
         /\ log st'
            = log st
                ++ (if strict_eq (Remote.name_of error) (Str "AbortError")
                    then []
                    else [Emit AJAX_ERROR (PError error params);
                          Trigger AJAX_ERROR (PError error params)])
     end.
Proof.
  cbn zeta. unfold failure, page_of in *.
  destruct outcome as [response | [b | name ident]].
  - unfold settle, on_fulfilled.
    destruct (processResults cfg response params)
      as [[b | name ident] | [| rs pagination]] eqn:Hp.
    + now destruct (Hvalue b).
    + cbn. destruct (strict_eq name (Str "AbortError")); cbn;
        rewrite ?app_nil_r; auto.
    + cbn. auto.
    + cbn. split; [now destruct (cache_enabled cfg) |].
      exists response. rewrite Hp. split; [reflexivity |].
      split; [reflexivity |]. now destruct (cache_enabled cfg).
  - now destruct (Hvalue b).
  - cbn. destruct (strict_eq name (Str "AbortError")); cbn;
      rewrite ?app_nil_r; auto.
Qed.

(** What happens to a remote source: a [query], or the settlement of a
    request it made earlier. *)
Inductive Step : Type :=
| Asks (params : Params) (abortable : bool)
| Settles (params : Params) (outcome : Raw + Reason).

Definition step (st : State) (s : Step) : State :=
  match s with
  | Asks params abortable => snd (query cfg params abortable st)
  | Settles params outcome => fst (settle cfg params outcome st)
  end.

Definition run (steps : list Step) (st : State) : State :=
  fold_left step steps st.

(** The settlement of a request for another key. *)
Definition other_key (key : CacheKey) (s : Step) : Prop :=
  match s with
  | Asks _ _ => True
  | Settles params _ => _getCacheKey params <> key
  end.

Lemma query_keeps_cache (params : Params) (abortable : bool) (st : State) :
  cache (snd (query cfg params abortable st)) = cache st.
Proof.
  unfold query. destruct (if cache_enabled cfg then _ else _); [reflexivity |].
  destruct (currentRequest st) as [[h [|]] |]; reflexivity.
Qed.

Lemma settle_keeps_others (params : Params) (outcome : Raw + Reason)
    (st : State) (key : CacheKey) :
  _getCacheKey params <> key ->
  cache (fst (settle cfg params outcome st)) !! key = cache st !! key.
Proof.
  intros Hkey. destruct outcome as [response | [b | name ident]].
  - unfold settle, on_fulfilled.
    destruct (processResults cfg response params)
      as [[b | name ident] | [| rs pagination]]; cbn; try reflexivity.
    + now destruct (negb _).
    + destruct (cache_enabled cfg); cbn; [| reflexivity].
      now rewrite lookup_insert_ne.
  - reflexivity.
  - cbn. now destruct (negb _).
Qed.

Lemma run_keeps_entry (steps : list Step) (st : State) (key : CacheKey) :
  List.Forall (other_key key) steps ->
  cache (run steps st) !! key = cache st !! key.
Proof.
  intros Hsteps. revert st.
  induction Hsteps as [| s steps Hs _ IH]; intros st; [reflexivity |].
  cbn [run fold_left]. fold (run steps (step st s)). rewrite IH.
  destruct s as [params abortable | params outcome]; cbn [step].
  - now rewrite query_keeps_cache.
  - now apply settle_keeps_others.
Qed.

(** With the cache enabled, the page that a request brought is stored
    under the JSON text of the request's parameter object, and stays
    there whatever queries are made and whatever requests for other keys
    settle afterwards.  A [query] with that parameter object is then
    served the page from the cache, in any such later state: the same
    page, no request to the transport, no event, and a request that is
    pending is not aborted -- the state is untouched. *)
Theorem cached_page_is_served (params : Params) (response : Raw)
    (abortable : bool) (later : list Step) (st : State)
    (Hcache : cache_enabled cfg = true)
    (Hok : failure params (inl response) = None)
    (Hlater : List.Forall (other_key (_getCacheKey params)) later) :
  let settled := fst (settle cfg params (inl response) st) in
  let st' := run later settled in
  snd (settle cfg params (inl response) st) = Resolved (page_of params response)
  /\ cache settled !! _getCacheKey params = Some (page_of params response)
  /\ cache st' !! _getCacheKey params = Some (page_of params response)
  /\ query cfg params abortable st' = (FromCache (page_of params response), st').
Proof.
  cbn zeta.
  assert (Hsettled :
            snd (settle cfg params (inl response) st)
            = Resolved (page_of params response)
            /\ cache (fst (settle cfg params (inl response) st))
                 !! _getCacheKey params
               = Some (page_of params response)).
  { unfold failure, page_of in *. unfold settle, on_fulfilled.
    destruct (processResults cfg response params)
      as [thrown | [| rs pagination]]; try discriminate.
    rewrite Hcache. cbn. now rewrite lookup_insert_eq. }
  destruct Hsettled as [Hpage Hentry].
  split; [exact Hpage |]. split; [exact Hentry |].
  pose proof (run_keeps_entry later
                (fst (settle cfg params (inl response) st))
                (_getCacheKey params) Hlater) as Hkept.
  rewrite Hentry in Hkept.
  split; [exact Hkept |].
  unfold query. now rewrite Hcache, Hkept.
Qed.

(** The cache holds pages of successful requests only, and nothing at
    all when it is disabled: a failed request leaves the cache as it
    was, and with the [cache] option off no settlement writes to it and
    no [query] is answered from it. *)
Theorem cache_holds_successes_only (params : Params) (outcome : Raw + Reason)
    (st : State) :
  (failure params outcome <> None ->
   cache (fst (settle cfg params outcome st)) = cache st)
  /\ (cache_enabled cfg = false ->
      cache (fst (settle cfg params outcome st)) = cache st
      /\ forall asked abortable page,
           fst (query cfg asked abortable st) <> FromCache page).
Proof.
  unfold failure. split.
  - intros Hfail. destruct outcome as [response | [b | name ident]].
    + unfold settle, on_fulfilled.
      destruct (processResults cfg response params)
        as [[b | name ident] | [| rs pagination]]; cbn.
      * reflexivity.
      * now destruct (negb _).
      * reflexivity.
      * now destruct Hfail.
    + reflexivity.
    + cbn. now destruct (negb _).
  - intros Hoff. split.
    + destruct outcome as [response | [b | name ident]].
      * unfold settle, on_fulfilled.
        destruct (processResults cfg response params)
          as [[b | name ident] | [| rs pagination]]; cbn; rewrite ?Hoff;
          try reflexivity.
        now destruct (negb _).
      * reflexivity.
      * cbn. now destruct (negb _).
    + intros asked abortable page. unfold query. rewrite Hoff.
      destruct (currentRequest st) as [[h [|]] |]; discriminate.
Qed.

End Source.

(** A source with the cache on whose [processResults] passes an array
    of items on. *)
Definition passing : Config (list Item) (string * Z) :=
  MkConfig true (fun term page => (term, page))
           (fun data _ => inr (ProcessedObject (Some data) None)).

Definition first_page : Params := MkParams (Some "a"%string) (Some 1).

Lemma settle_resolves_and_announces_witness :
  snd (settle passing first_page (inr (Thing (Str "AbortError") 0)) create)
  = Resolved empty_page
  /\ log (fst (settle passing first_page (inr (Thing (Str "AbortError") 0))
                create)) = [].
Proof.
  assert (Hvalue : forall b,
             failure passing first_page (inr (Thing (Str "AbortError") 0))
             <> Some (Nullish b)) by (intros b; discriminate).
  destruct (settle_resolves_and_announces
              passing first_page (inr (Thing (Str "AbortError") 0))
              create Hvalue) as (_ & Hpage & _ & Hlog).
  split; [exact Hpage | exact Hlog].
Defined.

(** The parameter object [{ term: "b", page: 1 }]. *)
Definition other_term : Params := MkParams (Some "b"%string) (Some 1).

(** The text that [JSON.stringify] gives for [{ term: "a", page: 1 }]. *)
Example first_page_key :
  list_ascii_of_string (JSON_stringify first_page)
  = map ascii_of_nat
        [123; 34; 116; 101; 114; 109; 34; 58; 34; 97; 34; 44;
         34; 112; 97; 103; 101; 34; 58; 49; 125]%nat.
Proof. reflexivity. Qed.

(** The page for "a" has arrived and a request for "b" is pending: a
    query for "a" is served from the cache and the pending request is
    neither aborted nor forgotten. *)
Lemma cached_page_is_served_witness :
  let settled := fst (settle passing first_page (inl [Selection.item1]) create) in
  let st' := run passing [Asks other_term true] settled in
  currentRequest st' = Some (MkRequest 0 true)
  /\ query passing first_page true st'
     = (FromCache (page_of passing first_page [Selection.item1]), st')
  /\ aborted st' = [].
Proof.
  assert (Hlater : List.Forall (other_key (_getCacheKey first_page))
                               [Asks (Raw := list Item) other_term true])
    by (constructor; [exact I | constructor]).
  destruct (cached_page_is_served passing first_page [Selection.item1] true
              [Asks other_term true] create eq_refl eq_refl Hlater)
    as (_ & _ & _ & Hserved).
  split; [reflexivity |]. split; [exact Hserved | reflexivity].
Defined.

Lemma cache_holds_successes_only_witness :
  cache (fst (settle passing first_page (inr (Thing (Str "TypeError") 0))
                create)) = cache create.
Proof.
  destruct (cache_holds_successes_only passing first_page
              (inr (Thing (Str "TypeError") 0)) create) as [Hfailed _].
  apply Hfailed. intros H. discriminate H.
Defined.

End RemoteFacts.

(** ** The coordinator in local mode, without a tag *)

Module LocalFacts.
Import Js Items Events ResultsAdapterLocal.

Lemma add_tag_skipped (o : Options) (term : string) (found : list nat)
    (σ : gmap nat Item) :
  tags o = false \/ blank term = true ->
  add_tag o term found σ = (found, σ).
Proof.
  intros [Hoff | Hblank]; unfold add_tag.
  - now rewrite Hoff.
  - unfold blank in Hblank. apply orb_true_iff in Hblank as [Hempty | Htrim].
    + apply negb_true_iff in Hempty. rewrite Hempty. now rewrite andb_false_r.
    + cbn [truthy]. rewrite Htrim. cbn. now rewrite andb_false_r.
Qed.

(** In local mode, when tagging is off or the term is empty or white
    space only, what is displayed is what [SearchManager.search] returns
    for the items of the store, in their order -- all of them for such a
    term --, no tag is created, the list of the data is not changed, and
    the term is remembered. *)
Theorem local_results_are_the_search (o : Options) (term : string) (st : State)
    (Hplain : tags o = false \/ blank term = true)
    (Hheld : List.Forall (fun r => is_Some (store st !! r)) (data st)) :
  let st' := _updateWithLocalData o term st in
  displayed st'
  = SearchManager.search (matcher o) (map (deref (store st)) (data st)) term
  /\ ResultsList.results (results st') = displayed st'
  /\ data st' = data st
  /\ currentSearchTerm st' = term
  /\ (blank term = true ->
      shown st' = data st /\ store st' = store st
      /\ displayed st' = map (deref (store st)) (data st)).
Proof.
  cbn zeta.
  pose proof (Tagging.search_on_references (matcher o) (store st) (data st)
                term Hheld) as Hview.
  split; [| split; [apply Tagging.presented_is_displayed |]].
  - unfold _updateWithLocalData, displayed.
    destruct (search (matcher o) (store st) (data st) term) as [found σ].
    rewrite (add_tag_skipped o term found σ Hplain). exact Hview.
  - unfold _updateWithLocalData.
    destruct (search (matcher o) (store st) (data st) term) as [found σ] eqn:Hs.
    rewrite (add_tag_skipped o term found σ Hplain). cbn.
    split; [reflexivity |]. split; [reflexivity |].
    intros Hblank. unfold search in Hs. rewrite Hblank in Hs.
    injection Hs as <- <-. unfold displayed. cbn. auto.
Qed.

(** The store of [Tagging.one_item], with tagging switched off. *)
Lemma local_results_are_the_search_witness :
  let o := MkOptions false Search.exact_text default_createTag
                     default_insertTag in
  displayed (_updateWithLocalData o "new" Tagging.one_item)
  = SearchManager.search Search.exact_text
      (map (deref (store Tagging.one_item)) (data Tagging.one_item)) "new".
Proof.
  cbn zeta.
  assert (Hheld : List.Forall (fun r => is_Some (store Tagging.one_item !! r))
                              (data Tagging.one_item)).
  { constructor; [| constructor]. now exists (plain (Str "x1") (Str "new")). }
  destruct (local_results_are_the_search
              (MkOptions false Search.exact_text default_createTag
                         default_insertTag) "new" Tagging.one_item
              (or_introl eq_refl) Hheld) as [Hshown _].
  exact Hshown.
Defined.

End LocalFacts.

(** ** The default matcher *)

Module MatcherFacts.
Import Js Items DefaultMatcher Whitespace.

Lemma prefix_refl (s : string) : String.prefix s s = true.
Proof.
  induction s as [| c s IH]; cbn; [reflexivity |].
  now destruct (ascii_dec c c).
Qed.

Lemma includes_of_prefix (text part : string) :
  String.prefix part text = true -> includes text part = true.
Proof. intros H. destruct text; cbn [includes]; now rewrite H. Qed.

Lemma lower_char_twice (c : ascii) : lower_char (lower_char c) = lower_char c.
Proof. destruct c as [[] [] [] [] [] [] [] []]; reflexivity. Qed.

Lemma toLowerCase_twice (s : string) :
  toLowerCase (toLowerCase s) = toLowerCase s.
Proof.
  induction s as [| c s IH]; cbn; [reflexivity |].
  now rewrite lower_char_twice, IH.
Qed.

Lemma white_space_lower (c : ascii) :
  is_white_space (lower_char c) = is_white_space c.
Proof. destruct c as [[] [] [] [] [] [] [] []]; reflexivity. Qed.

Lemma blank_lower (term : string) : blank (toLowerCase term) = blank term.
Proof.
  unfold blank. rewrite !trim_empty_iff. f_equal.
  - now destruct term.
  - induction term as [| c s IH]; cbn; [reflexivity |].
    now rewrite white_space_lower, IH.
Qed.

Section Laws.
Variable diacritics : ascii -> option string.

(** The default matcher: a term that is empty or white space matches
    every item, disabled ones too; otherwise a disabled item never
    matches; the letter case of the term and of the text does not
    matter; and the strategies are nested: an exact match is a
    starts-with match, and a starts-with match is a contains match. *)
Theorem default_matcher_laws (strategy term : string) (item : Item) :
  (blank term = true ->
   _defaultMatcher diacritics strategy term item = Some true)
  /\ (blank term = false -> truthy (disabled item) = true ->
      _defaultMatcher diacritics strategy term item = Some false)
  /\ _defaultMatcher diacritics strategy (toLowerCase term) item
     = _defaultMatcher diacritics strategy term item
  /\ (forall t,
        text item = Str t ->
        _defaultMatcher diacritics strategy term
                        (Search.with_text (Str (toLowerCase t)) item)
        = _defaultMatcher diacritics strategy term item)
  /\ (_defaultMatcher diacritics "exact" term item = Some true ->
      _defaultMatcher diacritics "startsWith" term item = Some true)
  /\ (_defaultMatcher diacritics "startsWith" term item = Some true ->
      _defaultMatcher diacritics "contains" term item = Some true
      /\ _defaultMatcher diacritics "" term item = Some true).
Proof.
  unfold _defaultMatcher. split; [now intros -> |].
  split; [now intros -> -> |].
  split; [now rewrite blank_lower, toLowerCase_twice |].
  split.
  - intros t Ht. cbn [Search.with_text text disabled]. rewrite Ht.
    now rewrite toLowerCase_twice.
  - destruct (blank term); [auto |].
    destruct (truthy (disabled item)); [split; discriminate |].
    destruct (text item) as [| | | | t |]; try (split; discriminate).
    cbn. split.
    + intros [= Heq]. apply String.eqb_eq in Heq. rewrite Heq.
      now rewrite prefix_refl.
    + intros [= Hprefix].
      now rewrite (includes_of_prefix _ _ Hprefix).
Qed.

(** With a matcher that gives the verdicts of the default matcher on
    the items at hand, a search for a term that is not blank returns no
    disabled entry, at the top level or inside a group. *)
Theorem search_leaves_out_disabled (m : SearchManager.Matcher)
    (strategy term : string) (items : list Item)
    (Hterm : blank term = false)
    (Hdefault : forall it,
        In it (ItemLookup.nodes items) ->
        is_group it = false ->
        _defaultMatcher diacritics strategy term it = Some (m term it)) :
  forall entry,
    In entry (ResultsList.flatten (SearchManager.search m items term)) ->
    is_group entry = false ->
    truthy (disabled entry) = false.
Proof.
  intros entry Hin Hleaf.
  assert (Henabled : forall it,
             In it (ItemLookup.nodes items) -> is_group it = false ->
             m term it = true -> truthy (disabled it) = false).
  { intros it Hit Hg Hm. specialize (Hdefault it Hit Hg).
    unfold _defaultMatcher in Hdefault. rewrite Hterm, Hm in Hdefault.
    destruct (truthy (disabled it)); [discriminate | reflexivity]. }
  rewrite HostElementFacts.flatten_flat_map in Hin.
  rewrite (Search.search_flat_map m items term Hterm) in Hin.
  apply in_flat_map in Hin as (r & Hr & Hentry).
  apply in_flat_map in Hr as (it & Hit & Hvisit).
  unfold SearchManager.visit in Hvisit.
  destruct (children it) as [v | kids] eqn:Hkids.
  - destruct (m term it) eqn:Hm; [| contradiction].
    destruct Hvisit as [<- | []]. rewrite Hkids in Hentry.
    destruct Hentry as [<- | []].
    apply Henabled; auto.
    unfold ItemLookup.nodes. apply in_flat_map. exists it. split; [exact Hit |].
    destruct it; now left.
  - destruct (0 <? _)%nat; [| contradiction].
    destruct Hvisit as [<- | []]. cbn in Hentry.
    apply filter_In in Hentry as [Hkid Hm].
    apply Henabled; auto.
    unfold ItemLookup.nodes. apply in_flat_map. exists it. split; [exact Hit |].
    destruct it as [i t d s c e g x]. cbn in Hkids. subst c. cbn. right.
    apply in_flat_map. exists entry. split; [exact Hkid |].
    destruct entry; now left.
Qed.

End Laws.

(** A table with the one entry U+00E9 (e acute), replaced by "e". *)
Definition e_acute : ascii -> option string :=
  fun c => if (nat_of_ascii c =? 233)%nat then Some "e"%string else None.

(** "cafe" is found in "Café" under each strategy but not "af" at its
    start. *)
Example cafe :
  let caf_e := plain (Num 1)
                     (Str (String "C" (String "a" (String "f"
                            (String (ascii_of_nat 233) EmptyString))))) in
  _defaultMatcher e_acute "contains" "cafe" caf_e = Some true
  /\ _defaultMatcher e_acute "exact" "CAFE" caf_e = Some true
  /\ _defaultMatcher e_acute "startsWith" "af" caf_e = Some false
  /\ _defaultMatcher e_acute "contains" "af" caf_e = Some true.
Proof. repeat split. Qed.

Lemma search_leaves_out_disabled_witness :
  List.Forall (fun entry => truthy (disabled entry) = false)
    (ResultsList.flatten
       (SearchManager.search
          (fun term it =>
             default false (_defaultMatcher e_acute "contains" term it))
          [Selection.item1; Navigation.disabled_item] "a")).
Proof.
  apply List.Forall_forall. intros entry Hin.
  refine (search_leaves_out_disabled e_acute
            (fun term it =>
               default false (_defaultMatcher e_acute "contains" term it))
            "contains" "a" [Selection.item1; Navigation.disabled_item]
            eq_refl _ entry Hin _).
  - intros it [<- | [<- | []]] _; reflexivity.
  - vm_compute in Hin. destruct Hin as [<- | []]. reflexivity.
Defined.

End MatcherFacts.

(** ** ResultsAdapter: the entry highlighted when a list is shown *)

Module AutoHighlightFacts.
Import Js Items ResultsAdapter.

(** The entries that [ResultsList.update] renders for one result. *)
Definition shown_as (it : Item) : list Item :=
  match children it with
  | IsArray kids => kids
  | NotArray _ => [it]
  end.

(** A result that [_autoHighlightFirst] passes over: a disabled item, or
    a group whose children are all disabled. *)
Definition skipped (it : Item) : bool :=
  match children it with
  | IsArray kids => forallb (fun k => truthy (disabled k)) kids
  | NotArray _ => truthy (disabled it)
  end.

(** [children] is an array or a falsy value. *)
Definition plain_children (it : Item) : bool :=
  match children it with
  | IsArray _ => true
  | NotArray v => negb (truthy v)
  end.

Lemma first_enabled_none (kids : list Item) (j : Z) :
  forallb (fun k => truthy (disabled k)) kids = true ->
  first_enabled kids j = None.
Proof.
  revert j. induction kids as [| k kids IH]; intros j H; [reflexivity |].
  cbn in *. apply andb_true_iff in H as [-> H]. cbn. now apply IH.
Qed.

Lemma first_enabled_found (dis : list Item) (k : Item) (more : list Item)
    (j : Z) :
  forallb (fun k => truthy (disabled k)) dis = true ->
  truthy (disabled k) = false ->
  first_enabled (dis ++ k :: more) j = Some (j + Z.of_nat (length dis)).
Proof.
  revert j. induction dis as [| d dis IH]; intros j Hdis Hk; cbn.
  - rewrite Hk. cbn. f_equal. lia.
  - cbn in Hdis. apply andb_true_iff in Hdis as [-> Hdis]. cbn.
    rewrite (IH (j + 1) Hdis Hk). f_equal. lia.
Qed.

Lemma autoHighlight_from_skip (all before rest : list Item) (i : nat)
    (rl : ResultsList.State) :
  forallb skipped before = true ->
  autoHighlight_from all (before ++ rest) i rl
  = autoHighlight_from all rest (i + length before) rl.
Proof.
  revert i. induction before as [| b before IH]; intros i H; cbn.
  - now rewrite Nat.add_0_r.
  - cbn in H. apply andb_true_iff in H as [Hb H]. unfold skipped in Hb.
    destruct (children b) as [v | kids].
    + rewrite Hb. cbn. rewrite (IH (S i) H). f_equal. lia.
    + rewrite (first_enabled_none kids 0 Hb). rewrite (IH (S i) H).
      f_equal. lia.
Qed.

Lemma width_plain (it : Item) :
  plain_children it = true ->
  width it = Some (Z.of_nat (length (shown_as it))).
Proof.
  unfold plain_children, width, shown_as.
  destruct (children it) as [v | kids]; [| reflexivity].
  intros H. apply negb_true_iff in H. now rewrite H.
Qed.

Lemma flat_index_plain (before rest : list Item) (j : Z) :
  forallb plain_children before = true ->
  _getFlatIndexForGroupChild (before ++ rest) (length before) j
  = Some (Z.of_nat (length (flat_map shown_as before)) + j).
Proof.
  induction before as [| b before IH]; intros H; cbn.
  - now destruct rest.
  - cbn in H. apply andb_true_iff in H as [Hb H].
    rewrite (width_plain b Hb), (IH H). f_equal.
    rewrite length_app. lia.
Qed.

Lemma flatten_shown (rs : list Item) :
  ResultsList.flatten rs = flat_map shown_as rs.
Proof. apply HostElementFacts.flatten_flat_map. Qed.

(** After [update], [highlight(n)] and [getHighlighted()] give the n-th
    rendered entry, and nothing when there is none. *)
Lemma highlight_then_get (all : list Item) (n : nat) (rl : ResultsList.State) :
  ResultsList.getHighlighted
    (ResultsList.highlight (Z.of_nat n) (ResultsList.update all rl))
  = nth_error (ResultsList.flatten all) n.
Proof.
  unfold ResultsList.highlight, ResultsList.update, ResultsList.getHighlighted.
  cbn [ResultsList.flatResults ResultsList.results].
  destruct (Z.ltb_spec (Z.of_nat n) 0) as [Hneg | _]; [lia |].
  destruct (Z.leb_spec (Z.of_nat (length (ResultsList.flatten all)))
                       (Z.of_nat n)) as [Hout | Hin];
    cbn [orb ResultsList.highlightedIndex ResultsList.flatResults].
  - cbn. symmetry. apply nth_error_None. lia.
  - destruct (Z.leb_spec 0 (Z.of_nat n)); [| lia].
    destruct (Z.ltb_spec (Z.of_nat n)
                         (Z.of_nat (length (ResultsList.flatten all))));
      [| lia].
    cbn. now rewrite Nat2Z.id.
Qed.

Lemma shown_as_items (rs : list Item) :
  forallb (fun it => negb (is_group it)) rs = true ->
  flat_map shown_as rs = rs.
Proof.
  induction rs as [| r rs IH]; intros H; [reflexivity |].
  cbn in *. apply andb_true_iff in H as [Hr H]. rewrite (IH H).
  unfold shown_as, is_group in *. now destruct (children r).
Qed.

(** A list with no enabled entry: [_autoHighlightFirst] highlights
    nothing, whatever the list holds. *)
Theorem auto_highlight_none (all : list Item) (rl : ResultsList.State)
    (Hall : forallb skipped all = true) :
  _autoHighlightFirst all (ResultsList.update all rl)
  = ResultsList.update all rl
  /\ ResultsList.getHighlighted
       (_autoHighlightFirst all (ResultsList.update all rl)) = None.
Proof.
  assert (H : forall st, _autoHighlightFirst all st = st).
  { intros st. unfold _autoHighlightFirst.
    rewrite <- (app_nil_r all) at 2.
    now rewrite (autoHighlight_from_skip all all [] 0 st Hall). }
  rewrite H. split; [reflexivity |].
  unfold ResultsList.getHighlighted, ResultsList.update. reflexivity.
Qed.

(** When the first result with an enabled entry is a group, and the
    results before it have an array or nothing as children, the
    highlight is on the first enabled child of that group. *)
Theorem auto_highlight_group_child
    (before : list Item) (grp : Item) (after dis : list Item) (k : Item)
    (more : list Item) (rl : ResultsList.State)
    (Hskip : forallb skipped before = true)
    (Hplain : forallb plain_children before = true)
    (Hkids : children grp = IsArray (dis ++ k :: more))
    (Hdis : forallb (fun k => truthy (disabled k)) dis = true)
    (Hk : truthy (disabled k) = false) :
  let all := before ++ grp :: after in
  ResultsList.getHighlighted
    (_autoHighlightFirst all (ResultsList.update all rl)) = Some k.
Proof.
  intros all. unfold _autoHighlightFirst. unfold all at 2.
  rewrite (autoHighlight_from_skip all before (grp :: after) 0 _ Hskip).
  cbn [autoHighlight_from Nat.add]. rewrite Hkids.
  rewrite (first_enabled_found dis k more 0 Hdis Hk).
  unfold all at 1. rewrite (flat_index_plain before (grp :: after) _ Hplain).
  replace (Z.of_nat (length (flat_map shown_as before))
           + (0 + Z.of_nat (length dis)))
    with (Z.of_nat (length (flat_map shown_as before) + length dis)) by lia.
  rewrite highlight_then_get, flatten_shown. unfold all.
  rewrite flat_map_app. cbn [flat_map]. unfold shown_as at 2. rewrite Hkids.
  rewrite nth_error_app2 by lia.
  replace (length (flat_map shown_as before) + length dis
           - length (flat_map shown_as before))%nat
    with (length dis) by lia.
  rewrite <- !app_assoc. rewrite nth_error_app2 by lia.
  now rewrite Nat.sub_diag.
Qed.

(** When the first result with an enabled entry is an item outside a
    group, [_autoHighlightFirst] highlights with the item's position
    among the results, not among the rendered entries: the highlighted
    entry is the rendered one at that position.  It is the item when no
    group comes before it; after one group of two or more (disabled)
    children it is the second child of that group, a disabled entry. *)
Theorem auto_highlight_item
    (before : list Item) (item : Item) (v : Value) (after : list Item)
    (rl : ResultsList.State)
    (Hskip : forallb skipped before = true)
    (Hitem : children item = NotArray v)
    (Henabled : truthy (disabled item) = false) :
  let all := before ++ item :: after in
  let shown := _autoHighlightFirst all (ResultsList.update all rl) in
  ResultsList.getHighlighted shown
  = nth_error (ResultsList.flatten all) (length before)
  /\ (forallb (fun it => negb (is_group it)) before = true ->
      ResultsList.getHighlighted shown = Some item)
  /\ (forall g kids,
        before = [g] -> children g = IsArray kids ->
        (2 <= length kids)%nat ->
        exists k,
          ResultsList.getHighlighted shown = Some k
          /\ nth_error kids 1 = Some k
          /\ truthy (disabled k) = true).
Proof.
  intros all shown.
  assert (Hshown : ResultsList.getHighlighted shown
                   = nth_error (ResultsList.flatten all) (length before)).
  { unfold shown, _autoHighlightFirst. unfold all at 2.
    rewrite (autoHighlight_from_skip all before (item :: after) 0 _ Hskip).
    cbn [autoHighlight_from Nat.add]. rewrite Hitem, Henabled.
    cbn [negb]. apply highlight_then_get. }
  split; [exact Hshown |]. split.
  - intros Hflat. rewrite Hshown, flatten_shown. unfold all.
    rewrite flat_map_app, (shown_as_items before Hflat).
    rewrite nth_error_app2 by lia. rewrite Nat.sub_diag. cbn [flat_map].
    unfold shown_as at 1. now rewrite Hitem.
  - intros g kids Hbefore Hg Hlen.
    destruct kids as [| k0 [| k kids]]; cbn in Hlen; try lia.
    exists k. rewrite Hshown, flatten_shown. unfold all. subst before.
    cbn [app flat_map length]. unfold shown_as at 1. rewrite Hg.
    split; [reflexivity |]. split; [reflexivity |].
    cbn in Hskip. unfold skipped in Hskip. rewrite Hg in Hskip. cbn in Hskip.
    rewrite andb_true_r in Hskip.
    apply andb_true_iff in Hskip as [_ Hskip].
    now apply andb_true_iff in Hskip as [Hskip _].
Qed.

Lemma auto_highlight_none_witness :
  ResultsList.getHighlighted
    (_autoHighlightFirst [Navigation.disabled_item]
       (ResultsList.update [Navigation.disabled_item] ResultsList.create))
  = None.
Proof.
  destruct (auto_highlight_none [Navigation.disabled_item] ResultsList.create
              eq_refl) as [_ H].
  exact H.
Defined.

Lemma auto_highlight_group_child_witness :
  ResultsList.getHighlighted
    (_autoHighlightFirst
       [Navigation.disabled_item;
        group (Str "g") [Navigation.disabled_item; Selection.item1];
        Selection.item2]
       (ResultsList.update
          [Navigation.disabled_item;
           group (Str "g") [Navigation.disabled_item; Selection.item1];
           Selection.item2] ResultsList.create))
  = Some Selection.item1.
Proof.
  exact (auto_highlight_group_child
           [Navigation.disabled_item]
           (group (Str "g") [Navigation.disabled_item; Selection.item1])
           [Selection.item2] [Navigation.disabled_item] Selection.item1 []
           ResultsList.create eq_refl eq_refl eq_refl eq_refl eq_refl).
Defined.

(** A group of two disabled children, then an enabled item: the
    highlight is on the second disabled child. *)
Lemma auto_highlight_item_witness :
  exists k,
    ResultsList.getHighlighted
      (_autoHighlightFirst
         [group (Str "g") [Navigation.disabled_item; Navigation.disabled_item];
          Selection.item1]
         (ResultsList.update
            [group (Str "g")
                   [Navigation.disabled_item; Navigation.disabled_item];
             Selection.item1] ResultsList.create))
    = Some k
    /\ nth_error [Navigation.disabled_item; Navigation.disabled_item] 1 = Some k
    /\ truthy (disabled k) = true.
Proof.
  destruct (auto_highlight_item
              [group (Str "g")
                     [Navigation.disabled_item; Navigation.disabled_item]]
              Selection.item1 Undefined [] ResultsList.create
              eq_refl eq_refl eq_refl) as (_ & _ & H).
  exact (H _ _ eq_refl eq_refl (le_n 2)).
Defined.

End AutoHighlightFacts.

(** ** Debouncing the query handler *)

Module DebounceFacts.
Import Debounce.

Section Wrapped.
Variable Args : Type.
Variable immediate : bool.

(** At most one timer is pending, the one [timeout] names. *)
Definition tidy (st : State Args) : Prop :=
  (timeout st = None /\ timers st = [])
  \/ (exists id args, timeout st = Some id /\ timers st = [(id, args)]).

Lemma create_tidy : tidy create.
Proof. now left. Qed.

Lemma debounced_tidy (args : Args) (st : State Args) :
  tidy st ->
  timeout (debounced immediate args st) = Some (next_timer st)
  /\ timers (debounced immediate args st) = [(next_timer st, args)]
  /\ calls (debounced immediate args st)
     = calls st
       ++ (if immediate && negb (bool_decide (is_Some (timeout st)))
           then [args] else []).
Proof.
  intros [[Ht Hp] | (id & a & Ht & Hp)]; unfold debounced;
    cbn [timeout timers calls]; rewrite Ht, Hp; cbn [clearTimeout].
  - split; [reflexivity |]. split; [reflexivity |].
    destruct (immediate && _); [reflexivity | now rewrite app_nil_r].
  - cbn [List.filter fst]. rewrite Nat.eqb_refl. cbn [negb app].
    split; [reflexivity |]. split; [reflexivity |].
    destruct (immediate && _); [reflexivity | now rewrite app_nil_r].
Qed.

Lemma cancel_tidy (st : State Args) :
  tidy st ->
  timeout (cancel st) = None /\ timers (cancel st) = []
  /\ calls (cancel st) = calls st.
Proof.
  intros [[Ht Hp] | (id & a & Ht & Hp)]; unfold cancel;
    cbn [timeout timers calls]; rewrite Ht, Hp; cbn [clearTimeout].
  - auto.
  - cbn [List.filter fst]. rewrite Nat.eqb_refl. auto.
Qed.

Lemma fire_tidy (id : nat) (st : State Args) :
  tidy st -> tidy (fire immediate id st).
Proof.
  intros Hst. pose proof Hst as [[Ht Hp] | (id' & a & Ht & Hp)];
    unfold fire; rewrite Hp; cbn [List.find fst]; [exact Hst |].
  destruct (id' =? id)%nat eqn:Hid; [| exact Hst].
  left. cbn [timeout timers List.filter fst]. now rewrite Hid.
Qed.

Lemma step_tidy (st : State Args) (e : Event Args) :
  tidy st -> tidy (step immediate st e).
Proof.
  intros Hst. destruct e as [args | | id]; cbn [step].
  - right. exists (next_timer st), args.
    now destruct (debounced_tidy args st Hst) as (-> & -> & _).
  - left. now destruct (cancel_tidy st Hst) as (-> & -> & _).
  - now apply fire_tidy.
Qed.

Lemma run_tidy (events : list (Event Args)) (st : State Args) :
  tidy st -> tidy (run immediate events st).
Proof.
  revert st. induction events as [| e events IH]; intros st Hst; [exact Hst |].
  cbn. apply IH. now apply step_tidy.
Qed.

Lemma last_default (x : Args) (l : list Args) (d d' : Args) :
  List.last (x :: l) d = List.last (x :: l) d'.
Proof.
  revert x. induction l as [| y l IH]; intros x; [reflexivity |].
  change (List.last (y :: l) d = List.last (y :: l) d'). apply IH.
Qed.

(** A burst from a state with at most one pending timer: the last call's
    timer is the one pending, and only a first call on the leading edge
    has run. *)
Lemma invoke_all_tidy (first : Args) (rest : list Args) (st : State Args) :
  tidy st ->
  let st' := invoke_all immediate (first :: rest) st in
  (exists id, timeout st' = Some id
              /\ timers st' = [(id, List.last rest first)])
  /\ calls st'
     = calls st
       ++ (if immediate && negb (bool_decide (is_Some (timeout st)))
           then [first] else []).
Proof.
  revert first st. induction rest as [| a rest IH]; intros first st Hst.
  - cbn. destruct (debounced_tidy first st Hst) as (Ht & Hp & Hc).
    split; [now exists (next_timer st) | exact Hc].
  - assert (Hnext : tidy (debounced immediate first st)).
    { right. exists (next_timer st), first.
      now destruct (debounced_tidy first st Hst) as (-> & -> & _). }
    destruct (IH a (debounced immediate first st) Hnext) as [Hpending Hcalls].
    destruct (debounced_tidy first st Hst) as (Ht & _ & Hc).
    cbn [invoke_all fold_left] in *. split.
    + destruct Hpending as (id & Hid & Hp). exists id. split; [exact Hid |].
      rewrite Hp. f_equal. f_equal.
      destruct rest as [| b rest];
        [reflexivity | exact (last_default b rest a first)].
    + rewrite Hcalls, Hc, Ht.
      replace (bool_decide (is_Some (Some (next_timer st)))) with true
        by (symmetry; apply bool_decide_eq_true; eauto).
      rewrite andb_false_r. now rewrite app_nil_r.
Qed.

Lemma elapse_one (id : nat) (args : Args) (st : State Args) :
  timers st = [(id, args)] ->
  calls (elapse immediate st)
  = (if immediate then calls st else calls st ++ [args])
  /\ timers (elapse immediate st) = []
  /\ timeout (elapse immediate st) = None.
Proof.
  intros Hp. unfold elapse. rewrite Hp. cbn [fold_left fst]. unfold fire.
  rewrite Hp. cbn [List.find List.filter fst]. rewrite Nat.eqb_refl.
  cbn [negb calls timers timeout]. auto.
Qed.

End Wrapped.

(** A burst of calls of the debounced function, after any history of
    calls, cancellations and timers: on the trailing edge (the default)
    the function does not run during the burst and, when the wait has
    passed, has run once, with the arguments of the last call; on the
    leading edge, with no timer pending before the burst, it runs at
    once with the arguments of the first call and not again; and after
    [cancel] nothing more runs. *)
Theorem debounce_burst {Args : Type} (immediate : bool)
    (history : list (Event Args)) (first : Args)
    (rest : list Args) :
  let st := run immediate history create in
  let burst := invoke_all immediate (first :: rest) st in
  (immediate = false ->
   calls burst = calls st
   /\ calls (elapse immediate burst) = calls st ++ [List.last rest first])
  /\ (immediate = true -> timeout st = None ->
      calls burst = calls st ++ [first]
      /\ calls (elapse immediate burst) = calls st ++ [first])
  /\ timers (elapse immediate burst) = []
  /\ calls (elapse immediate (cancel burst)) = calls burst.
Proof.
  intros st burst.
  assert (Hst : tidy Args st) by (apply run_tidy, create_tidy).
  destruct (invoke_all_tidy Args immediate first rest st Hst)
    as [(id & Hid & Hp) Hcalls].
  fold burst in Hid, Hp, Hcalls.
  destruct (elapse_one Args immediate id _ burst Hp) as (He & Hnone & _).
  split; [| split; [| split]].
  - intros ->. rewrite He, Hcalls. cbn. now rewrite app_nil_r.
  - intros -> Hquiet. rewrite He, Hcalls, Hquiet. cbn. auto.
  - exact Hnone.
  - assert (Hb : tidy Args burst) by (right; eauto).
    destruct (cancel_tidy Args burst Hb) as (_ & Hp' & Hc').
    unfold elapse. rewrite Hp'. cbn. exact Hc'.
Qed.

(** Three keystrokes within the delay, then the delay passes: one query,
    for the last term. *)
Example three_keystrokes :
  calls (elapse false
           (invoke_all false ["a"; "ab"; "abc"]%string
                       (Debounce.create (Args := string))))
  = ["abc"%string].
Proof. reflexivity. Qed.

End DebounceFacts.

(** ** The listeners of an emitter *)

Module EmitterFacts.
Import Js EventEmitter.

(** No event is kept with an empty list of handlers. *)
Definition clean (e : Emitter) : Prop :=
  forall name, _events e !! name <> Some [].

(** The wrappers registered come from earlier [once] calls. *)
Definition bounded (e : Emitter) : Prop :=
  forall name c n f,
    In (OnceWrapper c n f) (handlers_of name e) -> (c < closures e)%nat.

Lemma remove_first_incl (h x : Handler) (l : list Handler) :
  In x (remove_first h l) -> In x l.
Proof.
  induction l as [| y l IH]; cbn; [auto |].
  destruct (decide (y = h)); cbn; tauto.
Qed.

Lemma remove_first_snoc (h w : Handler) (l : list Handler) :
  h <> w -> remove_first h (l ++ [w]) = remove_first h l ++ [w].
Proof.
  intros Hne. induction l as [| y l IH]; cbn.
  - destruct (decide (w = h)); congruence.
  - destruct (decide (y = h)); [reflexivity | now rewrite IH].
Qed.

Lemma remove_first_last (w : Handler) (l : list Handler) :
  ~ In w l -> remove_first w (l ++ [w]) = l.
Proof.
  induction l as [| y l IH]; cbn; intros Hw.
  - now destruct (decide (w = w)).
  - destruct (decide (y = w)); [tauto |]. rewrite IH; tauto.
Qed.

Lemma handlers_of_off (n : string) (h : option Handler) (e : Emitter)
    (name : string) (x : Handler) :
  In x (handlers_of name (off n h e)) -> In x (handlers_of name e).
Proof.
  unfold off. destruct (_events e !! n) as [hs |] eqn:Hn; [| auto].
  assert (Hdel : In x (handlers_of name (set_events (delete n (_events e)) e))
                 -> In x (handlers_of name e)).
  { unfold handlers_of. cbn. destruct (decide (n = name)) as [-> | Hne].
    - now rewrite lookup_delete_eq.
    - now rewrite lookup_delete_ne. }
  destruct h as [h |]; [| exact Hdel].
  cbn zeta. destruct (length (remove_first h hs) =? 0)%nat; [exact Hdel |].
  unfold handlers_of. cbn. destruct (decide (n = name)) as [-> | Hne].
  - rewrite lookup_insert_eq, Hn. cbn. apply remove_first_incl.
  - now rewrite lookup_insert_ne.
Qed.

Lemma off_clean (n : string) (h : option Handler) (e : Emitter) :
  clean e -> clean (off n h e).
Proof.
  intros He. unfold off. destruct (_events e !! n) as [hs |] eqn:Hn; [| auto].
  assert (Hdel : clean (set_events (delete n (_events e)) e)).
  { intros name. cbn. destruct (decide (n = name)) as [-> | Hne].
    - now rewrite lookup_delete_eq.
    - rewrite lookup_delete_ne by auto. apply He. }
  destruct h as [h |]; [| exact Hdel].
  cbn zeta. destruct (length (remove_first h hs) =? 0)%nat eqn:Hlen;
    [exact Hdel |].
  intros name. cbn. destruct (decide (n = name)) as [-> | Hne].
  - rewrite lookup_insert_eq. intros [= Hnil]. now rewrite Hnil in Hlen.
  - rewrite lookup_insert_ne by auto. apply He.
Qed.

Lemma off_closures (n : string) (h : option Handler) (e : Emitter) :
  closures (off n h e) = closures e.
Proof.
  unfold off. destruct (_events e !! n); [| reflexivity].
  destruct h; [| reflexivity].
  cbn zeta. now destruct (length _ =? 0)%nat.
Qed.

Lemma off_bounded (n : string) (h : option Handler) (e : Emitter) :
  bounded e -> bounded (off n h e).
Proof.
  intros He name c n' f Hin. rewrite off_closures.
  apply (He name c n' f). now apply handlers_of_off in Hin.
Qed.

Lemma register_clean (n : string) (h : Handler) (e : Emitter) :
  clean e -> clean (register n h e).
Proof.
  intros He name. cbn. destruct (decide (n = name)) as [-> | Hne].
  - rewrite lookup_insert_eq. intros [= Hnil]. now destruct (handlers_of name e).
  - rewrite lookup_insert_ne by auto. apply He.
Qed.

Lemma handlers_of_register (n : string) (h : Handler) (e : Emitter)
    (name : string) :
  handlers_of name (register n h e)
  = if decide (n = name) then handlers_of name e ++ [h]
    else handlers_of name e.
Proof.
  unfold handlers_of at 1. cbn. destruct (decide (n = name)) as [-> | Hne].
  - now rewrite lookup_insert_eq.
  - now rewrite lookup_insert_ne.
Qed.

Lemma call_clean (en : string) (h : Handler) (d : Value) (e : Emitter) :
  clean e -> clean (call en h d e).
Proof.
  intros He. destruct h as [f | c n [f |]]; cbn [call].
  - now destruct (fn_throws f).
  - destruct (fn_throws f); [exact He |]. now apply off_clean.
  - exact He.
Qed.

Lemma call_closures (en : string) (h : Handler) (d : Value) (e : Emitter) :
  closures (call en h d e) = closures e.
Proof.
  destruct h as [f | c n [f |]]; cbn [call].
  - now destruct (fn_throws f).
  - destruct (fn_throws f); [reflexivity |]. now rewrite off_closures.
  - reflexivity.
Qed.

Lemma handlers_of_call (en : string) (h : Handler) (d : Value) (e : Emitter)
    (name : string) (x : Handler) :
  In x (handlers_of name (call en h d e)) -> In x (handlers_of name e).
Proof.
  destruct h as [f | c n [f |]]; cbn [call].
  - now destruct (fn_throws f).
  - destruct (fn_throws f); [auto |]. intros H. now apply handlers_of_off in H.
  - auto.
Qed.

Lemma call_bounded (en : string) (h : Handler) (d : Value) (e : Emitter) :
  bounded e -> bounded (call en h d e).
Proof.
  intros He name c n f Hin. rewrite call_closures.
  apply (He name c n f). now apply handlers_of_call in Hin.
Qed.

Lemma calls_keep (en : string) (d : Value) (hs : list Handler) (e : Emitter) :
  clean e -> bounded e ->
  clean (fold_left (fun e h => call en h d e) hs e)
  /\ bounded (fold_left (fun e h => call en h d e) hs e)
  /\ closures (fold_left (fun e h => call en h d e) hs e) = closures e.
Proof.
  revert e. induction hs as [| h hs IH]; intros e Hc Hb; [auto |].
  cbn. destruct (IH (call en h d e)) as (H1 & H2 & H3).
  - now apply call_clean.
  - now apply call_bounded.
  - rewrite call_closures in H3. auto.
Qed.

Lemma exec_keeps (e : Emitter) (op : Op) :
  clean e -> bounded e -> clean (exec e op) /\ bounded (exec e op).
Proof.
  intros Hc Hb. destruct op as [n [f |] | n h | n h | n d |]; cbn [exec].
  - change (default e (on n (User <$> Some f) e))
      with (register n (User f) e).
    split; [now apply register_clean |].
    intros name c n' f' Hin. rewrite handlers_of_register in Hin.
    destruct (decide (n = name)); [| now apply (Hb name c n' f')].
    apply in_app_iff in Hin as [Hin | [[=] | []]].
    now apply (Hb name c n' f').
  - auto.
  - unfold once. split; [now apply register_clean |].
    intros name c n' f' Hin. rewrite handlers_of_register in Hin.
    change (c < S (closures e))%nat.
    change (handlers_of name (MkEmitter (_events e) (S (closures e))
                                        (called e) (console e)))
      with (handlers_of name e) in Hin.
    assert (Hold : In (OnceWrapper c n' f') (handlers_of name e)
                   -> (c < S (closures e))%nat).
    { intros H. specialize (Hb name c n' f' H). lia. }
    destruct (decide (n = name)); [| now apply Hold].
    apply in_app_iff in Hin as [Hin | [[= <- _ _] | []]]; [now apply Hold |].
    lia.
  - split; [now apply off_clean | now apply off_bounded].
  - unfold emit. destruct (_events e !! n) as [hs |]; cbn; [| auto].
    destruct (calls_keep n d hs e Hc Hb) as (H1 & H2 & _). auto.
  - split; [intros name; cbn; now rewrite lookup_empty |].
    intros name c n' f' Hin. unfold handlers_of in Hin. cbn in Hin.
    now rewrite lookup_empty in Hin.
Qed.

Lemma run_keeps (ops : list Op) (e : Emitter) :
  clean e -> bounded e -> clean (run ops e) /\ bounded (run ops e).
Proof.
  revert e. induction ops as [| op ops IH]; intros e Hc Hb; [auto |].
  cbn. destruct (exec_keeps e op Hc Hb). now apply IH.
Qed.

Lemma create_keeps : clean create /\ bounded create.
Proof.
  split; [intros name; cbn; now rewrite lookup_empty |].
  intros name c n f Hin. unfold handlers_of in Hin. cbn in Hin.
  now rewrite lookup_empty in Hin.
Qed.

(** After any calls on a new emitter, [emit] returns true exactly when
    the event has a listener, and [off] of the only listener of an event
    leaves the event with none. *)
Theorem emit_reports_listeners (ops : list Op) (name : string) (data : Value) :
  let e := run ops create in
  snd (emit name data e) = (0 <? listenerCount name e)%nat
  /\ (snd (emit name data e) = false -> fst (emit name data e) = e)
  /\ (forall h, handlers_of name e = [h] ->
        listenerCount name (off name (Some h) e) = 0%nat
        /\ snd (emit name data (off name (Some h) e)) = false).
Proof.
  intros e.
  destruct (run_keeps ops create) as [Hc _]; try apply create_keeps.
  fold e in Hc. unfold emit, listenerCount. specialize (Hc name).
  split; [| split].
  - destruct (_events e !! name) as [[| h hs] |]; [congruence | | ]; reflexivity.
  - now destruct (_events e !! name).
  - intros h Hh. unfold handlers_of in Hh. unfold off.
    destruct (_events e !! name) as [hs |]; cbn in Hh; [| discriminate].
    subst hs. cbn. destruct (decide (h = h)); [| congruence].
    cbn. now rewrite lookup_delete_eq.
Qed.

(** The emitter after one more [once] call has been counted. *)
Definition bump (e : Emitter) : Emitter :=
  MkEmitter (_events e) (S (closures e)) (called e) (console e).

Lemma off_register (n name : string) (h w : Handler) (e : Emitter) :
  h <> w ->
  off n (Some h) (register name w e) = register name w (off n (Some h) e).
Proof.
  intros Hne. destruct e as [m c cl co].
  unfold off, register, handlers_of, set_events. cbn.
  destruct (decide (n = name)) as [-> | Hn].
  - rewrite lookup_insert_eq. rewrite remove_first_snoc by auto.
    rewrite length_app. cbn [length].
    replace (length (remove_first h (default [] (m !! name))) + 1 =? 0)%nat
      with false by (symmetry; apply Nat.eqb_neq; lia).
    destruct (m !! name) as [hs |] eqn:Hm; cbn.
    + destruct (length (remove_first h hs) =? 0)%nat eqn:Hlen; cbn.
      * rewrite lookup_delete_eq. cbn. apply Nat.eqb_eq in Hlen.
        apply length_zero_iff_nil in Hlen. rewrite Hlen. cbn.
        now rewrite insert_insert_eq, insert_delete_eq.
      * rewrite lookup_insert_eq. cbn. now rewrite !insert_insert_eq.
    + rewrite Hm. cbn. now rewrite insert_insert_eq.
  - rewrite lookup_insert_ne by auto.
    destruct (m !! n) as [hs |] eqn:Hm; cbn; [| reflexivity].
    destruct (length (remove_first h hs) =? 0)%nat; cbn.
    + rewrite lookup_delete_ne by auto. now rewrite delete_insert_ne by auto.
    + rewrite lookup_insert_ne by auto. now rewrite insert_insert_ne by auto.
Qed.

Lemma call_register (en name : string) (h w : Handler) (d : Value)
    (e : Emitter) :
  h <> w ->
  call en h d (register name w e) = register name w (call en h d e).
Proof.
  intros Hne. destruct h as [f | c n [f |]]; cbn [call].
  - now destruct (fn_throws f).
  - destruct (fn_throws f); [reflexivity |].
    change (invoke f d (register name w e))
      with (register name w (invoke f d e)).
    now apply off_register.
  - reflexivity.
Qed.

Lemma calls_register (en name : string) (w : Handler) (d : Value)
    (hs : list Handler) (e : Emitter) :
  ~ In w hs ->
  fold_left (fun e h => call en h d e) hs (register name w e)
  = register name w (fold_left (fun e h => call en h d e) hs e).
Proof.
  revert e. induction hs as [| h hs IH]; intros e Hw; [reflexivity |].
  cbn in *. rewrite call_register by (intros ->; tauto). apply IH. tauto.
Qed.

Lemma off_bump (n : string) (h : option Handler) (e : Emitter) :
  off n h (bump e) = bump (off n h e).
Proof.
  unfold off, bump. cbn. destruct (_events e !! n); [| reflexivity].
  destruct h; [| reflexivity]. cbn zeta.
  now destruct (length _ =? 0)%nat.
Qed.

Lemma call_bump (en : string) (h : Handler) (d : Value) (e : Emitter) :
  call en h d (bump e) = bump (call en h d e).
Proof.
  destruct h as [f | c n [f |]]; cbn [call].
  - now destruct (fn_throws f).
  - destruct (fn_throws f); [reflexivity |].
    change (invoke f d (bump e)) with (bump (invoke f d e)). apply off_bump.
  - reflexivity.
Qed.

Lemma calls_bump (en : string) (d : Value) (hs : list Handler) (e : Emitter) :
  fold_left (fun e h => call en h d e) hs (bump e)
  = bump (fold_left (fun e h => call en h d e) hs e).
Proof.
  revert e. induction hs as [| h hs IH]; intros e; [reflexivity |].
  cbn. rewrite call_bump. apply IH.
Qed.

Lemma off_called (n : string) (h : option Handler) (e : Emitter) :
  called (off n h e) = called e.
Proof.
  unfold off. destruct (_events e !! n); [| reflexivity].
  destruct h; [| reflexivity]. cbn zeta. now destruct (length _ =? 0)%nat.
Qed.

(** [emit] runs the handlers registered when it is called. *)
Lemma emit_calls (name : string) (d : Value) (e : Emitter) :
  fst (emit name d e)
  = fold_left (fun e h => call name h d e) (handlers_of name e) e.
Proof.
  unfold emit, handlers_of. now destruct (_events e !! name).
Qed.

(** The last handler is a wrapper of [once] that is registered once: when
    its function returns, the wrapper is gone. *)
Lemma off_last (name : string) (w : Handler) (e : Emitter) :
  clean e -> ~ In w (handlers_of name e) ->
  _events (off name (Some w) (register name w e)) = _events e.
Proof.
  intros Hc Hw. specialize (Hc name). unfold handlers_of in Hw.
  unfold off, register, handlers_of, set_events. cbn.
  rewrite lookup_insert_eq. rewrite remove_first_last by exact Hw.
  destruct (_events e !! name) as [[| h hs] |] eqn:Hm; cbn.
  - congruence.
  - rewrite insert_insert_eq. now apply insert_id.
  - now apply delete_insert_id.
Qed.

(** A handler registered with [once], after any calls on a new emitter:
    the next [emit] of the event calls it with the data, after the
    handlers registered before it; if it returns, the emitter then has
    the listeners it would have without it; if it throws, it stays
    registered.  [off] with the handler itself does not remove it. *)
Theorem once_handler_runs_once (ops : list Op) (name : string) (f : Fn)
    (data : Value) :
  let e := run ops create in
  let onceWrapper := OnceWrapper (closures e) name (Some f) in
  let armed := once name (Some f) e in
  let plain := fst (emit name data e) in
  let shot := fst (emit name data armed) in
  called shot = called plain ++ [(fn_name f, data)]
  /\ (fn_throws f = false -> _events shot = _events plain)
  /\ (fn_throws f = true ->
      handlers_of name shot = handlers_of name plain ++ [onceWrapper])
  /\ In onceWrapper (handlers_of name (off name (Some (User f)) armed)).
Proof.
  intros e w armed plain shot.
  destruct (run_keeps ops create) as [Hc Hb]; try apply create_keeps.
  fold e in Hc, Hb.
  assert (Hfresh : forall e', bounded e' -> closures e' = closures e ->
                              ~ In w (handlers_of name e')).
  { intros e' Hb' Hcl Hin. apply Hb' in Hin. lia. }
  assert (Harmed : armed = register name w (bump e)) by reflexivity.
  destruct (calls_keep name data (handlers_of name e) e Hc Hb)
    as (Hpc & Hpb & Hpcl).
  rewrite <- emit_calls in Hpc, Hpb, Hpcl. fold plain in Hpc, Hpb, Hpcl.
  assert (Hshot : shot = call name w data (register name w (bump plain))).
  { unfold shot. rewrite emit_calls, Harmed, handlers_of_register.
    destruct (decide (name = name)); [| congruence].
    change (handlers_of name (bump e)) with (handlers_of name e).
    rewrite fold_left_app. cbn [fold_left]. f_equal.
    rewrite calls_register by (apply Hfresh; auto).
    rewrite calls_bump. unfold plain. now rewrite emit_calls. }
  split; [| split; [| split]].
  - rewrite Hshot. unfold w. cbn [call].
    destruct (fn_throws f); [reflexivity |]. now rewrite off_called.
  - intros Hf. rewrite Hshot. unfold w at 1. cbn [call]. rewrite Hf.
    change (invoke f data (register name w (bump plain)))
      with (register name w (invoke f data (bump plain))).
    fold w. rewrite off_last; [reflexivity | exact Hpc |].
    apply (Hfresh plain); auto.
  - intros Hf. rewrite Hshot. unfold w at 1. cbn [call]. rewrite Hf.
    change (handlers_of name
              (console_error name
                 (invoke f data (register name w (bump plain)))))
      with (handlers_of name (register name w (bump plain))).
    rewrite handlers_of_register.
    destruct (decide (name = name)); [reflexivity | congruence].
  - rewrite Harmed, off_register by discriminate.
    rewrite handlers_of_register.
    destruct (decide (name = name)); [| congruence].
    apply in_app_iff. right. now left.
Qed.

(** [once] with a handler that returns: one call for two emits. *)
Example once_twice :
  let f := MkFn 7 false in
  let e := once "select" (Some f) create in
  called (fst (emit "select" (Num 2) (fst (emit "select" (Num 1) e))))
  = [(7%nat, Num 1)]
  /\ snd (emit "select" (Num 2) (fst (emit "select" (Num 1) e))) = false.
Proof. split; reflexivity. Qed.

End EmitterFacts.

(** ** Marking the match in a text *)

Module HighlightFacts.
Import Js DefaultMatcher Highlight.

Lemma substring_empty (i n : nat) : substring i n "" = ""%string.
Proof. now destruct i, n. Qed.

Lemma substring_from_cons (i : nat) (c : ascii) (s : string) :
  substring_from (S i) (String c s) = substring_from i s.
Proof. reflexivity. Qed.

Lemma split_mid (s : string) (i n : nat) :
  (substring i n s ++ substring_from (i + n) s)%string = substring_from i s.
Proof.
  revert i n. induction s as [| c s IH]; intros i n.
  - unfold substring_from. now rewrite !substring_empty.
  - destruct i as [| i].
    + destruct n as [| n]; [reflexivity |].
      cbn [Nat.add]. rewrite substring_from_cons.
      change (substring 0 (S n) (String c s))
        with (String c (substring 0 n s)).
      change (substring_from 0 (String c s))
        with (String c (substring 0 (String.length s) s)).
      change (String c ((substring 0 n s ++ substring_from n s)%string)
              = String c (substring 0 (String.length s) s)).
      f_equal.
      pose proof (IH 0%nat n) as Hn. cbn [Nat.add] in Hn. rewrite Hn.
      unfold substring_from. now rewrite Nat.sub_0_r.
    + cbn [Nat.add]. rewrite !substring_from_cons. apply IH.
Qed.

Lemma substring_all (s : string) : substring 0 (String.length s) s = s.
Proof. induction s as [| c s IH]; cbn; [reflexivity | now rewrite IH]. Qed.

Lemma split_at (s : string) (i : nat) :
  (substring 0 i s ++ substring_from i s)%string = s.
Proof.
  pose proof (split_mid s 0 i) as Hi. cbn [Nat.add] in Hi. rewrite Hi.
  unfold substring_from. rewrite Nat.sub_0_r. apply substring_all.
Qed.

(** A function that works code unit by code unit commutes with
    [substring] and keeps the length. *)
Section Charwise.
Variable F : string -> string.
Variable g : ascii -> ascii.
Hypothesis F_empty : F "" = ""%string.
Hypothesis F_cons : forall c s, F (String c s) = String (g c) (F s).

Lemma charwise_substring (s : string) (i n : nat) :
  F (substring i n s) = substring i n (F s).
Proof.
  revert i n. induction s as [| c s IH]; intros i n.
  - now rewrite F_empty, !substring_empty.
  - rewrite F_cons. destruct i as [| i].
    + destruct n as [| n]; cbn [substring]; [exact F_empty |].
      now rewrite F_cons, IH.
    + cbn [substring]. apply IH.
Qed.

Lemma charwise_length (s : string) : String.length (F s) = String.length s.
Proof.
  induction s as [| c s IH]; [now rewrite F_empty |].
  rewrite F_cons. cbn. now rewrite IH.
Qed.

End Charwise.

Section Laws.
Variable diacritics : ascii -> option string.

(** The code unit that replaces [c] when the table has single code
    units only. *)
Definition plain_char (c : ascii) : ascii :=
  match removeDiacritics diacritics (String c "") with
  | String c' _ => c'
  | EmptyString => c
  end.

Lemma removeDiacritics_cons (c : ascii) (s : string) :
  (forall c r, diacritics c = Some r -> String.length r = 1%nat) ->
  removeDiacritics diacritics (String c s)
  = String (plain_char c) (removeDiacritics diacritics s).
Proof.
  intros Hsingle. unfold plain_char. cbn [removeDiacritics].
  destruct (126 <? nat_of_ascii c)%nat; [| reflexivity].
  destruct (diacritics c) as [r |] eqn:Hr; [| reflexivity].
  apply Hsingle in Hr. destruct r as [| c' [| c'' r]]; try discriminate.
  reflexivity.
Qed.

(** [highlight] leaves the text as it is when the term is blank or is
    not found; otherwise it puts one pair of marks into the text and
    changes nothing else: the parts before, between and after the marks
    make up the text.  When every replacement of the diacritics table
    is a single code unit, the marked part is an occurrence of the
    term, up to case and diacritics. *)
Theorem highlight_marks (text term : string) :
  let normalizedTerm := removeDiacritics diacritics (toLowerCase term) in
  let normalizedText := removeDiacritics diacritics (toLowerCase text) in
  (blank term = true \/ String.index 0 normalizedTerm normalizedText = None ->
   highlight diacritics text term = text)
  /\ (blank term = false ->
      String.index 0 normalizedTerm normalizedText <> None ->
      exists before matched after,
        highlight diacritics text term
        = (before ++ "<mark>" ++ matched ++ "</mark>" ++ after)%string
        /\ (before ++ matched ++ after)%string = text
        /\ ((forall c r, diacritics c = Some r -> String.length r = 1%nat) ->
            removeDiacritics diacritics (toLowerCase matched)
            = normalizedTerm)).
Proof.
  intros normalizedTerm normalizedText. unfold highlight.
  fold normalizedTerm normalizedText. split.
  - intros [-> | ->]; [reflexivity | now destruct (blank term)].
  - intros -> Hfound.
    destruct (String.index 0 normalizedTerm normalizedText) as [i |] eqn:Hi;
      [| congruence].
    exists (substring 0 i text), (substring i (String.length term) text),
      (substring_from (i + String.length term) text).
    split; [reflexivity |]. split.
    + rewrite split_mid. apply split_at.
    + intros Hsingle.
      rewrite (charwise_substring toLowerCase lower_char eq_refl
                 (fun c s => eq_refl)).
      rewrite (charwise_substring (removeDiacritics diacritics) plain_char
                 eq_refl (fun c s => removeDiacritics_cons c s Hsingle)).
      fold normalizedText.
      replace (String.length term) with (String.length normalizedTerm).
      * now apply index_correct1 with (n := 0%nat).
      * unfold normalizedTerm.
        rewrite (charwise_length (removeDiacritics diacritics) plain_char
                   eq_refl (fun c s => removeDiacritics_cons c s Hsingle)).
        apply (charwise_length toLowerCase lower_char eq_refl
                 (fun c s => eq_refl)).
Qed.

End Laws.

(** A table with the entry U+00E6 (ae ligature), replaced by "ae": the
    marks are put one place too far. *)
Example highlight_after_ligature :
  let table := fun c : ascii =>
                 if (nat_of_ascii c =? 230)%nat then Some "ae"%string
                 else None in
  let ae := String (ascii_of_nat 230) "" in
  highlight table (ae ++ "sop") "sop"
  = (ae ++ "s<mark>op</mark>")%string.
Proof. reflexivity. Qed.

End HighlightFacts.
